(** * nxdumptool: partition FS reads and ES certificate chains

    A shallow embedding of [source/pfs.c] and [source/cert.c].

    Conventions.
    - [u8]/[u32]/[u64] values are integers in [Z]; every sum the C code
      computes in an unsigned type is reduced modulo the width of that type.
    - A [char *] is a [string] standing for the memory the pointer refers to;
      the C string it denotes is the part before the first NUL character.
    - A pointer that may be NULL is an [option].
    - [LOGFILE] calls and calls to collaborators are recorded in a trace. *)

From Stdlib Require Import ZArith List Strings.String Strings.Ascii Strings.Byte Bool Lia.
From Equations Require Import Equations.
Import ListNotations.
Open Scope string_scope.
Open Scope list_scope.
Open Scope Z_scope.

(** ** Machine integers *)

Module U.

Definition modulus (w : Z) : Z := 2 ^ w.

Definition wrap (w x : Z) : Z := x mod modulus w.

Definition add64 (a b : Z) : Z := wrap 64 (a + b).
Definition mul64 (a b : Z) : Z := wrap 64 (a * b).
Definition add32 (a b : Z) : Z := wrap 32 (a + b).

Definition byte_val (b : byte) : Z := Z.of_N (Byte.to_N b).

(** A 32-bit word read from memory on the (little-endian) target. *)
Definition load_le32 (bs : list byte) : Z :=
  match bs with
  | b0 :: b1 :: b2 :: b3 :: _ =>
      byte_val b0 + Z.shiftl (byte_val b1) 8 + Z.shiftl (byte_val b2) 16
      + Z.shiftl (byte_val b3) 24
  | _ => 0
  end.

Definition load_le64 (bs : list byte) : Z :=
  load_le32 bs + Z.shiftl (load_le32 (skipn 4 bs)) 32.

(** [__builtin_bswap32]. *)
Definition bswap32 (x : Z) : Z :=
  Z.lor (Z.lor (Z.shiftl (Z.land x 255) 24)
               (Z.shiftl (Z.land (Z.shiftr x 8) 255) 16))
        (Z.lor (Z.shiftl (Z.land (Z.shiftr x 16) 255) 8)
               (Z.land (Z.shiftr x 24) 255)).

(** The four bytes read as a big-endian number. *)
Definition be32 (bs : list byte) : Z :=
  match bs with
  | b0 :: b1 :: b2 :: b3 :: _ =>
      Z.shiftl (byte_val b0) 24 + Z.shiftl (byte_val b1) 16
      + Z.shiftl (byte_val b2) 8 + byte_val b3
  | _ => 0
  end.

End U.

(** ** C strings and the libc routines the code calls *)

Module CStr.

Definition NUL : ascii := Ascii.zero.

Definition is_nul (c : ascii) : bool := Ascii.eqb c NUL.

(** The C string held by the memory [s]: everything before the first NUL. *)
Fixpoint c_str (s : string) : string :=
  match s with
  | EmptyString => EmptyString
  | String c r => if is_nul c then EmptyString else String c (c_str r)
  end.

Definition strlen (s : string) : Z := Z.of_nat (String.length (c_str s)).

Definition code (c : ascii) : Z := Z.of_N (N_of_ascii c).

Fixpoint strcmp_chars (a b : string) : Z :=
  match a, b with
  | EmptyString, EmptyString => 0
  | EmptyString, String d _ => 0 - code d
  | String c _, EmptyString => code c
  | String c a', String d b' =>
      if Ascii.eqb c d then strcmp_chars a' b' else code c - code d
  end.

(** [strcmp]: zero exactly when the two C strings are the same. *)
Definition strcmp (a b : string) : Z := strcmp_chars (c_str a) (c_str b).

Fixpoint take (n : nat) (s : string) : string :=
  match n, s with
  | O, _ => EmptyString
  | _, EmptyString => EmptyString
  | S n', String c r => String c (take n' r)
  end.

Fixpoint drop (n : nat) (s : string) : string :=
  match n, s with
  | O, _ => s
  | _, EmptyString => EmptyString
  | S n', String _ r => drop n' r
  end.

(** [p + n] for a pointer [p] to a C string: defined while it stays inside
    the string or on its terminator, undefined behaviour beyond it. *)
Definition ptr_add (s : string) (n : nat) : option string :=
  if (Z.of_nat n <=? strlen s) then Some (drop n (c_str s)) else None.

(** What [snprintf(buf, size, ...)] leaves in [buf] when the full output
    would be [full]: at most [size - 1] characters. *)
Definition snprintf_store (size : Z) (full : string) : string :=
  take (Z.to_nat (size - 1)) full.

(** [snprintf(buf, size, "%s", arg)]. *)
Definition snprintf_s (size : Z) (arg : string) : string :=
  snprintf_store size (c_str arg).

(** The output of a format string used with no further arguments: ordinary
    characters are copied, [%%] writes one [%], and every other conversion
    would fetch an argument that was not passed (undefined behaviour). *)
Fixpoint format_noargs (fmt : string) : option string :=
  match fmt with
  | EmptyString => Some EmptyString
  | String c r =>
      if Ascii.eqb c "%"%char then
        match r with
        | String d r' =>
            if Ascii.eqb d "%"%char then
              option_map (String "%"%char) (format_noargs r')
            else None
        | EmptyString => None
        end
      else option_map (String c) (format_noargs r)
  end.

(** [snprintf(buf, size, fmt)]: the second pointer is the format itself. *)
Definition snprintf_fmt (size : Z) (fmt : string) : option string :=
  option_map (snprintf_store size) (format_noargs (c_str fmt)).

(** *** strtok with a one-character delimiter set *)

Fixpoint skip_delims (d : ascii) (s : string) : string :=
  match s with
  | EmptyString => EmptyString
  | String c r => if Ascii.eqb c d then skip_delims d r else s
  end.

(** The token at the head of [s] and what follows its terminating
    delimiter (which strtok overwrites with NUL). *)
Fixpoint scan_token (d : ascii) (s : string) : string * string :=
  match s with
  | EmptyString => (EmptyString, EmptyString)
  | String c r =>
      if Ascii.eqb c d then (EmptyString, r)
      else let '(t, k) := scan_token d r in (String c t, k)
  end.

(** One call of [strtok]: [rest] is the text the saved pointer refers to.
    [None] is the NULL result. *)
Definition strtok (d : ascii) (rest : string) : option (string * string) :=
  match skip_delims d rest with
  | EmptyString => None
  | s => Some (scan_token d s)
  end.

Definition inspect {A} (a : A) : {b : A | a = b} := exist _ a eq_refl.

(** The tokens seen by
    [pch = strtok(buf, d); while (pch) { ...; pch = strtok(NULL, d); }]
    in the order the loop visits them. *)
Equations? strtok_loop (d : ascii) (rest : string) : list string
  by wf (String.length rest) lt :=
  strtok_loop d rest with inspect (strtok d rest) => {
    | exist _ None _ := [];
    | exist _ (Some (t, k)) e := t :: strtok_loop d k }.
Proof.
  (* each call of strtok moves the saved pointer forward *)
  clear strtok_loop. unfold strtok in e.
  assert (Hskip : forall s, (String.length (skip_delims d s) <= String.length s)%nat).
  { induction s as [|c r IH]; simpl; [lia|].
    destruct (Ascii.eqb c d); simpl; lia. }
  assert (Hscan : forall s, (String.length (snd (scan_token d s)) <= String.length s)%nat).
  { induction s as [|c r IH]; simpl; [lia|].
    destruct (Ascii.eqb c d); simpl; [lia|].
    destruct (scan_token d r); simpl in *; lia. }
  specialize (Hskip rest).
  destruct (skip_delims d rest) as [|c r]; [discriminate|].
  injection e as e. simpl in e, Hskip.
  destruct (Ascii.eqb c d).
  - injection e as _ e. subst k. lia.
  - specialize (Hscan r). destruct (scan_token d r) as [t' k'].
    injection e as _ e. subst k'. simpl in Hscan. lia.
Qed.

(** No character of [s] is NUL. *)
Fixpoint nul_free (s : string) : bool :=
  match s with
  | EmptyString => true
  | String c r => negb (is_nul c) && nul_free r
  end.

End CStr.

(** ** A monad for C code with a world and undefined behaviour

    A computation maps the world to a result and a new world, or has no
    defined result ([None]: an access outside an object, a format string
    that reads missing arguments). *)

Module C.

Definition M (W A : Type) : Type := W -> option (A * W).

Definition ret {W A} (a : A) : M W A := fun w => Some (a, w).

Definition bind {W A B} (m : M W A) (k : A -> M W B) : M W B :=
  fun w => match m w with
           | Some (a, w') => k a w'
           | None => None
           end.

Definition lift {W A} (o : option A) : M W A :=
  fun w => match o with
           | Some a => Some (a, w)
           | None => None
           end.

Definition get {W} : M W W := fun w => Some (w, w).

Definition modify {W} (f : W -> W) : M W unit := fun w => Some (tt, f w).

End C.

Notation "x <- m ;; k" := (C.bind m (fun x => k))
  (at level 61, m at next level, right associativity).
Notation "m ;;; k" := (C.bind m (fun _ => k))
  (at level 61, right associativity).
Notation "' pat <- m ;; k" := (C.bind m (fun x => match x with pat => k end))
  (at level 61, pat pattern, m at next level, right associativity).

(** ** cert.c *)

Module Cert.

Import CStr.

(** [CertType] of cert.h, stored in a [u8]: one tag per pair of signature
    and public key algorithm, plus the sentinel. *)
Inductive CertType : Set :=
| CertType_None
| CertType_SigRsa4096_PubKeyRsa4096
| CertType_SigRsa4096_PubKeyRsa2048
| CertType_SigRsa4096_PubKeyEcc480
| CertType_SigRsa2048_PubKeyRsa4096
| CertType_SigRsa2048_PubKeyRsa2048
| CertType_SigRsa2048_PubKeyEcc480
| CertType_SigEcc480_PubKeyRsa4096
| CertType_SigEcc480_PubKeyRsa2048
| CertType_SigEcc480_PubKeyEcc480
| CertType_SigHmac160_PubKeyRsa4096
| CertType_SigHmac160_PubKeyRsa2048
| CertType_SigHmac160_PubKeyEcc480.

Definition CertType_eqb (a b : CertType) : bool :=
  match a, b with
  | CertType_None, CertType_None
  | CertType_SigRsa4096_PubKeyRsa4096, CertType_SigRsa4096_PubKeyRsa4096
  | CertType_SigRsa4096_PubKeyRsa2048, CertType_SigRsa4096_PubKeyRsa2048
  | CertType_SigRsa4096_PubKeyEcc480, CertType_SigRsa4096_PubKeyEcc480
  | CertType_SigRsa2048_PubKeyRsa4096, CertType_SigRsa2048_PubKeyRsa4096
  | CertType_SigRsa2048_PubKeyRsa2048, CertType_SigRsa2048_PubKeyRsa2048
  | CertType_SigRsa2048_PubKeyEcc480, CertType_SigRsa2048_PubKeyEcc480
  | CertType_SigEcc480_PubKeyRsa4096, CertType_SigEcc480_PubKeyRsa4096
  | CertType_SigEcc480_PubKeyRsa2048, CertType_SigEcc480_PubKeyRsa2048
  | CertType_SigEcc480_PubKeyEcc480, CertType_SigEcc480_PubKeyEcc480
  | CertType_SigHmac160_PubKeyRsa4096, CertType_SigHmac160_PubKeyRsa4096
  | CertType_SigHmac160_PubKeyRsa2048, CertType_SigHmac160_PubKeyRsa2048
  | CertType_SigHmac160_PubKeyEcc480, CertType_SigHmac160_PubKeyEcc480 => true
  | _, _ => false
  end.

(** The part of [CertCommonBlock] that cert.c reads: the raw 32-bit word of
    the [pub_key_type] field as loaded from memory. *)
Record CertCommonBlock : Type := { pub_key_type : Z }.

(** What cert.c takes from cert.h and signature.h: sizes, enumerators and
    the inline accessors of a signed certificate. *)
Class CertDecls : Type := {
  SIGNED_CERT_MIN_SIZE : Z;
  SIGNED_CERT_MAX_SIZE : Z;
  CertPubKeyType_Rsa4096 : Z;
  CertPubKeyType_Rsa2048 : Z;
  SignatureType_Rsa4096Sha1 : Z;
  SignatureType_Rsa4096Sha256 : Z;
  SignatureType_Rsa2048Sha1 : Z;
  SignatureType_Rsa2048Sha256 : Z;
  SignatureType_Ecc480Sha1 : Z;
  SignatureType_Ecc480Sha256 : Z;
  SignatureType_Hmac160Sha1 : Z;
  certGetCommonBlock : list byte -> option CertCommonBlock;
  certGetSignedCertificateSize : list byte -> Z;
  signatureGetSigType : list byte -> bool -> Z;
  (** [SIGNED_CERT_MAX_SIZE] is the [sizeof] of a structure. *)
  SIGNED_CERT_MAX_SIZE_range : 0 <= SIGNED_CERT_MAX_SIZE < 2 ^ 32;
}.

(** The ES certificate savefile, as cert.c uses save.h. *)
Class SaveStore : Type := {
  save_ctx_t : Type;
  allocation_table_storage_ctx_t : Type;
  CERT_SAVEFILE_PATH : string;
  SAVE_FS_LIST_MAX_NAME_LENGTH : Z;
  save_open_savefile : string -> Z -> option save_ctx_t;
  save_get_fat_storage_from_file_entry_by_path :
    save_ctx_t -> string -> option (allocation_table_storage_ctx_t * Z);
  (** The bytes a read of [count] bytes at [offset] delivers; the call
      returns how many there are. *)
  save_allocation_table_storage_read :
    allocation_table_storage_ctx_t -> Z -> Z -> list byte;
}.

(** Whether an allocation is granted. *)
Inductive alloc_request : Type :=
| AllocCertificates (nmemb : Z)
| AllocRawChain (bytes : Z).

Class Allocator : Type := {
  alloc_ok : alloc_request -> bool;
  (** What a fresh [malloc]ed object happens to hold. *)
  malloc_garbage : Z -> list byte;
}.

Definition CERT_SAVEFILE_STORAGE_BASE_PATH : string := "/certificate/".

Inductive log_site : Set :=
| Log_InvalidParameters
| Log_OpenSavefileFailed
| Log_SavefileNotOpened
| Log_LocateCertificateFailed
| Log_InvalidCertificateSize
| Log_ShortCertificateRead
| Log_InvalidCertificateType
| Log_NotASignedCertificate
| Log_InvalidIssuerString
| Log_AllocChainFailed
| Log_RetrieveCertificateFailed
| Log_RetrieveChainFailed
| Log_AllocRawChainFailed.

Inductive event : Type :=
| EvLog (site : log_site)
| EvMutexLock
| EvMutexUnlock
| EvSaveOpen
| EvSaveClose
| EvLookup (path : string)
| EvRead (count : Z).

Section WithCollaborators.

Context {decls : CertDecls} {store : SaveStore} {allocator : Allocator}.

(** The fields of [Certificate] and [CertificateChain] (cert.h) that cert.c
    uses. [data] is an array inside the structure: the slots come from one
    [calloc] and are read into without a further allocation. *)
Record Certificate : Type := {
  type : CertType;
  size : Z;
  data : list byte;
}.

Record CertificateChain : Type := {
  count : Z;
  certs : option (list Certificate);
}.

(** A slot as [calloc] leaves it; [data] is an array of
    [SIGNED_CERT_MAX_SIZE] bytes inside the structure. *)
Definition zeroed_Certificate : Certificate :=
  {| type := CertType_None; size := 0;
     data := repeat x00 (Z.to_nat SIGNED_CERT_MAX_SIZE) |}.

(** [CertificateChain chain = {0}]. *)
Definition zeroed_CertificateChain : CertificateChain :=
  {| count := 0; certs := None |}.

(** The module's global and what it did to the outside. *)
Record world : Type := {
  g_esCertSaveCtx : option save_ctx_t;
  trace : list event;
}.

Definition emit (e : event) : C.M world unit :=
  C.modify (fun w => {| g_esCertSaveCtx := g_esCertSaveCtx w;
                        trace := trace w ++ [e] |}).

Definition LOGFILE (s : log_site) : C.M world unit := emit (EvLog s).

Definition set_ctx (c : option save_ctx_t) : C.M world unit :=
  C.modify (fun w => {| g_esCertSaveCtx := c; trace := trace w |}).

Definition get_ctx : C.M world (option save_ctx_t) :=
  w <- C.get ;; C.ret (g_esCertSaveCtx w).

Definition certOpenEsCertSaveFile : C.M world bool :=
  g <- get_ctx ;;
  match g with
  | Some _ => C.ret true
  | None =>
      emit EvSaveOpen ;;;
      match save_open_savefile CERT_SAVEFILE_PATH 0 with
      | None => LOGFILE Log_OpenSavefileFailed ;;; C.ret false
      | Some c => set_ctx (Some c) ;;; C.ret true
      end
  end.

Definition certCloseEsCertSaveFile : C.M world unit :=
  g <- get_ctx ;;
  match g with
  | None => C.ret tt
  | Some _ => emit EvSaveClose ;;; set_ctx None
  end.

(** The token pasting of [CERT_TYPE(sig)]. *)
Inductive sig_name : Set := Rsa4096 | Rsa2048 | Ecc480 | Hmac160.

Definition CertType_Sig_PubKeyRsa4096 (s : sig_name) : CertType :=
  match s with
  | Rsa4096 => CertType_SigRsa4096_PubKeyRsa4096
  | Rsa2048 => CertType_SigRsa2048_PubKeyRsa4096
  | Ecc480 => CertType_SigEcc480_PubKeyRsa4096
  | Hmac160 => CertType_SigHmac160_PubKeyRsa4096
  end.

Definition CertType_Sig_PubKeyRsa2048 (s : sig_name) : CertType :=
  match s with
  | Rsa4096 => CertType_SigRsa4096_PubKeyRsa2048
  | Rsa2048 => CertType_SigRsa2048_PubKeyRsa2048
  | Ecc480 => CertType_SigEcc480_PubKeyRsa2048
  | Hmac160 => CertType_SigHmac160_PubKeyRsa2048
  end.

Definition CertType_Sig_PubKeyEcc480 (s : sig_name) : CertType :=
  match s with
  | Rsa4096 => CertType_SigRsa4096_PubKeyEcc480
  | Rsa2048 => CertType_SigRsa2048_PubKeyEcc480
  | Ecc480 => CertType_SigEcc480_PubKeyEcc480
  | Hmac160 => CertType_SigHmac160_PubKeyEcc480
  end.

Definition CERT_TYPE (s : sig_name) (pub_key_type : Z) : CertType :=
  if pub_key_type =? CertPubKeyType_Rsa4096 then CertType_Sig_PubKeyRsa4096 s
  else if pub_key_type =? CertPubKeyType_Rsa2048 then CertType_Sig_PubKeyRsa2048 s
  else CertType_Sig_PubKeyEcc480 s.

(** The [switch] on [sig_type]: the case it selects, if any. *)
Definition sig_case (sig_type : Z) : option sig_name :=
  if (sig_type =? SignatureType_Rsa4096Sha1)
     || (sig_type =? SignatureType_Rsa4096Sha256) then Some Rsa4096
  else if (sig_type =? SignatureType_Rsa2048Sha1)
          || (sig_type =? SignatureType_Rsa2048Sha256) then Some Rsa2048
  else if (sig_type =? SignatureType_Ecc480Sha1)
          || (sig_type =? SignatureType_Ecc480Sha256) then Some Ecc480
  else if sig_type =? SignatureType_Hmac160Sha1 then Some Hmac160
  else None.

Definition certGetCertificateType (data : option (list byte)) (data_size : Z)
  : C.M world CertType :=
  match data with
  | None => LOGFILE Log_InvalidParameters ;;; C.ret CertType_None
  | Some buf =>
      if (data_size <? SIGNED_CERT_MIN_SIZE) || (data_size >? SIGNED_CERT_MAX_SIZE)
      then LOGFILE Log_InvalidParameters ;;; C.ret CertType_None
      else
        match certGetCommonBlock buf with
        | None => LOGFILE Log_NotASignedCertificate ;;; C.ret CertType_None
        | Some cert_common_block =>
            let signed_cert_size := certGetSignedCertificateSize buf in
            if (signed_cert_size =? 0) || (signed_cert_size >? data_size)
            then LOGFILE Log_NotASignedCertificate ;;; C.ret CertType_None
            else
              let sig_type := signatureGetSigType buf true in
              let pub_key_type := U.bswap32 (pub_key_type cert_common_block) in
              C.ret (match sig_case sig_type with
                     | Some s => CERT_TYPE s pub_key_type
                     | None => CertType_None
                     end)
        end
  end.

(** [memcpy]-like store of [src] at the start of the array [dst]. *)
Definition store_prefix (src dst : list byte) : list byte :=
  firstn (List.length dst) (src ++ skipn (List.length src) dst).

Definition _certRetrieveCertificateByName (dst : option Certificate) (name : string)
  : C.M world (bool * option Certificate) :=
  g <- get_ctx ;;
  match g with
  | None => LOGFILE Log_SavefileNotOpened ;;; C.ret (false, dst)
  | Some ctx =>
      let cert_path :=
        snprintf_store SAVE_FS_LIST_MAX_NAME_LENGTH
          (CERT_SAVEFILE_STORAGE_BASE_PATH ++ c_str name)%string in
      emit (EvLookup cert_path) ;;;
      match save_get_fat_storage_from_file_entry_by_path ctx cert_path with
      | None => LOGFILE Log_LocateCertificateFailed ;;; C.ret (false, dst)
      | Some (fat_storage, cert_size) =>
          if (cert_size <? SIGNED_CERT_MIN_SIZE) || (cert_size >? SIGNED_CERT_MAX_SIZE)
          then LOGFILE Log_InvalidCertificateSize ;;; C.ret (false, dst)
          else
            (* the first store through [dst] *)
            d <- C.lift dst ;;
            emit (EvRead cert_size) ;;;
            let bytes := save_allocation_table_storage_read fat_storage 0 cert_size in
            let br := Z.of_nat (List.length bytes) in
            let d1 := {| type := type d; size := cert_size;
                         data := store_prefix bytes (data d) |} in
            if negb (br =? size d1)
            then LOGFILE Log_ShortCertificateRead ;;; C.ret (false, Some d1)
            else
              t <- certGetCertificateType (Some (data d1)) (size d1) ;;
              let d2 := {| type := t; size := size d1; data := data d1 |} in
              if CertType_eqb t CertType_None
              then LOGFILE Log_InvalidCertificateType ;;; C.ret (false, Some d2)
              else C.ret (true, Some d2)
      end
  end.

Definition certRetrieveCertificateByName (dst : option Certificate)
  (name : option string) : C.M world (bool * option Certificate) :=
  emit EvMutexLock ;;;
  r <- match dst, name with
       | Some _, Some nm =>
           if strlen nm =? 0
           then LOGFILE Log_InvalidParameters ;;; C.ret (false, dst)
           else
             opened <- certOpenEsCertSaveFile ;;
             if negb opened then C.ret (false, dst)
             else
               r <- _certRetrieveCertificateByName dst nm ;;
               certCloseEsCertSaveFile ;;;
               C.ret r
       | _, _ => LOGFILE Log_InvalidParameters ;;; C.ret (false, dst)
       end ;;
  emit EvMutexUnlock ;;;
  C.ret r.

(** The loop of [certGetCertificateCountInSignatureIssuer]:
    [count++] once per token. *)
Fixpoint count_loop (tokens : list string) (count : Z) : Z :=
  match tokens with
  | [] => count
  | _ :: rest => count_loop rest (U.add32 count 1)
  end.

(** [None] where the behaviour is undefined: [issuer + 5] beyond the end of
    the string, or a conversion in what is passed as the format. *)
Definition certGetCertificateCountInSignatureIssuer (issuer : option string)
  : option Z :=
  match issuer with
  | None => Some 0
  | Some iss =>
      if strlen iss =? 0 then Some 0
      else
        match ptr_add iss 5 with
        | None => None
        | Some rest =>
            match snprintf_fmt 64 rest with
            | None => None
            | Some issuer_copy => Some (count_loop (strtok_loop "-"%char issuer_copy) 0)
            end
        end
  end.

(** Modelled from the spec: [certFreeCertificateChain] is an inline function
    of cert.h, which is not among the sources; by the spec the entire chain
    (all slots filled so far) is released. The slots are one [calloc]ed
    array, so the array is freed and the chain is left empty. *)
Definition certFreeCertificateChain (chain : CertificateChain) : CertificateChain :=
  match certs chain with
  | None => chain
  | Some _ => {| count := 0; certs := None |}
  end.

Fixpoint set_nth {A} (n : nat) (x : A) (l : list A) : list A :=
  match n, l with
  | _, [] => []
  | O, _ :: t => x :: t
  | S n', h :: t => h :: set_nth n' x t
  end.

(** The [while (pch != NULL)] loop of
    [_certRetrieveCertificateChainBySignatureIssuer] over the tokens that
    are left, with the loop variable [i] and the array [dst->certs]. The
    result is [success] and the array. *)
Fixpoint retrieve_loop (tokens : list string) (i : Z) (slots : list Certificate)
  : C.M world (bool * list Certificate) :=
  match tokens with
  | [] => C.ret (true, slots)
  | pch :: rest =>
      '(ok, slot) <- _certRetrieveCertificateByName (nth_error slots (Z.to_nat i)) pch ;;
      let slots' := match slot with
                    | Some c => set_nth (Z.to_nat i) c slots
                    | None => slots
                    end in
      if negb ok
      then LOGFILE Log_RetrieveCertificateFailed ;;; C.ret (false, slots')
      else retrieve_loop rest (U.add32 i 1) slots'
  end.

Definition _certRetrieveCertificateChainBySignatureIssuer
  (dst : CertificateChain) (issuer : string)
  : C.M world (bool * CertificateChain) :=
  g <- get_ctx ;;
  match g with
  | None => LOGFILE Log_SavefileNotOpened ;;; C.ret (false, dst)
  | Some _ =>
      n <- C.lift (certGetCertificateCountInSignatureIssuer (Some issuer)) ;;
      let dst1 := {| count := n; certs := certs dst |} in
      if n =? 0
      then LOGFILE Log_InvalidIssuerString ;;; C.ret (false, dst1)
      else if negb (alloc_ok (AllocCertificates n))
      then LOGFILE Log_AllocChainFailed ;;;
           C.ret (false, {| count := n; certs := None |})
      else
        let slots := repeat zeroed_Certificate (Z.to_nat n) in
        rest <- C.lift (ptr_add issuer 5) ;;
        let issuer_copy := snprintf_s 64 rest in
        '(success, slots') <- retrieve_loop (strtok_loop "-"%char issuer_copy) 0 slots ;;
        let dst2 := {| count := n; certs := Some slots' |} in
        if negb success
        then C.ret (false, certFreeCertificateChain dst2)
        else C.ret (true, dst2)
  end.

(** [strcmp(issuer, "Root-") != 0] is part of the rejecting condition. *)
Definition certRetrieveCertificateChainBySignatureIssuer
  (dst : option CertificateChain) (issuer : option string)
  : C.M world (bool * option CertificateChain) :=
  emit EvMutexLock ;;;
  r <- match dst, issuer with
       | Some d, Some iss =>
           let issuer_len := strlen iss in
           if (issuer_len =? 0) || (issuer_len <=? 5)
              || negb (strcmp iss "Root-" =? 0)
           then LOGFILE Log_InvalidParameters ;;; C.ret (false, dst)
           else
             opened <- certOpenEsCertSaveFile ;;
             if negb opened then C.ret (false, dst)
             else
               '(ok, d') <- _certRetrieveCertificateChainBySignatureIssuer d iss ;;
               certCloseEsCertSaveFile ;;;
               C.ret (ok, Some d')
       | _, _ => LOGFILE Log_InvalidParameters ;;; C.ret (false, dst)
       end ;;
  emit EvMutexUnlock ;;;
  C.ret r.

(** The [for] loop of [certCalculateRawCertificateChainSize], from index [i]
    with [n] iterations left. *)
Fixpoint size_loop (slots : list Certificate) (i n : nat) (chain_size : Z)
  : option Z :=
  match n with
  | O => Some chain_size
  | S n' =>
      match nth_error slots i with
      | None => None
      | Some c => size_loop slots (S i) n' (U.add64 chain_size (size c))
      end
  end.

Definition certCalculateRawCertificateChainSize (chain : option CertificateChain)
  : option Z :=
  match chain with
  | None => Some 0
  | Some ch =>
      if count ch =? 0 then Some 0
      else match certs ch with
           | None => Some 0
           | Some slots => size_loop slots 0 (Z.to_nat (count ch)) 0
           end
  end.

(** [memcpy(dst + pos, src, n)]: undefined when it leaves either object. *)
Definition memcpy_at (dst : list byte) (pos : nat) (src : list byte) (n : Z)
  : option (list byte) :=
  if (n <? 0) || (Z.of_nat (List.length src) <? n)
     || (Z.of_nat (List.length dst) <? Z.of_nat pos + n)
  then None
  else Some (firstn pos dst ++ firstn (Z.to_nat n) src
             ++ skipn (pos + Z.to_nat n) dst).

(** The [for] loop of [certCopyCertificateChainDataToMemoryBuffer]; [pos] is
    how far [dst_u8] is from [dst]. *)
Fixpoint copy_loop (slots : list Certificate) (i n : nat) (pos : nat)
  (dst : list byte) : option (list byte) :=
  match n with
  | O => Some dst
  | S n' =>
      match nth_error slots i with
      | None => None
      | Some c =>
          match memcpy_at dst pos (data c) (size c) with
          | None => None
          | Some dst' => copy_loop slots (S i) n' (pos + Z.to_nat (size c)) dst'
          end
      end
  end.

Definition certCopyCertificateChainDataToMemoryBuffer (dst : list byte)
  (chain : option CertificateChain) : option (list byte) :=
  match chain with
  | None => Some dst
  | Some ch =>
      if count ch =? 0 then Some dst
      else match certs ch with
           | None => Some dst
           | Some slots => copy_loop slots 0 (Z.to_nat (count ch)) 0 dst
           end
  end.

(** [malloc(n)] once it is granted: [n] bytes of whatever was there. *)
Definition malloc (n : Z) : list byte :=
  firstn (Z.to_nat n) (malloc_garbage n ++ repeat x00 (Z.to_nat n)).

(** The rest of [certGenerateRawCertificateChainBySignatureIssuer] once the
    chain is retrieved: size, buffer, copy, [*out_size]. The result is the
    pointer returned ([None] for NULL, else the bytes of the object it
    points to) and what [*out_size] holds. *)
Definition serialize_retrieved_chain (chain : option CertificateChain)
  (out_size : option Z) : C.M world (option (list byte) * option Z) :=
  raw_chain_size <- C.lift (certCalculateRawCertificateChainSize chain) ;;
  if negb (alloc_ok (AllocRawChain raw_chain_size))
  then LOGFILE Log_AllocRawChainFailed ;;; C.ret (None, out_size)
  else
    raw_chain <- C.lift (certCopyCertificateChainDataToMemoryBuffer
                           (malloc raw_chain_size) chain) ;;
    C.ret (Some raw_chain, Some raw_chain_size).

Definition certGenerateRawCertificateChainBySignatureIssuer
  (issuer : option string) (out_size : option Z)
  : C.M world (option (list byte) * option Z) :=
  match issuer, out_size with
  | Some iss, Some _ =>
      if strlen iss =? 0
      then LOGFILE Log_InvalidParameters ;;; C.ret (None, out_size)
      else
        '(ok, chain) <- certRetrieveCertificateChainBySignatureIssuer
                          (Some zeroed_CertificateChain) issuer ;;
        if negb ok
        then LOGFILE Log_RetrieveChainFailed ;;; C.ret (None, out_size)
        else serialize_retrieved_chain chain out_size
  | _, _ => LOGFILE Log_InvalidParameters ;;; C.ret (None, out_size)
  end.

(** *** Vocabulary of the statements below *)

(** The world after one more log line. *)
Definition logged (w : world) (s : log_site) : world :=
  {| g_esCertSaveCtx := g_esCertSaveCtx w; trace := trace w ++ [EvLog s] |}.

(** The size check [certGetCertificateType] starts with. *)
Definition size_in_range (data_size : Z) : Prop :=
  SIGNED_CERT_MIN_SIZE <= data_size <= SIGNED_CERT_MAX_SIZE.

(** The tokens the loop of [_certRetrieveCertificateChainBySignatureIssuer]
    visits: those of its [issuer_copy]. *)
Definition retrieval_tokens (issuer : string) : option (list string) :=
  option_map (fun rest => strtok_loop "-"%char (snprintf_s 64 rest)) (ptr_add issuer 5).

(** The first 0x3F characters of what follows the five characters of the
    root prefix. *)
Definition truncated_remainder (issuer : string) : string :=
  take 63 (drop 5 (c_str issuer)).

(** No [%] in [s]. *)
Fixpoint percent_free (s : string) : bool :=
  match s with
  | EmptyString => true
  | String c r => negb (Ascii.eqb c "%"%char) && percent_free r
  end.

(** A slot whose [size] fits its [data] array. *)
Definition slot_wf (c : Certificate) : Prop :=
  List.length (data c) = Z.to_nat SIGNED_CERT_MAX_SIZE
  /\ 0 <= size c <= SIGNED_CERT_MAX_SIZE.

(** The bytes of a certificate: the first [size] bytes of its array. *)
Definition cert_bytes (c : Certificate) : list byte :=
  firstn (Z.to_nat (size c)) (data c).

(** The sum of the sizes, as a number. *)
Definition total_size (slots : list Certificate) : Z :=
  fold_right (fun c acc => size c + acc) 0 slots.

(** Cutting a buffer into consecutive segments of the given sizes. *)
Fixpoint split_sizes (sizes : list Z) (raw : list byte) : list (list byte) :=
  match sizes with
  | [] => []
  | n :: rest => firstn (Z.to_nat n) raw :: split_sizes rest (skipn (Z.to_nat n) raw)
  end.

End WithCollaborators.

End Cert.

(** ** pfs.c *)

Module Pfs.

Record NcaHierarchicalSha256LayerInfo : Type := {
  layer_offset : Z;
  layer_size : Z;
}.

(** The part of the section header pfs.c reads. *)
Record NcaFsHeader (HashInfo : Type) : Type := {
  fs_type : Z;
  hash_type : Z;
  hierarchical_sha256 : HashInfo;
}.
Arguments fs_type {HashInfo} _.
Arguments hash_type {HashInfo} _.
Arguments hierarchical_sha256 {HashInfo} _.

(** What pfs.c takes from nca.h: the section context, its enumerators and
    the two collaborator calls. *)
Class NcaSection : Type := {
  NcaFsSectionContext : Type;
  NcaHierarchicalSha256 : Type;
  hash_target_layer_info : NcaHierarchicalSha256 -> NcaHierarchicalSha256LayerInfo;
  section_type : NcaFsSectionContext -> Z;
  section_header : NcaFsSectionContext -> option (NcaFsHeader NcaHierarchicalSha256);
  section_size : NcaFsSectionContext -> Z;
  NcaFsSectionType_PartitionFs : Z;
  NcaFsType_PartitionFs : Z;
  NcaHashType_HierarchicalSha256 : Z;
  ncaValidateHierarchicalSha256Offsets : NcaHierarchicalSha256 -> Z -> bool;
  (** [ncaReadFsSection(ctx, out, read_size, offset)]: the result and the
      bytes the call has put at the start of [out]. *)
  ncaReadFsSection : NcaFsSectionContext -> Z -> Z -> bool * list byte;
}.

(** The fields of [PartitionFileSystemEntry] (pfs.h). *)
Record PartitionFileSystemEntry : Type := {
  entry_offset : Z;
  entry_size : Z;
  name_offset : Z;
}.

Inductive log_site : Set :=
| Log_InvalidParameters
| Log_InvalidHashBlock
| Log_ReadPartialHeaderFailed
| Log_InvalidMagic
| Log_InvalidEntryCount
| Log_AllocHeaderFailed
| Log_ReadFullHeaderFailed
| Log_ReadPartitionDataFailed
| Log_ReadEntryDataFailed.

Inductive event : Type :=
| EvLog (site : log_site)
| EvNcaRead (read_size offset : Z).

Section WithSection.

Context {nca : NcaSection}.

(** The fields of [PartitionFileSystemContext] (pfs.h) that pfs.c uses. *)
Record PartitionFileSystemContext : Type := {
  nca_fs_ctx : option NcaFsSectionContext;
  offset : Z;
  size : Z;
  is_exefs : bool;
  header_size : Z;
  header : option (list byte);
}.

(** What pfs.c takes from pfs.h. *)
Class PfsDecls : Type := {
  PFS0_MAGIC : Z;
  NPDM_META_MAGIC : Z;
  sizeof_PartitionFileSystemHeader : Z;
  sizeof_PartitionFileSystemEntry : Z;
  pfsGetEntryByName : PartitionFileSystemContext -> string -> option PartitionFileSystemEntry;
  calloc_ok : Z -> bool;
}.

Context {decls : PfsDecls}.

Definition world : Type := list event.

Definition emit (e : event) : C.M world unit := C.modify (fun t => t ++ [e]).

Definition LOGFILE (s : log_site) : C.M world unit := emit (EvLog s).

Definition store_prefix (src dst : list byte) : list byte :=
  firstn (List.length dst) (src ++ skipn (List.length src) dst).

(** A call of the collaborator's read with [out] pointing to an object
    holding [out]. *)
Definition read_section (ctx : NcaFsSectionContext) (out : list byte)
  (read_size offset : Z) : C.M world (bool * list byte) :=
  emit (EvNcaRead read_size offset) ;;;
  let '(ok, bytes) := ncaReadFsSection ctx read_size offset in
  C.ret (ok, store_prefix bytes out).

Definition pfsReadPartitionData (ctx : option PartitionFileSystemContext)
  (out : option (list byte)) (read_size offs : Z)
  : C.M world (bool * option (list byte)) :=
  match ctx, out with
  | Some c, Some o =>
      match nca_fs_ctx c with
      | None => LOGFILE Log_InvalidParameters ;;; C.ret (false, out)
      | Some n =>
          if (size c =? 0) || (read_size =? 0) || (offs >=? size c)
             || (U.add64 offs read_size >? size c)
          then LOGFILE Log_InvalidParameters ;;; C.ret (false, out)
          else
            '(ok, o') <- read_section n o read_size (U.add64 (offset c) offs) ;;
            if negb ok
            then LOGFILE Log_ReadPartitionDataFailed ;;; C.ret (false, Some o')
            else C.ret (true, Some o')
      end
  | _, _ => LOGFILE Log_InvalidParameters ;;; C.ret (false, out)
  end.

Definition pfsReadEntryData (ctx : option PartitionFileSystemContext)
  (fs_entry : option PartitionFileSystemEntry) (out : option (list byte))
  (read_size offs : Z) : C.M world (bool * option (list byte)) :=
  match ctx, fs_entry, out with
  | Some c, Some e, Some _ =>
      if (entry_offset e >=? size c) || (entry_size e =? 0)
         || (U.add64 (entry_offset e) (entry_size e) >? size c)
         || (read_size =? 0) || (offs >=? entry_size e)
         || (U.add64 offs read_size >? entry_size e)
      then LOGFILE Log_InvalidParameters ;;; C.ret (false, out)
      else
        '(ok, out') <- pfsReadPartitionData ctx out read_size
                         (U.add64 (U.add64 (header_size c) (entry_offset e)) offs) ;;
        if negb ok
        then LOGFILE Log_ReadEntryDataFailed ;;; C.ret (false, out')
        else C.ret (true, out')
  | _, _, _ => LOGFILE Log_InvalidParameters ;;; C.ret (false, out)
  end.

(** Modelled from the spec: [PartitionFileSystemHeader] is declared in pfs.h,
    which is not among the sources; the spec lists its fields as magic,
    entry_count and name_table_size, 32 bits each, in this order. *)
Record PartitionFileSystemHeader : Type := {
  magic : Z;
  entry_count : Z;
  name_table_size : Z;
}.

Definition decode_PartitionFileSystemHeader (bs : list byte) : PartitionFileSystemHeader :=
  {| magic := U.load_le32 bs;
     entry_count := U.load_le32 (skipn 4 bs);
     name_table_size := U.load_le32 (skipn 8 bs) |}.

(** Modelled from the spec: [pfsFreeContext] is an inline function of pfs.h,
    which is not among the sources; by the spec the context is torn down and
    its header buffer freed. *)
Definition pfsFreeContext (ctx : PartitionFileSystemContext) : PartitionFileSystemContext :=
  {| nca_fs_ctx := None; offset := 0; size := 0; is_exefs := false;
     header_size := 0; header := None |}.

Definition le32_bytes (x : Z) : list byte :=
  map (fun k => match Byte.of_N (Z.to_N (Z.land (Z.shiftr x (8 * k)) 255)) with
                | Some b => b
                | None => x00
                end) [0; 1; 2; 3].

(** The last statement before [return true]: the ExeFS check. The [u32 magic]
    still holds the byte-swapped PFS0 magic when it is passed as [out]. *)
Definition pfs_exefs_check (ctx : PartitionFileSystemContext) (magic : Z)
  : C.M world PartitionFileSystemContext :=
  match pfsGetEntryByName ctx "main.npdm" with
  | None => C.ret ctx
  | Some main_npdm_entry =>
      '(ok, out') <- pfsReadEntryData (Some ctx) (Some main_npdm_entry)
                       (Some (le32_bytes magic)) 4 0 ;;
      let magic' := match out' with
                    | Some bs => U.load_le32 bs
                    | None => magic
                    end in
      if ok && (U.bswap32 magic' =? NPDM_META_MAGIC)
      then C.ret {| nca_fs_ctx := nca_fs_ctx ctx; offset := offset ctx;
                    size := size ctx; is_exefs := true;
                    header_size := header_size ctx; header := header ctx |}
      else C.ret ctx
  end.

Definition pfsInitializeContext (out : option PartitionFileSystemContext)
  (nca_ctx : option NcaFsSectionContext)
  : C.M world (bool * option PartitionFileSystemContext) :=
  match out, nca_ctx with
  | Some _, Some n =>
      match section_header n with
      | Some h =>
          if negb (section_type n =? NcaFsSectionType_PartitionFs)
             || negb (fs_type h =? NcaFsType_PartitionFs)
             || negb (hash_type h =? NcaHashType_HierarchicalSha256)
          then LOGFILE Log_InvalidParameters ;;; C.ret (false, out)
          else
            let c0 := {| nca_fs_ctx := Some n; offset := 0; size := 0;
                         is_exefs := false; header_size := 0; header := None |} in
            if negb (ncaValidateHierarchicalSha256Offsets (hierarchical_sha256 h)
                       (section_size n))
            then LOGFILE Log_InvalidHashBlock ;;; C.ret (false, Some c0)
            else
              let info := hash_target_layer_info (hierarchical_sha256 h) in
              let c1 := {| nca_fs_ctx := Some n; offset := layer_offset info;
                           size := layer_size info; is_exefs := false;
                           header_size := 0; header := None |} in
              '(ok, raw) <- read_section n
                              (repeat x00 (Z.to_nat sizeof_PartitionFileSystemHeader))
                              sizeof_PartitionFileSystemHeader (offset c1) ;;
              if negb ok
              then LOGFILE Log_ReadPartialHeaderFailed ;;; C.ret (false, Some c1)
              else
                let pfs_header := decode_PartitionFileSystemHeader raw in
                let magic := U.bswap32 (magic pfs_header) in
                if negb (magic =? PFS0_MAGIC)
                then LOGFILE Log_InvalidMagic ;;; C.ret (false, Some c1)
                else if (entry_count pfs_header =? 0) || (name_table_size pfs_header =? 0)
                then LOGFILE Log_InvalidEntryCount ;;; C.ret (false, Some c1)
                else
                  let hs := U.add64
                              (U.add64 sizeof_PartitionFileSystemHeader
                                 (U.mul64 (entry_count pfs_header)
                                    sizeof_PartitionFileSystemEntry))
                              (name_table_size pfs_header) in
                  let c2 := {| nca_fs_ctx := Some n; offset := offset c1;
                               size := size c1; is_exefs := false;
                               header_size := hs; header := None |} in
                  if negb (calloc_ok hs)
                  then LOGFILE Log_AllocHeaderFailed ;;; C.ret (false, Some c2)
                  else
                    '(ok2, full) <- read_section n (repeat x00 (Z.to_nat hs)) hs (offset c2) ;;
                    let c3 := {| nca_fs_ctx := Some n; offset := offset c1;
                                 size := size c1; is_exefs := false;
                                 header_size := hs; header := Some full |} in
                    if negb ok2
                    then LOGFILE Log_ReadFullHeaderFailed ;;;
                         C.ret (false, Some (pfsFreeContext c3))
                    else
                      c4 <- pfs_exefs_check c3 magic ;;
                      C.ret (true, Some c4)
      | None => LOGFILE Log_InvalidParameters ;;; C.ret (false, out)
      end
  | _, _ => LOGFILE Log_InvalidParameters ;;; C.ret (false, out)
  end.

(** *** Vocabulary of the statements below *)

(** The offset [pfsReadEntryData] hands to [pfsReadPartitionData]. *)
Definition shifted_offset (c : PartitionFileSystemContext)
  (e : PartitionFileSystemEntry) (offs : Z) : Z :=
  U.add64 (U.add64 (header_size c) (entry_offset e)) offs.

(** A call that fails on its parameters: it returns false, leaves [out] as it
    was and adds to the trace the log line of the check that rejected,
    followed by log lines only. No collaborator read is among them. *)
Definition invalid_argument (t : world) (out : option (list byte))
  (r : option (bool * option (list byte) * world)) : Prop :=
  exists sites,
    r = Some ((false, out), t ++ EvLog Log_InvalidParameters :: map EvLog sites).

(** The context as it is when the ExeFS check runs. *)
Definition before_exefs_check (c : PartitionFileSystemContext)
  : PartitionFileSystemContext :=
  {| nca_fs_ctx := nca_fs_ctx c; offset := offset c; size := size c;
     is_exefs := false; header_size := header_size c; header := header c |}.

(** The first [n] bytes of an entry, as [pfsReadEntryData] delivers them
    into a buffer that held [init]. *)
Definition entry_head (c : PartitionFileSystemContext)
  (e : PartitionFileSystemEntry) (n : Z) (init : list byte) : option (list byte) :=
  match pfsReadEntryData (Some c) (Some e) (Some init) n 0 [] with
  | Some ((true, Some bytes), _) => Some bytes
  | _ => None
  end.


End WithSection.


End Pfs.

(** ** Concrete collaborators

    Instances of the interfaces above on which the functions can be run: a
    certificate store kept as a list of files, signed certificates in the
    console's layout, and a section kept as a byte image. *)

Module Fixture.

Definition byte_of_Z (x : Z) : byte :=
  match Byte.of_N (Z.to_N (Z.land x 255)) with
  | Some b => b
  | None => x00
  end.

Definition be32_bytes (x : Z) : list byte :=
  map (fun k => byte_of_Z (Z.shiftr x (8 * k))) [3; 2; 1; 0].

Definition le32_bytes (x : Z) : list byte :=
  map (fun k => byte_of_Z (Z.shiftr x (8 * k))) [0; 1; 2; 3].

Definition le64_bytes (x : Z) : list byte :=
  map (fun k => byte_of_Z (Z.shiftr x (8 * k))) [0; 1; 2; 3; 4; 5; 6; 7].

Definition zeros (n : Z) : list byte := repeat x00 (Z.to_nat n).

(** *** Signed certificates *)

(** Modelled from the spec: the accessors of cert.h and signature.h are not
    among the sources. By the spec the signature type and the public key
    type are big-endian 32-bit fields, the common block follows the
    signature block, and the size of a signed certificate is fixed by its
    signature and public key families. The numbers are those of the
    console's certificate format. *)
Definition signature_block_size (sig_type : Z) : Z :=
  if (sig_type =? 0x10000) || (sig_type =? 0x10003) then 0x240
  else if (sig_type =? 0x10001) || (sig_type =? 0x10004) then 0x140
  else if (sig_type =? 0x10002) || (sig_type =? 0x10005) then 0x80
  else if sig_type =? 0x10006 then 0x40
  else 0.

Definition public_key_block_size (pub_key_type : Z) : Z :=
  if pub_key_type =? 0 then 0x238
  else if pub_key_type =? 1 then 0x138
  else if pub_key_type =? 2 then 0x78
  else 0.

Definition sizeof_CertCommonBlock : Z := 0x88.

Definition ref_signatureGetSigType (buf : list byte) (big_endian : bool) : Z :=
  let v := U.load_le32 buf in
  if big_endian then U.bswap32 v else v.

Definition ref_certGetCommonBlock (buf : list byte) : option Cert.CertCommonBlock :=
  let n := signature_block_size (ref_signatureGetSigType buf true) in
  if n =? 0 then None
  else Some {| Cert.pub_key_type := U.load_le32 (skipn (Z.to_nat (n + 0x40)) buf) |}.

Definition ref_certGetSignedCertificateSize (buf : list byte) : Z :=
  match ref_certGetCommonBlock buf with
  | None => 0
  | Some cb =>
      let k := public_key_block_size (U.bswap32 (Cert.pub_key_type cb)) in
      if k =? 0 then 0
      else signature_block_size (ref_signatureGetSigType buf true)
           + sizeof_CertCommonBlock + k
  end.

#[refine] Instance console_decls : Cert.CertDecls := {|
  Cert.SIGNED_CERT_MIN_SIZE := 0x140;
  Cert.SIGNED_CERT_MAX_SIZE := 0x500;
  Cert.CertPubKeyType_Rsa4096 := 0;
  Cert.CertPubKeyType_Rsa2048 := 1;
  Cert.SignatureType_Rsa4096Sha1 := 0x10000;
  Cert.SignatureType_Rsa2048Sha1 := 0x10001;
  Cert.SignatureType_Ecc480Sha1 := 0x10002;
  Cert.SignatureType_Rsa4096Sha256 := 0x10003;
  Cert.SignatureType_Rsa2048Sha256 := 0x10004;
  Cert.SignatureType_Ecc480Sha256 := 0x10005;
  Cert.SignatureType_Hmac160Sha1 := 0x10006;
  Cert.certGetCommonBlock := ref_certGetCommonBlock;
  Cert.certGetSignedCertificateSize := ref_certGetSignedCertificateSize;
  Cert.signatureGetSigType := ref_signatureGetSigType;
|}.
Proof. split; [discriminate | reflexivity]. Defined.

(** A signed certificate with the given signature and public key types;
    the signature and the key are filled with [fill]. *)
Definition mk_cert (sig_type pub_key_type : Z) (fill : byte) : list byte :=
  be32_bytes sig_type
  ++ repeat fill (Z.to_nat (signature_block_size sig_type - 4))
  ++ zeros 0x40 ++ be32_bytes pub_key_type ++ zeros 0x44
  ++ repeat fill (Z.to_nat (public_key_block_size pub_key_type)).

(** *** The certificate store *)

Fixpoint find_file (files : list (string * list byte)) (path : string)
  : option (list byte) :=
  match files with
  | [] => None
  | (p, bytes) :: rest => if String.eqb p path then Some bytes else find_file rest path
  end.

Definition store_of (files : list (string * list byte)) : Cert.SaveStore := {|
  Cert.save_ctx_t := list (string * list byte);
  Cert.allocation_table_storage_ctx_t := list byte;
  Cert.CERT_SAVEFILE_PATH := "sys:/save/80000000000000e0";
  Cert.SAVE_FS_LIST_MAX_NAME_LENGTH := 0x40;
  Cert.save_open_savefile := fun _ _ => Some files;
  Cert.save_get_fat_storage_from_file_entry_by_path := fun ctx path =>
    match find_file ctx path with
    | Some bytes => Some (bytes, Z.of_nat (List.length bytes))
    | None => None
    end;
  Cert.save_allocation_table_storage_read := fun bytes offs n =>
    firstn (Z.to_nat n) (skipn (Z.to_nat offs) bytes);
|}.

Definition generous : Cert.Allocator := {|
  Cert.alloc_ok := fun _ => true;
  Cert.malloc_garbage := fun _ => [];
|}.

Definition cert_CA00000003 : list byte := mk_cert 0x10003 1 xca.
Definition cert_XS00000020 : list byte := mk_cert 0x10004 1 x20.

Definition es_files : list (string * list byte) :=
  [ ("/certificate/CA00000003", cert_CA00000003);
    ("/certificate/XS00000020", cert_XS00000020) ].

(** *** A partition FS section *)

Record section : Type := {
  s_type : Z;
  s_header : option (Pfs.NcaFsHeader Pfs.NcaHierarchicalSha256LayerInfo);
  s_image : list byte;
}.

Definition image_section : Pfs.NcaSection := {|
  Pfs.NcaFsSectionContext := section;
  Pfs.NcaHierarchicalSha256 := Pfs.NcaHierarchicalSha256LayerInfo;
  Pfs.hash_target_layer_info := fun i => i;
  Pfs.section_type := s_type;
  Pfs.section_header := s_header;
  Pfs.section_size := fun s => Z.of_nat (List.length (s_image s));
  Pfs.NcaFsSectionType_PartitionFs := 0;
  Pfs.NcaFsType_PartitionFs := 1;
  Pfs.NcaHashType_HierarchicalSha256 := 2;
  Pfs.ncaValidateHierarchicalSha256Offsets := fun i sz =>
    (0 <=? Pfs.layer_offset i) && (0 <? Pfs.layer_size i)
    && (Pfs.layer_offset i + Pfs.layer_size i <=? sz);
  Pfs.ncaReadFsSection := fun s read_size offs =>
    if (0 <=? offs) && (0 <=? read_size)
       && (offs + read_size <=? Z.of_nat (List.length (s_image s)))
    then (true, firstn (Z.to_nat read_size) (skipn (Z.to_nat offs) (s_image s)))
    else (false, []);
|}.

Fixpoint c_string_at (bs : list byte) : string :=
  match bs with
  | [] => EmptyString
  | b :: rest =>
      if Byte.eqb b x00 then EmptyString
      else String (ascii_of_byte b) (c_string_at rest)
  end.

Definition decode_entry (bs : list byte) : Pfs.PartitionFileSystemEntry :=
  {| Pfs.entry_offset := U.load_le64 bs;
     Pfs.entry_size := U.load_le64 (skipn 8 bs);
     Pfs.name_offset := U.load_le32 (skipn 16 bs) |}.

Fixpoint scan_entries (hdr names : list byte) (name : string) (i n : nat)
  : option Pfs.PartitionFileSystemEntry :=
  match n with
  | O => None
  | S n' =>
      let e := decode_entry (skipn (16 + 24 * i) hdr) in
      if String.eqb (c_string_at (skipn (Z.to_nat (Pfs.name_offset e)) names)) name
      then Some e
      else scan_entries hdr names name (S i) n'
  end.

(** Modelled from the spec: [pfsGetEntryByName] is an inline function of
    pfs.h, which is not among the sources. By the spec it scans the entries,
    resolves each name by a null-terminated lookup into the name table at
    [name_offset], and returns the first match or none. *)
Definition ref_pfsGetEntryByName (ctx : Pfs.PartitionFileSystemContext (nca := image_section))
  (name : string) : option Pfs.PartitionFileSystemEntry :=
  match Pfs.header ctx with
  | None => None
  | Some hdr =>
      let n := Z.to_nat (U.load_le32 (skipn 4 hdr)) in
      scan_entries hdr (skipn (16 + 24 * n) hdr) name 0 n
  end.

Definition image_decls : Pfs.PfsDecls (nca := image_section) := {|
  Pfs.PFS0_MAGIC := 0x50465330;
  Pfs.NPDM_META_MAGIC := 0x4D455441;
  Pfs.sizeof_PartitionFileSystemHeader := 0x10;
  Pfs.sizeof_PartitionFileSystemEntry := 0x18;
  Pfs.pfsGetEntryByName := ref_pfsGetEntryByName;
  Pfs.calloc_ok := fun _ => true;
|}.

(** A partition FS with the single file [name] holding [content]. *)
Definition mk_pfs (name : string) (content : list byte) : list byte :=
  list_byte_of_string "PFS0" ++ le32_bytes 1 ++ le32_bytes 16 ++ zeros 4
  ++ le64_bytes 0 ++ le64_bytes (Z.of_nat (List.length content))
  ++ le32_bytes 0 ++ zeros 4
  ++ firstn 16 (list_byte_of_string name ++ zeros 16)
  ++ content.

Definition mk_section (image : list byte) : section :=
  {| s_type := 0;
     s_header := Some {| Pfs.fs_type := 1; Pfs.hash_type := 2;
                         Pfs.hierarchical_sha256 :=
                           {| Pfs.layer_offset := 0;
                              Pfs.layer_size := Z.of_nat (List.length image) |} |};
     s_image := image |}.

Definition blank_context : Pfs.PartitionFileSystemContext (nca := image_section) :=
  {| Pfs.nca_fs_ctx := None; Pfs.offset := 0; Pfs.size := 0;
     Pfs.is_exefs := false; Pfs.header_size := 0; Pfs.header := None |}.

(** An HMAC-160 signed certificate, and the same bytes with another value
    in the [pub_key_type] field (at 0x80, after the 0x40 bytes of signature
    block and the 0x40 bytes of issuer). *)
Definition cert_hmac160 : list byte := mk_cert 0x10006 0 x5a.

Definition with_pub_key_type (buf : list byte) (pub_key_type : Z) : list byte :=
  firstn 0x80 buf ++ be32_bytes pub_key_type ++ skipn 0x84 buf.

Definition closed_world (files : list (string * list byte))
  : Cert.world (store := store_of files) :=
  {| Cert.g_esCertSaveCtx := None; Cert.trace := [] |}.

Definition open_world (files : list (string * list byte))
  : Cert.world (store := store_of files) :=
  {| Cert.g_esCertSaveCtx := Some (files : Cert.save_ctx_t (SaveStore := store_of files));
     Cert.trace := [] |}.

Fixpoint replicate (n : nat) (s : string) : string :=
  match n with
  | O => EmptyString
  | S n' => (s ++ replicate n' s)%string
  end.

(** An issuer whose remainder is 31 times [%%] followed by [A-B]: 65
    characters, of which the counting pass, taking them as a format, makes
    the 34 characters of 31 times [%] and [A-B]. *)
Definition percent_issuer : string :=
  ("Root-" ++ replicate 31 "%%" ++ "A-B")%string.

(** A store holding one certificate under the name the retrieval pass asks
    for with [percent_issuer]: the base path and 50 times [%], which is
    where the lookup path is cut. *)
Definition percent_files : list (string * list byte) :=
  [ (("/certificate/" ++ replicate 50 "%")%string, cert_XS00000020) ].

Definition abc_files : list (string * list byte) :=
  [ ("/certificate/A", cert_CA00000003);
    ("/certificate/B", cert_XS00000020);
    ("/certificate/C", cert_hmac160) ].

(** The section of a partition FS whose only file is [main.npdm], eight
    bytes that start with META: 64 bytes, of which 0x38 are header. *)
Definition npdm_section : section :=
  mk_section (mk_pfs "main.npdm" (list_byte_of_string "META1234")).

(** A context on [npdm_section] with the given region and header sizes. *)
Definition region_context (size header_size : Z)
  : Pfs.PartitionFileSystemContext (nca := image_section) :=
  {| Pfs.nca_fs_ctx := Some (npdm_section : @Pfs.NcaFsSectionContext image_section);
     Pfs.offset := 0; Pfs.size := size;
     Pfs.is_exefs := false; Pfs.header_size := header_size; Pfs.header := None |}.

End Fixture.

(** ** pfs.c: patches *)

Module PfsPatch.

Import Pfs.

(** The patch collaborator of nca.h: the result of
    [ncaGenerateHierarchicalSha256Patch(ctx, data, data_size, data_offset, out)]
    and what it leaves in [*out]. *)
Class NcaPatcher {nca : NcaSection} : Type := {
  NcaHierarchicalSha256Patch : Type;
  ncaGenerateHierarchicalSha256Patch :
    NcaFsSectionContext -> list byte -> Z -> Z -> NcaHierarchicalSha256Patch ->
    bool * NcaHierarchicalSha256Patch;
}.

Inductive log_site : Set :=
| Log_InvalidParameters
| Log_GeneratePatchFailed.

Inductive event : Type :=
| EvLog (site : log_site)
| EvNcaPatch (data_size partition_offset : Z).

Section WithPatcher.

Context {nca : NcaSection} {patcher : NcaPatcher}.

Definition world : Type := list event.

Definition emit (e : event) : C.M world unit := C.modify (fun t => t ++ [e]).

Definition LOGFILE (s : log_site) : C.M world unit := emit (EvLog s).

Definition pfsGenerateEntryPatch (ctx : option PartitionFileSystemContext)
  (fs_entry : option PartitionFileSystemEntry) (data : option (list byte))
  (data_size data_offset : Z) (out : option NcaHierarchicalSha256Patch)
  : C.M world (bool * option NcaHierarchicalSha256Patch) :=
  match ctx, fs_entry, data, out with
  | Some c, Some e, Some d, Some o =>
      match nca_fs_ctx c, header c with
      | Some n, Some _ =>
          if (header_size c =? 0) || (entry_offset e >=? size c)
             || (entry_size e =? 0)
             || (U.add64 (entry_offset e) (entry_size e) >? size c)
             || (data_size =? 0) || (data_offset >=? entry_size e)
             || (U.add64 data_offset data_size >? entry_size e)
          then LOGFILE Log_InvalidParameters ;;; C.ret (false, out)
          else
            let partition_offset :=
              U.add64 (U.add64 (header_size c) (entry_offset e)) data_offset in
            emit (EvNcaPatch data_size partition_offset) ;;;
            let '(ok, o') :=
              ncaGenerateHierarchicalSha256Patch n d data_size partition_offset o in
            if negb ok
            then LOGFILE Log_GeneratePatchFailed ;;; C.ret (false, Some o')
            else C.ret (true, Some o')
      | _, _ => LOGFILE Log_InvalidParameters ;;; C.ret (false, out)
      end
  | _, _, _, _ => LOGFILE Log_InvalidParameters ;;; C.ret (false, out)
  end.

End WithPatcher.

End PfsPatch.

(** ** cert.c: the chain kept on the gamecard *)

Module GameCardCert.

Import CStr.

(** [FsRightsId]: sixteen bytes. *)
Record FsRightsId : Type := { c : list byte }.

(** What [certRetrieveRawCertificateChainFromGameCardByRightsId] takes from
    utils.h and gamecard.h. The partition is always the secure one. *)
Class GameCard : Type := {
  (** What [utilsGenerateHexStringFromData(dst, dst_size, src, src_size)]
      leaves in the zeroed array [dst]. *)
  utilsGenerateHexStringFromData : Z -> list byte -> Z -> string;
  gamecardGetEntryInfoFromHashFileSystemPartitionByName : string -> option (Z * Z);
  (** [gamecardReadStorage(out, read_size, offset)]: the result and the bytes
      put at the start of [out]. *)
  gamecardReadStorage : Z -> Z -> bool * list byte;
  malloc_ok : Z -> bool;
  malloc_garbage : Z -> list byte;
}.

Inductive log_site : Set :=
| Log_InvalidParameters
| Log_EntryInfoFailed
| Log_InvalidSize
| Log_ReadFailed.

Inductive event : Type :=
| EvLog (site : log_site)
| EvEntryInfo (name : string)
| EvMalloc (bytes : Z)
| EvFree
| EvGameCardRead (read_size offset : Z).

Section WithGameCard.

Context {decls : Cert.CertDecls} {gamecard : GameCard}.

Definition world : Type := list event.

Definition emit (e : event) : C.M world unit := C.modify (fun t => t ++ [e]).

Definition LOGFILE (s : log_site) : C.M world unit := emit (EvLog s).

(** [strcat(dst, src)] into an array of [size] characters: undefined when
    the result and its terminator do not fit. *)
Definition strcat (size : Z) (dst src : string) : option string :=
  let r := (c_str dst ++ c_str src)%string in
  if Z.of_nat (String.length r) + 1 <=? size then Some r else None.

Definition malloc (n : Z) : list byte :=
  firstn (Z.to_nat n) (malloc_garbage n ++ repeat x00 (Z.to_nat n)).

Definition store_prefix (src dst : list byte) : list byte :=
  firstn (List.length dst) (src ++ skipn (List.length src) dst).

(** The result is the pointer returned and what [*out_size] holds. On a
    failed [malloc] the code logs with a format of two conversions and one
    argument, which is not a [char *]: no defined behaviour. *)
Definition certRetrieveRawCertificateChainFromGameCardByRightsId
  (id : option FsRightsId) (out_size : option Z)
  : C.M world (option (list byte) * option Z) :=
  match id, out_size with
  | Some i, Some _ =>
      let hex := utilsGenerateHexStringFromData 0x30 (c i) 0x10 in
      raw_chain_filename <- C.lift (strcat 0x30 hex ".cert") ;;
      emit (EvEntryInfo raw_chain_filename) ;;;
      match gamecardGetEntryInfoFromHashFileSystemPartitionByName raw_chain_filename with
      | None => LOGFILE Log_EntryInfoFailed ;;; C.ret (None, out_size)
      | Some (raw_chain_offset, raw_chain_size) =>
          if raw_chain_size <? Cert.SIGNED_CERT_MIN_SIZE
          then LOGFILE Log_InvalidSize ;;; C.ret (None, out_size)
          else
            emit (EvMalloc raw_chain_size) ;;;
            if negb (malloc_ok raw_chain_size)
            then C.lift None
            else
              emit (EvGameCardRead raw_chain_size raw_chain_offset) ;;;
              let '(ok, bytes) := gamecardReadStorage raw_chain_size raw_chain_offset in
              if negb ok
              then LOGFILE Log_ReadFailed ;;; emit EvFree ;;; C.ret (None, out_size)
              else C.ret (Some (store_prefix bytes (malloc raw_chain_size)),
                          Some raw_chain_size)
      end
  | _, _ => LOGFILE Log_InvalidParameters ;;; C.ret (None, out_size)
  end.

End WithGameCard.

End GameCardCert.

(** ** Words for the statements about cert.c *)

Module CertWords.

Import CStr Cert.

Section Words.

Context {decls : CertDecls} {store : SaveStore}.

(** The path [_certRetrieveCertificateByName] looks [name] up under. *)
Definition lookup_path (name : string) : string :=
  snprintf_store SAVE_FS_LIST_MAX_NAME_LENGTH
    (CERT_SAVEFILE_STORAGE_BASE_PATH ++ c_str name)%string.

(** What the store delivers for [name]: the bytes of a read of the declared
    size at offset 0 of the file found under [lookup_path name]. *)
Definition stored_certificate (ctx : save_ctx_t) (name : string)
  : option (list byte) :=
  match save_get_fat_storage_from_file_entry_by_path ctx (lookup_path name) with
  | Some (fat, cert_size) => Some (save_allocation_table_storage_read fat 0 cert_size)
  | None => None
  end.

Definition is_mutex_event (e : event) : bool :=
  match e with
  | EvMutexLock | EvMutexUnlock => true
  | _ => false
  end.

(** [w'] is [w] after the events [evs]. *)
Definition after (w : world) (evs : list event) (w' : world) : Prop :=
  trace w' = trace w ++ evs.

(** Only the character [d] in [s]. *)
Fixpoint only_char (d : ascii) (s : string) : bool :=
  match s with
  | EmptyString => true
  | String c r => Ascii.eqb c d && only_char d r
  end.

End Words.

End CertWords.

(** ** Concrete patch and gamecard collaborators *)

Module MoreFixture.

Import Fixture.

(** A patch collaborator on [image_section]: the patch records the
    partition offset and the data it was asked for; a request beyond the
    image, or whose size is not that of the data, fails and leaves the
    patch as it was. *)
Definition recording_patcher : PfsPatch.NcaPatcher (nca := image_section) :=
  @PfsPatch.Build_NcaPatcher image_section (option (Z * list byte))
    (fun (s : section) d data_size offs o =>
       if (0 <=? offs) && (offs + data_size <=? Z.of_nat (List.length (s_image s)))
          && (data_size =? Z.of_nat (List.length d))
       then (true, Some (offs, d))
       else (false, o)).

Definition no_patch : @PfsPatch.NcaHierarchicalSha256Patch image_section recording_patcher :=
  None.

Definition recorded (offs : Z) (d : list byte)
  : @PfsPatch.NcaHierarchicalSha256Patch image_section recording_patcher :=
  Some (offs, d).

(** The context [pfsInitializeContext] builds on [npdm_section], before the
    ExeFS check: region of 64 bytes, of which the first 0x38 are header. *)
Definition npdm_context : Pfs.PartitionFileSystemContext (nca := image_section) :=
  {| Pfs.nca_fs_ctx := Some (npdm_section : @Pfs.NcaFsSectionContext image_section);
     Pfs.offset := 0; Pfs.size := 64;
     Pfs.is_exefs := false; Pfs.header_size := 0x38;
     Pfs.header := Some (firstn 0x38 (s_image npdm_section)) |}.

(** The entry of main.npdm in [npdm_section]. *)
Definition npdm_entry : Pfs.PartitionFileSystemEntry :=
  {| Pfs.entry_offset := 0; Pfs.entry_size := 8; Pfs.name_offset := 0 |}.

Definition hex_digit (n : Z) : ascii :=
  nth (Z.to_nat n) (list_ascii_of_string "0123456789abcdef") "0"%char.

Definition hex_of_bytes (bs : list byte) : string :=
  fold_right
    (fun b s => String (hex_digit (U.byte_val b / 16))
                  (String (hex_digit (U.byte_val b mod 16)) s))
    EmptyString bs.

Definition card_rights_id : GameCardCert.FsRightsId :=
  {| GameCardCert.c := map byte_of_Z [1; 0; 0; 0; 0; 0; 0xab; 0xcd; 0; 0; 0; 0; 0; 0; 0; 2] |}.

(** The gamecard image: sixteen bytes, then the raw chain of
    [cert_XS00000020] and [cert_CA00000003]. *)
Definition card_image : list byte :=
  zeros 16 ++ cert_XS00000020 ++ cert_CA00000003.

(** Modelled from the spec: [utilsGenerateHexStringFromData] of utils.h and
    the two functions of gamecard.h are not among the sources. By the spec
    the identifier is hex-encoded into the file name, the partition resolves
    a name to an offset and a size, and the read is a raw read at that
    offset. The secure partition here has the one entry of [card_rights_id]. *)
Definition card : GameCardCert.GameCard := {|
  GameCardCert.utilsGenerateHexStringFromData := fun _ src src_size =>
    hex_of_bytes (firstn (Z.to_nat src_size) src);
  GameCardCert.gamecardGetEntryInfoFromHashFileSystemPartitionByName := fun name =>
    if String.eqb name (hex_of_bytes (GameCardCert.c card_rights_id) ++ ".cert")%string
    then Some (16, 0x700) else None;
  GameCardCert.gamecardReadStorage := fun read_size offs =>
    if (0 <=? offs) && (offs + read_size <=? Z.of_nat (List.length card_image))
    then (true, firstn (Z.to_nat read_size) (skipn (Z.to_nat offs) card_image))
    else (false, []);
  GameCardCert.malloc_ok := fun _ => true;
  GameCardCert.malloc_garbage := fun _ => [];
|}.

End MoreFixture.

(** * Properties *)

(** ** Certificate classification *)

Module CertTypeFacts.

Import Cert.

Ltac run :=
  unfold C.bind, C.ret, C.lift, C.modify, C.get; simpl.

Section Classifier.

Context {decls : CertDecls} {store : SaveStore}.

(** The type is computed from the buffer alone; the world only gets a log
    line on the two rejecting paths. *)
Lemma certGetCertificateType_defined data data_size w :
  exists t w', certGetCertificateType data data_size w = Some (t, w').
Proof.
  unfold certGetCertificateType, LOGFILE, emit. run.
  destruct data as [buf|]; [|eauto].
  destruct (_ || _); [eauto|].
  destruct (certGetCommonBlock buf); [|eauto].
  destruct (_ || _); eauto.
Qed.

Lemma certGetCertificateType_accepts buf data_size cb w :
  size_in_range data_size ->
  certGetCommonBlock buf = Some cb ->
  certGetSignedCertificateSize buf <> 0 ->
  certGetSignedCertificateSize buf <= data_size ->
  certGetCertificateType (Some buf) data_size w =
  Some (match sig_case (signatureGetSigType buf true) with
        | Some s => CERT_TYPE s (U.bswap32 (pub_key_type cb))
        | None => CertType_None
        end, w).
Proof.
  intros [Hlo Hhi] Hcb Hnz Hle.
  unfold certGetCertificateType, LOGFILE, emit. run.
  replace (data_size <? SIGNED_CERT_MIN_SIZE) with false by (symmetry; apply Z.ltb_ge; lia).
  replace (data_size >? SIGNED_CERT_MAX_SIZE) with false
    by (symmetry; rewrite Z.gtb_ltb; apply Z.ltb_ge; lia).
  simpl. rewrite Hcb.
  replace (certGetSignedCertificateSize buf =? 0) with false
    by (symmetry; apply Z.eqb_neq; exact Hnz).
  replace (certGetSignedCertificateSize buf >? data_size) with false
    by (symmetry; rewrite Z.gtb_ltb; apply Z.ltb_ge; lia).
  reflexivity.
Qed.

(** C7. [certGetCertificateType] returns [CertType_None] for every buffer
    whose size is below [SIGNED_CERT_MIN_SIZE] or above
    [SIGNED_CERT_MAX_SIZE], for every buffer whose common block cannot be
    located, and for every buffer whose signed certificate size exceeds the
    buffer size. Nothing but a log line is added to the world. *)
Theorem certGetCertificateType_none buf data_size w :
  data_size < SIGNED_CERT_MIN_SIZE
  \/ data_size > SIGNED_CERT_MAX_SIZE
  \/ certGetCommonBlock buf = None
  \/ certGetSignedCertificateSize buf > data_size ->
  exists site,
    certGetCertificateType (Some buf) data_size w = Some (CertType_None, logged w site).
Proof.
  intros H.
  unfold certGetCertificateType, LOGFILE, emit, logged. run.
  destruct (data_size <? SIGNED_CERT_MIN_SIZE) eqn:Elo; simpl; [eauto|].
  destruct (data_size >? SIGNED_CERT_MAX_SIZE) eqn:Ehi; simpl; [eauto|].
  destruct (certGetCommonBlock buf) as [cb|] eqn:Ecb; [|eauto].
  destruct (certGetSignedCertificateSize buf =? 0) eqn:Ez; simpl; [eauto|].
  destruct (certGetSignedCertificateSize buf >? data_size) eqn:Egt; simpl; [eauto|].
  exfalso.
  apply Z.ltb_ge in Elo. rewrite Z.gtb_ltb in Ehi, Egt.
  apply Z.ltb_ge in Ehi. apply Z.ltb_ge in Egt.
  destruct H as [H|[H|[H|H]]]; try lia; discriminate.
Qed.

(** C2, as the code has it. For a buffer that passes the checks and whose
    signature type selects the HMAC-160 case, the tag is one of the three
    [SigHmac160] tags, chosen by the byte-swapped [pub_key_type] field:
    [PubKeyRsa4096] when it is [CertPubKeyType_Rsa4096], else [PubKeyRsa2048]
    when it is [CertPubKeyType_Rsa2048], else [PubKeyEcc480]. *)
Theorem certGetCertificateType_hmac160 buf data_size cb w :
  size_in_range data_size ->
  certGetCommonBlock buf = Some cb ->
  certGetSignedCertificateSize buf <> 0 ->
  certGetSignedCertificateSize buf <= data_size ->
  sig_case (signatureGetSigType buf true) = Some Hmac160 ->
  let pk := U.bswap32 (pub_key_type cb) in
  certGetCertificateType (Some buf) data_size w =
  Some (if pk =? CertPubKeyType_Rsa4096 then CertType_SigHmac160_PubKeyRsa4096
        else if pk =? CertPubKeyType_Rsa2048 then CertType_SigHmac160_PubKeyRsa2048
        else CertType_SigHmac160_PubKeyEcc480, w).
Proof.
  intros Hr Hcb Hnz Hle Hsig pk.
  rewrite (certGetCertificateType_accepts buf data_size cb w Hr Hcb Hnz Hle).
  rewrite Hsig. unfold CERT_TYPE. fold pk.
  destruct (pk =? CertPubKeyType_Rsa4096); [reflexivity|].
  destruct (pk =? CertPubKeyType_Rsa2048); reflexivity.
Qed.

End Classifier.

End CertTypeFacts.

(** ** Byte order *)

Module UFacts.

Lemma byte_val_range b : 0 <= U.byte_val b < 256.
Proof.
  unfold U.byte_val. pose proof (Byte.to_N_bounded b) as H. lia.
Qed.

Lemma land_shiftl_small a b k :
  0 <= k -> 0 <= b < 2 ^ k -> Z.land (Z.shiftl a k) b = 0.
Proof.
  intros Hk Hb. apply Z.bits_inj'. intros i Hi.
  rewrite Z.land_spec, Z.bits_0.
  destruct (Z.lt_ge_cases i k) as [Hlt|Hge].
  - rewrite Z.shiftl_spec_low by lia. reflexivity.
  - assert (Hbit : Z.testbit b i = false).
    { apply Z.testbit_false; [lia|].
      rewrite Z.div_small; [reflexivity|].
      split; [lia|]. apply Z.lt_le_trans with (2 ^ k); [lia|].
      apply Z.pow_le_mono_r; lia. }
    rewrite Hbit. apply andb_false_r.
Qed.

Lemma lor_shiftl_small a b k :
  0 <= k -> 0 <= b < 2 ^ k -> Z.lor (Z.shiftl a k) b = Z.shiftl a k + b.
Proof.
  intros Hk Hb.
  pose proof (Z.add_lor_land (Z.shiftl a k) b) as H.
  rewrite (land_shiftl_small a b k Hk Hb) in H. lia.
Qed.

(** Swapping the bytes of a word loaded from memory gives the number the
    four bytes spell in big-endian order. *)
Lemma bswap32_load_le32 b0 b1 b2 b3 rest :
  U.bswap32 (U.load_le32 (b0 :: b1 :: b2 :: b3 :: rest))
  = U.be32 (b0 :: b1 :: b2 :: b3 :: rest).
Proof.
  unfold U.bswap32, U.load_le32, U.be32.
  pose proof (byte_val_range b0) as H0. pose proof (byte_val_range b1) as H1.
  pose proof (byte_val_range b2) as H2. pose proof (byte_val_range b3) as H3.
  set (v0 := U.byte_val b0) in *. set (v1 := U.byte_val b1) in *.
  set (v2 := U.byte_val b2) in *. set (v3 := U.byte_val b3) in *.
  rewrite !Z.shiftl_mul_pow2 by lia.
  set (x := v0 + v1 * 2 ^ 8 + v2 * 2 ^ 16 + v3 * 2 ^ 24).
  change 255 with (Z.ones 8). rewrite !Z.land_ones by lia.
  rewrite !Z.shiftr_div_pow2 by lia.
  assert (E0 : x mod 2 ^ 8 = v0) by (unfold x; Z.div_mod_to_equations; lia).
  assert (E1 : (x / 2 ^ 8) mod 2 ^ 8 = v1) by (unfold x; Z.div_mod_to_equations; lia).
  assert (E2 : (x / 2 ^ 16) mod 2 ^ 8 = v2) by (unfold x; Z.div_mod_to_equations; lia).
  assert (E3 : (x / 2 ^ 24) mod 2 ^ 8 = v3) by (unfold x; Z.div_mod_to_equations; lia).
  rewrite E0, E1, E2, E3.
  rewrite <- !Z.shiftl_mul_pow2 by lia.
  rewrite (lor_shiftl_small v2 v3 8) by lia.
  assert (Ehi : Z.lor (Z.shiftl v0 24) (Z.shiftl v1 16) = Z.shiftl (v0 * 2 ^ 8 + v1) 16).
  { rewrite (lor_shiftl_small v0 (Z.shiftl v1 16) 24).
    - rewrite !Z.shiftl_mul_pow2 by lia. lia.
    - lia.
    - rewrite Z.shiftl_mul_pow2 by lia. lia. }
  rewrite Ehi.
  rewrite (lor_shiftl_small (v0 * 2 ^ 8 + v1) (Z.shiftl v2 8 + v3) 16).
  - rewrite !Z.shiftl_mul_pow2 by lia. lia.
  - lia.
  - rewrite Z.shiftl_mul_pow2 by lia. lia.
Qed.

End UFacts.

(** ** Partition FS reads *)

Module PfsReadFacts.

Import Pfs.

Ltac run :=
  unfold read_section, LOGFILE, emit in *;
  unfold C.bind, C.ret, C.lift, C.modify, C.get in *;
  cbn beta iota in *.

Section Reads.

Context {nca : NcaSection} {decls : PfsDecls}.

Lemma add64_exact a b : 0 <= a + b < 2 ^ 64 -> U.add64 a b = a + b.
Proof.
  intros H. unfold U.add64, U.wrap, U.modulus. apply Z.mod_small. exact H.
Qed.

(** [pfsReadPartitionData] with a context and a buffer, case by case. *)
Lemma pfsReadPartitionData_cases c o read_size offs t :
  pfsReadPartitionData (Some c) (Some o) read_size offs t =
  match nca_fs_ctx c with
  | None => Some ((false, Some o), t ++ [EvLog Log_InvalidParameters])
  | Some n =>
      if (size c =? 0) || (read_size =? 0) || (offs >=? size c)
         || (U.add64 offs read_size >? size c)
      then Some ((false, Some o), t ++ [EvLog Log_InvalidParameters])
      else
        let abs := U.add64 (offset c) offs in
        let '(ok, bytes) := ncaReadFsSection n read_size abs in
        let o' := store_prefix bytes o in
        if ok then Some ((true, Some o'), t ++ [EvNcaRead read_size abs])
        else Some ((false, Some o'),
                   (t ++ [EvNcaRead read_size abs]) ++ [EvLog Log_ReadPartitionDataFailed])
  end.
Proof.
  unfold pfsReadPartitionData. run.
  destruct (nca_fs_ctx c) as [n|]; [|reflexivity].
  destruct (_ || _); [reflexivity|].
  destruct (ncaReadFsSection n read_size _) as [[|] bytes]; reflexivity.
Qed.

(** [pfsReadEntryData] delegates to [pfsReadPartitionData] at the shifted
    offset once its own checks pass, and adds a log line when that fails. *)
Lemma pfsReadEntryData_delegates c e o read_size offs t :
  (entry_offset e >=? size c) || (entry_size e =? 0)
  || (U.add64 (entry_offset e) (entry_size e) >? size c)
  || (read_size =? 0) || (offs >=? entry_size e)
  || (U.add64 offs read_size >? entry_size e) = false ->
  pfsReadEntryData (Some c) (Some e) (Some o) read_size offs t =
  match pfsReadPartitionData (Some c) (Some o) read_size (shifted_offset c e offs) t with
  | Some ((true, o'), t') => Some ((true, o'), t')
  | Some ((false, o'), t') => Some ((false, o'), t' ++ [EvLog Log_ReadEntryDataFailed])
  | None => None
  end.
Proof.
  intros Hchecks. unfold pfsReadEntryData. rewrite Hchecks.
  unfold shifted_offset, C.bind at 1.
  destruct (pfsReadPartitionData _ _ _ _ t) as [[[[|] o'] t']|]; reflexivity.
Qed.

(** Both reads have a defined result. *)
Lemma pfsReadEntryData_rejects c e o read_size offs t :
  (entry_offset e >=? size c) || (entry_size e =? 0)
  || (U.add64 (entry_offset e) (entry_size e) >? size c)
  || (read_size =? 0) || (offs >=? entry_size e)
  || (U.add64 offs read_size >? entry_size e) = true ->
  pfsReadEntryData (Some c) (Some e) o read_size offs t =
  Some ((false, o), t ++ [EvLog Log_InvalidParameters]).
Proof.
  intros Hchecks. unfold pfsReadEntryData.
  destruct o; [rewrite Hchecks|]; reflexivity.
Qed.

Lemma pfsReadPartitionData_rejects c o read_size offs t :
  offs >= size c \/ U.add64 offs read_size > size c ->
  pfsReadPartitionData (Some c) o read_size offs t =
  Some ((false, o), t ++ [EvLog Log_InvalidParameters]).
Proof.
  intros H. destruct o as [o|]; [|reflexivity].
  rewrite pfsReadPartitionData_cases.
  destruct (nca_fs_ctx c); [|reflexivity].
  replace ((size c =? 0) || (read_size =? 0) || (offs >=? size c)
           || (U.add64 offs read_size >? size c)) with true; [reflexivity|].
  symmetry. rewrite !orb_true_iff.
  destruct H as [H|H].
  - left. right. rewrite Z.geb_leb. apply Z.leb_le. lia.
  - right. rewrite Z.gtb_ltb. apply Z.ltb_lt. lia.
Qed.

(** C4, with the sums as the code computes them. [pfsReadPartitionData]
    fails on its parameters, without a collaborator read and without a
    change to [out], whenever [offset >= size] or the 64-bit sum
    [offset + read_size] exceeds [size]; [pfsReadEntryData] does whenever the
    64-bit sum [entry.offset + entry.size] exceeds [size], or
    [offset >= entry.size], or the 64-bit sum [offset + read_size] exceeds
    [entry.size]. A sum below 2^64 is the plain sum, so that every window
    that ends below 2^64 and beyond its bound is rejected, the cases
    [offset = size] and [offset + read_size = bound + 1] among them. *)
Theorem reads_reject_windows_out_of_bounds c e out read_size offs t :
  let rejected r := r = Some ((false, out), t ++ [EvLog Log_InvalidParameters]) in
  (offs >= size c \/ U.add64 offs read_size > size c ->
   rejected (pfsReadPartitionData (Some c) out read_size offs t))
  /\ (U.add64 (entry_offset e) (entry_size e) > size c
      \/ offs >= entry_size e
      \/ U.add64 offs read_size > entry_size e ->
      rejected (pfsReadEntryData (Some c) (Some e) out read_size offs t))
  /\ (0 <= offs + read_size < 2 ^ 64 -> offs + read_size > size c ->
      rejected (pfsReadPartitionData (Some c) out read_size offs t))
  /\ (0 <= entry_offset e + entry_size e < 2 ^ 64 ->
      entry_offset e + entry_size e > size c ->
      rejected (pfsReadEntryData (Some c) (Some e) out read_size offs t))
  /\ (0 <= offs + read_size < 2 ^ 64 -> offs + read_size > entry_size e ->
      rejected (pfsReadEntryData (Some c) (Some e) out read_size offs t)).
Proof.
  intros rejected.
  assert (Hpart : offs >= size c \/ U.add64 offs read_size > size c ->
                  rejected (pfsReadPartitionData (Some c) out read_size offs t))
    by apply pfsReadPartitionData_rejects.
  assert (Hentry : U.add64 (entry_offset e) (entry_size e) > size c
                   \/ offs >= entry_size e
                   \/ U.add64 offs read_size > entry_size e ->
                   rejected (pfsReadEntryData (Some c) (Some e) out read_size offs t)).
  { intros H. apply pfsReadEntryData_rejects.
    rewrite !orb_true_iff.
    destruct H as [H|[H|H]].
    - left. left. left. right. rewrite Z.gtb_ltb. apply Z.ltb_lt. lia.
    - left. right. rewrite Z.geb_leb. apply Z.leb_le. lia.
    - right. rewrite Z.gtb_ltb. apply Z.ltb_lt. lia. }
  repeat split; try assumption.
  - intros Hr Hgt. apply Hpart. right. rewrite add64_exact; assumption.
  - intros Hr Hgt. apply Hentry. left. rewrite add64_exact; assumption.
  - intros Hr Hgt. apply Hentry. right. right. rewrite add64_exact; assumption.
Qed.

(** C3, with the sums as the code computes them. Once the checks of
    [pfsReadEntryData] itself pass it reads through [pfsReadPartitionData]
    at [header_size + entry.offset + offset] (a 64-bit sum), and the window
    at that offset is checked against [size] again: unless the shifted
    offset is below [size] and the 64-bit sum of it and [read_size] does not
    exceed [size], the call fails on its parameters, without a collaborator
    read and without a change to [out]. *)
Theorem pfsReadEntryData_checks_shifted_window c e out read_size offs t :
  let s := shifted_offset c e offs in
  (forall o,
     out = Some o ->
     (entry_offset e >=? size c) || (entry_size e =? 0)
     || (U.add64 (entry_offset e) (entry_size e) >? size c)
     || (read_size =? 0) || (offs >=? entry_size e)
     || (U.add64 offs read_size >? entry_size e) = false ->
     pfsReadEntryData (Some c) (Some e) out read_size offs t =
     match pfsReadPartitionData (Some c) out read_size s t with
     | Some ((true, o'), t') => Some ((true, o'), t')
     | Some ((false, o'), t') => Some ((false, o'), t' ++ [EvLog Log_ReadEntryDataFailed])
     | None => None
     end)
  /\ (~ (s < size c /\ U.add64 s read_size <= size c) ->
      invalid_argument t out (pfsReadEntryData (Some c) (Some e) out read_size offs t)).
Proof.
  intros s. split.
  - intros o -> Hchecks. apply pfsReadEntryData_delegates. exact Hchecks.
  - intros Hwin.
    destruct ((entry_offset e >=? size c) || (entry_size e =? 0)
              || (U.add64 (entry_offset e) (entry_size e) >? size c)
              || (read_size =? 0) || (offs >=? entry_size e)
              || (U.add64 offs read_size >? entry_size e)) eqn:Hchecks.
    + exists []. apply pfsReadEntryData_rejects. exact Hchecks.
    + destruct out as [o|].
      * rewrite (pfsReadEntryData_delegates c e o read_size offs t Hchecks).
        fold s. rewrite pfsReadPartitionData_rejects by lia.
        exists [Log_ReadEntryDataFailed]. cbn [map].
        rewrite <- app_assoc. reflexivity.
      * exists []. reflexivity.
Qed.

End Reads.

End PfsReadFacts.

(** ** Partition FS initialization *)

Module PfsInitFacts.

Import Pfs.

Section Init.

Context {nca : NcaSection} {decls : PfsDecls}.

Lemma pfs_store_prefix_length src dst :
  List.length (store_prefix src dst) = List.length dst.
Proof.
  unfold store_prefix. rewrite length_firstn, length_app, length_skipn. lia.
Qed.

(** What a read returns does not depend on the trace so far. *)
Lemma pfsReadEntryData_frame c e out read_size offs t :
  pfsReadEntryData (Some c) (Some e) out read_size offs t =
  match pfsReadEntryData (Some c) (Some e) out read_size offs [] with
  | Some (r, t') => Some (r, t ++ t')
  | None => None
  end.
Proof.
  destruct out as [o|]; [|reflexivity].
  destruct ((entry_offset e >=? size c) || (entry_size e =? 0)
            || (U.add64 (entry_offset e) (entry_size e) >? size c)
            || (read_size =? 0) || (offs >=? entry_size e)
            || (U.add64 offs read_size >? entry_size e)) eqn:Hchecks.
  - rewrite !(PfsReadFacts.pfsReadEntryData_rejects c e (Some o) read_size offs _ Hchecks).
    reflexivity.
  - rewrite !(PfsReadFacts.pfsReadEntryData_delegates c e o read_size offs _ Hchecks).
    rewrite !PfsReadFacts.pfsReadPartitionData_cases. clear Hchecks.
    destruct (nca_fs_ctx c) as [n|]; [|cbn; rewrite <- app_assoc; reflexivity].
    destruct (_ || _); [cbn; rewrite <- app_assoc; reflexivity|].
    cbv zeta. destruct (ncaReadFsSection n read_size _) as [[|] bytes]; cbn.
    + reflexivity.
    + rewrite <- !app_assoc. reflexivity.
Qed.

Lemma entry_head_length c e n init bytes :
  entry_head c e n init = Some bytes -> List.length bytes = List.length init.
Proof.
  unfold entry_head.
  destruct ((entry_offset e >=? size c) || (entry_size e =? 0)
            || (U.add64 (entry_offset e) (entry_size e) >? size c)
            || (n =? 0) || (0 >=? entry_size e)
            || (U.add64 0 n >? entry_size e)) eqn:Hchecks.
  - rewrite (PfsReadFacts.pfsReadEntryData_rejects c e (Some init) n 0 _ Hchecks).
    discriminate.
  - rewrite (PfsReadFacts.pfsReadEntryData_delegates c e init n 0 _ Hchecks).
    rewrite PfsReadFacts.pfsReadPartitionData_cases. clear Hchecks.
    destruct (nca_fs_ctx c) as [s|]; [|discriminate].
    destruct (_ || _); [discriminate|].
    cbv zeta. destruct (ncaReadFsSection s n _) as [[|] bs]; [|discriminate].
    intros [= <-]. apply pfs_store_prefix_length.
Qed.


Lemma bswap32_load_le32_four bytes :
  List.length bytes = 4%nat -> U.bswap32 (U.load_le32 bytes) = U.be32 bytes.
Proof.
  destruct bytes as [|b0 [|b1 [|b2 [|b3 rest]]]]; try discriminate.
  intros _. apply UFacts.bswap32_load_le32.
Qed.

(** The ExeFS check always completes; it changes nothing but [is_exefs],
    which it sets exactly when the entry named main.npdm is found, its
    first four bytes can be read, and they spell the magic. *)
Lemma pfsReadEntryData_defined c e o read_size offs t :
  exists ok o' t',
    pfsReadEntryData (Some c) (Some e) (Some o) read_size offs t
    = Some ((ok, Some o'), t').
Proof.
  destruct ((entry_offset e >=? size c) || (entry_size e =? 0)
            || (U.add64 (entry_offset e) (entry_size e) >? size c)
            || (read_size =? 0) || (offs >=? entry_size e)
            || (U.add64 offs read_size >? entry_size e)) eqn:Hchecks.
  - rewrite (PfsReadFacts.pfsReadEntryData_rejects c e _ _ _ _ Hchecks). eauto.
  - rewrite (PfsReadFacts.pfsReadEntryData_delegates c e _ _ _ _ Hchecks).
    rewrite PfsReadFacts.pfsReadPartitionData_cases. clear Hchecks.
    destruct (nca_fs_ctx c); [|eauto].
    destruct (_ || _); [eauto|].
    cbv zeta. destruct (ncaReadFsSection _ _ _) as [[|] bs]; eauto.
Qed.

Lemma pfs_exefs_check_spec c magic t :
  is_exefs c = false ->
  exists c' t',
    pfs_exefs_check c magic t = Some (c', t')
    /\ before_exefs_check c' = before_exefs_check c
    /\ (is_exefs c' = true <->
        exists e bytes,
          pfsGetEntryByName c "main.npdm" = Some e
          /\ entry_head c e 4 (le32_bytes magic) = Some bytes
          /\ U.be32 bytes = NPDM_META_MAGIC).
Proof.
  intros Hflag. unfold pfs_exefs_check.
  destruct (pfsGetEntryByName c "main.npdm") as [e|] eqn:Ename.
  2:{ exists c, t. split; [reflexivity|]. split; [reflexivity|].
      rewrite Hflag. split; [discriminate|]. intros (e & bytes & [=] & _). }
  assert (Hinit : List.length (le32_bytes magic) = 4%nat) by reflexivity.
  set (init := le32_bytes magic) in *.
  pose proof (entry_head_length c e 4 init) as Hlen.
  unfold C.bind at 1. rewrite pfsReadEntryData_frame.
  destruct (pfsReadEntryData_defined c e init 4 0 []) as (ok & bytes & t1 & Eread).
  assert (Hhead : entry_head c e 4 init = if ok then Some bytes else None).
  { unfold entry_head. rewrite Eread. destruct ok; reflexivity. }
  rewrite Eread.
  destruct ok; cbn [andb].
  - rewrite Hinit in Hlen. specialize (Hlen bytes Hhead).
    rewrite (bswap32_load_le32_four bytes Hlen).
    destruct (U.be32 bytes =? NPDM_META_MAGIC) eqn:Emagic; unfold C.ret.
    + apply Z.eqb_eq in Emagic. eexists _, _. split; [reflexivity|].
      split; [reflexivity|]. cbn [is_exefs].
      split; [|reflexivity]. intros _. exists e, bytes. auto.
    + apply Z.eqb_neq in Emagic. exists c, (t ++ t1). split; [reflexivity|].
      split; [reflexivity|]. rewrite Hflag. split; [discriminate|].
      intros (e' & bytes' & [= <-] & Hb & Hm).
      rewrite Hhead in Hb. injection Hb as <-. contradiction.
  - exists c, (t ++ t1). unfold C.ret. split; [reflexivity|]. split; [reflexivity|].
    rewrite Hflag. split; [discriminate|].
    intros (e' & bytes' & [= <-] & Hb & _). rewrite Hhead in Hb. discriminate.
Qed.





End Init.

End PfsInitFacts.

(** ** Strings *)

Module CStrFacts.

Import CStr.

Lemma c_str_nul_free s : nul_free (c_str s) = true.
Proof.
  induction s as [|c r IH]; simpl; [reflexivity|].
  destruct (is_nul c) eqn:E; simpl; [reflexivity|].
  rewrite E, IH. reflexivity.
Qed.

Lemma c_str_id s : nul_free s = true -> c_str s = s.
Proof.
  induction s as [|c r IH]; simpl; [reflexivity|].
  intros H. apply andb_prop in H as [Hc Hr].
  apply negb_true_iff in Hc. rewrite Hc, (IH Hr). reflexivity.
Qed.

Lemma code_inj c d : code c = code d -> c = d.
Proof.
  unfold code. intros H. apply N2Z.inj in H.
  rewrite <- (ascii_N_embedding c), <- (ascii_N_embedding d), H. reflexivity.
Qed.

Lemma code_zero c : code c = 0 -> is_nul c = true.
Proof.
  intros H. unfold is_nul. apply Ascii.eqb_eq.
  apply code_inj. rewrite H. reflexivity.
Qed.

(** [strcmp] returns zero on equal C strings only. *)
Lemma strcmp_chars_zero a : forall b,
  nul_free a = true -> nul_free b = true -> strcmp_chars a b = 0 -> a = b.
Proof.
  induction a as [|c a IH]; intros [|d b] Ha Hb H; simpl in *.
  - reflexivity.
  - apply andb_prop in Hb as [Hd _]. apply negb_true_iff in Hd.
    assert (code d = 0) by lia. rewrite (code_zero d) in Hd by assumption. discriminate.
  - apply andb_prop in Ha as [Hc _]. apply negb_true_iff in Hc.
    rewrite (code_zero c H) in Hc. discriminate.
  - apply andb_prop in Ha as [_ Ha]. apply andb_prop in Hb as [_ Hb].
    destruct (Ascii.eqb c d) eqn:E.
    + apply Ascii.eqb_eq in E. subst d. f_equal. apply IH; assumption.
    + apply Ascii.eqb_neq in E. exfalso. apply E. apply code_inj. lia.
Qed.

Lemma strcmp_zero a b : strcmp a b = 0 -> c_str a = c_str b.
Proof.
  unfold strcmp. apply strcmp_chars_zero; apply c_str_nul_free.
Qed.

(** A string that compares equal to the five characters of [Root-] has
    length five. *)
Lemma strcmp_Root_strlen s : strcmp s "Root-" = 0 -> strlen s = 5.
Proof.
  intros H. apply strcmp_zero in H. unfold strlen. rewrite H. reflexivity.
Qed.

Lemma nul_free_drop n : forall s, nul_free s = true -> nul_free (drop n s) = true.
Proof.
  induction n as [|n IH]; intros [|c r] H; simpl; try assumption; try reflexivity.
  apply IH. simpl in H. apply andb_prop in H as [_ H]. exact H.
Qed.

Lemma skip_delims_length d s :
  (String.length (skip_delims d s) <= String.length s)%nat.
Proof.
  induction s as [|c r IH]; simpl; [lia|].
  destruct (Ascii.eqb c d); simpl; lia.
Qed.

Lemma scan_token_length d s :
  (String.length (snd (scan_token d s)) <= String.length s)%nat.
Proof.
  induction s as [|c r IH]; simpl; [lia|].
  destruct (Ascii.eqb c d); simpl; [lia|].
  destruct (scan_token d r) as [t k]; simpl in *; lia.
Qed.

(** Every call of [strtok] that returns a token moves the saved pointer
    forward. *)
Lemma strtok_shrinks d s t k :
  strtok d s = Some (t, k) -> (String.length k < String.length s)%nat.
Proof.
  unfold strtok. intros H.
  pose proof (skip_delims_length d s) as Hs.
  destruct (skip_delims d s) as [|c r] eqn:E; [discriminate|].
  injection H as H. simpl in H, Hs.
  destruct (Ascii.eqb c d) eqn:Ec.
  - injection H as _ Hk'. subst k. lia.
  - pose proof (scan_token_length d r) as Hr.
    destruct (scan_token d r) as [t' k'] eqn:Er. injection H as _ Hk'. subst k'.
    simpl in Hr. lia.
Qed.

End CStrFacts.

(** ** The chain entry point *)

Module CertEntryFacts.

Import CStr Cert.

Section Entry.

Context {decls : CertDecls} {store : SaveStore} {allocator : Allocator}.

(** The parameter check of [certRetrieveCertificateChainBySignatureIssuer]
    lets no issuer through: one of more than five characters does not
    compare equal to [Root-]. *)
Lemma issuer_check_always_rejects iss :
  (strlen iss =? 0) || (strlen iss <=? 5) || negb (strcmp iss "Root-" =? 0) = true.
Proof.
  destruct (strcmp iss "Root-" =? 0) eqn:E.
  - apply Z.eqb_eq in E. rewrite (CStrFacts.strcmp_Root_strlen iss E). reflexivity.
  - rewrite orb_true_r. reflexivity.
Qed.

(** Every call returns false after the log line of the parameter check: the
    savefile is not opened and [dst] is not touched. *)
Lemma certRetrieveCertificateChainBySignatureIssuer_always_fails dst issuer w :
  certRetrieveCertificateChainBySignatureIssuer dst issuer w =
  Some ((false, dst),
        {| g_esCertSaveCtx := g_esCertSaveCtx w;
           trace := trace w ++ [EvMutexLock; EvLog Log_InvalidParameters; EvMutexUnlock] |}).
Proof.
  unfold certRetrieveCertificateChainBySignatureIssuer, LOGFILE, emit.
  unfold C.bind, C.ret, C.modify. cbn [g_esCertSaveCtx trace].
  assert (Happ : forall (t : list event) a b c, ((t ++ [a]) ++ [b]) ++ [c] = t ++ [a; b; c])
    by (intros; rewrite <- !app_assoc; reflexivity).
  destruct dst as [d|], issuer as [iss|]; cbn [g_esCertSaveCtx trace];
    try (rewrite Happ; reflexivity).
  rewrite issuer_check_always_rejects. cbn. rewrite Happ. reflexivity.
Qed.

End Entry.

End CertEntryFacts.

(** ** The raw chain *)

Module RawChainFacts.

Import Cert.

Section Raw.

Context {decls : CertDecls} {store : SaveStore} {allocator : Allocator}.

Lemma nth_error_skipn {A} (l : list A) : forall i x,
  nth_error l i = Some x -> skipn i l = x :: skipn (S i) l.
Proof.
  induction l as [|h t IH]; intros [|i] x H; simpl in *; try discriminate.
  - injection H as ->. reflexivity.
  - apply IH. exact H.
Qed.

Lemma skipn_nth_error {A} (l : list A) : forall i x r,
  skipn i l = x :: r -> nth_error l i = Some x /\ skipn (S i) l = r.
Proof.
  induction l as [|h t IH]; intros [|i] x r H; simpl in *; try discriminate.
  - injection H as -> ->. split; reflexivity.
  - apply IH. exact H.
Qed.

Lemma total_size_bounds slots :
  Forall slot_wf slots ->
  0 <= total_size slots <= Z.of_nat (List.length slots) * SIGNED_CERT_MAX_SIZE.
Proof.
  induction 1 as [|c r [_ Hc] _ IH]; simpl total_size; simpl List.length; [lia|].
  nia.
Qed.

Lemma cert_bytes_length c :
  slot_wf c -> List.length (cert_bytes c) = Z.to_nat (size c).
Proof.
  intros [Hlen Hsz]. unfold cert_bytes. rewrite firstn_length_le; lia.
Qed.

Lemma concat_cert_bytes_length slots :
  Forall slot_wf slots ->
  Z.of_nat (List.length (List.concat (map cert_bytes slots))) = total_size slots.
Proof.
  induction 1 as [|c r Hc Hr IH]; simpl; [reflexivity|].
  rewrite length_app, Nat2Z.inj_add, IH, (cert_bytes_length c Hc).
  destruct Hc as [_ Hc]. lia.
Qed.

(** The loop of [certCalculateRawCertificateChainSize] adds up the sizes of
    the slots it visits; the 64-bit sum does not wrap. *)
Lemma size_loop_sum slots : forall n i acc rest,
  skipn i slots = rest ->
  List.length rest = n ->
  Forall slot_wf rest ->
  0 <= acc ->
  acc + Z.of_nat n * SIGNED_CERT_MAX_SIZE < 2 ^ 64 ->
  size_loop slots i n acc = Some (acc + total_size rest).
Proof.
  induction n as [|n IH]; intros i acc rest Hskip Hlen Hwf Hacc Hbound.
  - destruct rest; [|discriminate]. simpl. f_equal. lia.
  - destruct rest as [|c rest]; [discriminate|].
    destruct (skipn_nth_error slots i c rest Hskip) as [Hnth Hskip'].
    simpl. rewrite Hnth.
    apply Forall_cons_iff in Hwf as [Hc Hrest].
    destruct Hc as [_ Hc].
    assert (Hadd : U.add64 acc (size c) = acc + size c).
    { unfold U.add64, U.wrap, U.modulus. apply Z.mod_small. nia. }
    rewrite Hadd.
    rewrite (IH (S i) (acc + size c) rest Hskip'); try assumption.
    + f_equal. lia.
    + simpl in Hlen. lia.
    + lia.
    + nia.
Qed.

Lemma firstn_app_exact {A} (a t : list A) n :
  List.length a = n -> firstn n (a ++ t) = a.
Proof.
  intros <-. rewrite firstn_app, firstn_all, Nat.sub_diag, firstn_O, app_nil_r.
  reflexivity.
Qed.

Lemma skipn_app_exact {A} (a t : list A) n m :
  List.length a = n -> skipn (n + m) (a ++ t) = skipn m t.
Proof.
  intros <-. rewrite skipn_app, skipn_all2 by lia.
  replace (List.length a + m - List.length a)%nat with m by lia. reflexivity.
Qed.

(** The loop of [certCopyCertificateChainDataToMemoryBuffer] lays the bytes
    of the slots it visits end to end from [pos] on. *)
Lemma copy_loop_concat slots : forall n i pos dst rest,
  skipn i slots = rest ->
  List.length rest = n ->
  Forall slot_wf rest ->
  Z.of_nat pos + total_size rest <= Z.of_nat (List.length dst) ->
  copy_loop slots i n pos dst =
  Some (firstn pos dst ++ List.concat (map cert_bytes rest)
        ++ skipn (pos + Z.to_nat (total_size rest)) dst).
Proof.
  induction n as [|n IH]; intros i pos dst rest Hskip Hlen Hwf Hfit.
  - destruct rest; [|discriminate]. simpl.
    rewrite Nat.add_0_r, firstn_skipn. reflexivity.
  - destruct rest as [|c rest]; [discriminate|].
    destruct (skipn_nth_error slots i c rest Hskip) as [Hnth Hskip'].
    apply Forall_cons_iff in Hwf as [Hc Hrest].
    pose proof (total_size_bounds rest Hrest) as Hb.
    pose proof Hc as [Hdata Hsz].
    simpl in Hfit. simpl copy_loop. rewrite Hnth.
    unfold memcpy_at.
    replace (size c <? 0) with false by (symmetry; apply Z.ltb_ge; lia).
    replace (Z.of_nat (List.length (data c)) <? size c) with false
      by (symmetry; apply Z.ltb_ge; lia).
    replace (Z.of_nat (List.length dst) <? Z.of_nat pos + size c) with false
      by (symmetry; apply Z.ltb_ge; lia).
    cbn [orb]. fold (cert_bytes c).
    pose proof (cert_bytes_length c Hc) as Hk.
    assert (Hpos : List.length (firstn pos dst) = pos)
      by (rewrite firstn_length_le; lia).
    set (a := firstn pos dst) in *. set (b := cert_bytes c) in *.
    set (k := Z.to_nat (size c)) in *.
    assert (Hab : List.length (a ++ b) = (pos + k)%nat)
      by (rewrite length_app; lia).
    rewrite (IH (S i) (pos + k)%nat (a ++ b ++ skipn (pos + k) dst) rest Hskip').
    + f_equal. rewrite !app_assoc.
      rewrite (firstn_app_exact (a ++ b) _ (pos + k) Hab).
      rewrite <- !app_assoc. f_equal. simpl. rewrite <- app_assoc. f_equal. f_equal.
      rewrite app_assoc.
      rewrite (skipn_app_exact (a ++ b) _ (pos + k) _ Hab).
      rewrite skipn_skipn. f_equal. lia.
    + simpl in Hlen. lia.
    + assumption.
    + rewrite app_assoc, length_app, Hab, length_skipn. lia.
Qed.

Lemma split_sizes_concat slots :
  Forall slot_wf slots ->
  split_sizes (map size slots) (List.concat (map cert_bytes slots)) = map cert_bytes slots.
Proof.
  induction 1 as [|c r Hc Hr IH]; simpl; [reflexivity|].
  pose proof (cert_bytes_length c Hc) as Hlen.
  rewrite firstn_app, firstn_all2, Hlen, Nat.sub_diag, firstn_O, app_nil_r by lia.
  rewrite skipn_app, skipn_all2, Hlen, Nat.sub_diag by lia.
  simpl. rewrite IH. reflexivity.
Qed.

Lemma malloc_length n : 0 <= n -> List.length (malloc n) = Z.to_nat n.
Proof.
  intros Hn. unfold malloc.
  rewrite firstn_length_le; [reflexivity|].
  rewrite length_app, repeat_length. lia.
Qed.

(** The two serializer functions on a chain whose [count] slots are well
    formed: the size is the plain sum of the sizes, and the buffer of that
    size is filled with the certificates back to back. *)
Lemma serialize_wf_chain n slots :
  0 < n < 2 ^ 32 ->
  List.length slots = Z.to_nat n ->
  Forall slot_wf slots ->
  let chain := Some {| count := n; certs := Some slots |} in
  certCalculateRawCertificateChainSize chain = Some (total_size slots)
  /\ certCopyCertificateChainDataToMemoryBuffer (malloc (total_size slots)) chain
     = Some (List.concat (map cert_bytes slots)).
Proof.
  intros Hn Hlen Hwf chain.
  pose proof (total_size_bounds slots Hwf) as Hb.
  pose proof SIGNED_CERT_MAX_SIZE_range as HM.
  unfold chain, certCalculateRawCertificateChainSize,
    certCopyCertificateChainDataToMemoryBuffer.
  cbn [count certs].
  replace (n =? 0) with false by (symmetry; apply Z.eqb_neq; lia).
  split.
  - rewrite (size_loop_sum slots (Z.to_nat n) 0%nat 0 slots); try easy.
    rewrite Z2Nat.id by lia. nia.
  - rewrite (copy_loop_concat slots (Z.to_nat n) 0%nat 0%nat _ slots); try easy.
    + simpl firstn. cbn [app].
      rewrite skipn_all2 by (rewrite malloc_length; lia).
      rewrite app_nil_r. reflexivity.
    + rewrite malloc_length by lia. lia.
Qed.

End Raw.

End RawChainFacts.

(** ** Chain assembly *)

Module ChainFacts.

Import CStr Cert.

Ltac run :=
  unfold LOGFILE, emit, get_ctx, set_ctx in *;
  unfold C.bind, C.ret, C.lift, C.modify, C.get in *;
  cbn [g_esCertSaveCtx trace fst snd] in *.

Section Chain.

Context {decls : CertDecls} {store : SaveStore} {allocator : Allocator}.

Lemma cert_store_prefix_length src dst :
  List.length (store_prefix src dst) = List.length dst.
Proof.
  unfold store_prefix. rewrite length_firstn, length_app, length_skipn. lia.
Qed.

Lemma certGetCertificateType_world data data_size w t w' :
  certGetCertificateType data data_size w = Some (t, w') ->
  g_esCertSaveCtx w' = g_esCertSaveCtx w.
Proof.
  unfold certGetCertificateType. run.
  destruct data as [buf|]; [|intros [= _ <-]; reflexivity].
  destruct (_ || _); [intros [= _ <-]; reflexivity|].
  destruct (certGetCommonBlock buf); [|intros [= _ <-]; reflexivity].
  destruct (_ || _); intros [= _ <-]; reflexivity.
Qed.

(** What a call of [_certRetrieveCertificateByName] leaves behind: the
    savefile handle is kept, the slot keeps its array, and a successful call
    has stored a certificate of a size between the two bounds with a type
    other than the sentinel. *)
Lemma _certRetrieveCertificateByName_post dst name w ok slot w' :
  _certRetrieveCertificateByName dst name w = Some ((ok, slot), w') ->
  g_esCertSaveCtx w' = g_esCertSaveCtx w
  /\ (forall d, dst = Some d ->
       exists d', slot = Some d' /\ List.length (data d') = List.length (data d))
  /\ (ok = true ->
       dst <> None
       /\ exists d', slot = Some d'
            /\ SIGNED_CERT_MIN_SIZE <= size d' <= SIGNED_CERT_MAX_SIZE
            /\ 0 <= size d'
            /\ type d' <> CertType_None).
Proof.
  destruct w as [g t].
  unfold _certRetrieveCertificateByName. run.
  destruct g as [ctx|].
  2:{ intros [= <- <- <-]. cbn. repeat split; eauto; discriminate. }
  destruct (save_get_fat_storage_from_file_entry_by_path ctx _) as [[fat cert_size]|].
  2:{ intros [= <- <- <-]. cbn. repeat split; eauto; discriminate. }
  destruct ((cert_size <? SIGNED_CERT_MIN_SIZE) || (cert_size >? SIGNED_CERT_MAX_SIZE)) eqn:Erange.
  { intros [= <- <- <-]. cbn. repeat split; eauto; discriminate. }
  apply orb_false_iff in Erange as [Hlo Hhi].
  apply Z.ltb_ge in Hlo. rewrite Z.gtb_ltb in Hhi. apply Z.ltb_ge in Hhi.
  destruct dst as [d|]; [|discriminate]. cbn [size data type].
  set (bytes := save_allocation_table_storage_read fat 0 cert_size).
  destruct (Z.of_nat (List.length bytes) =? cert_size) eqn:Ebr; cbn [negb].
  2:{ intros [= <- <- <-]. cbn. split; [reflexivity|]. split; [|discriminate].
      intros d0 [= <-]. eexists; split; [reflexivity|]. apply cert_store_prefix_length. }
  apply Z.eqb_eq in Ebr.
  match goal with
  | |- context [certGetCertificateType ?a ?b ?c] =>
      destruct (certGetCertificateType a b c) as [[ty w1]|] eqn:Et; [|discriminate]
  end.
  apply certGetCertificateType_world in Et. cbn in Et.
  destruct (CertType_eqb ty CertType_None) eqn:Enone.
  - intros [= <- <- <-]. cbn. split; [assumption|]. split; [|discriminate].
    intros d0 [= <-]. eexists; split; [reflexivity|]. apply cert_store_prefix_length.
  - intros [= <- <- <-]. split; [assumption|]. split.
    + intros d0 [= <-]. eexists; split; [reflexivity|]. apply cert_store_prefix_length.
    + intros _. split; [discriminate|].
      eexists; split; [reflexivity|]. cbn. repeat split; try lia.
      intros ->. discriminate.
Qed.

Lemma set_nth_length {A} (x : A) l : forall n, List.length (set_nth n x l) = List.length l.
Proof.
  induction l as [|h t IH]; intros [|n]; simpl; try reflexivity.
  rewrite IH. reflexivity.
Qed.

Lemma set_nth_Forall {A} (P : A -> Prop) x l : forall n,
  P x -> Forall P l -> Forall P (set_nth n x l).
Proof.
  induction l as [|h t IH]; intros [|n] Hx Hl; simpl; try assumption.
  - apply Forall_cons_iff in Hl as [_ Ht]. constructor; assumption.
  - apply Forall_cons_iff in Hl as [Hh Ht]. constructor; [assumption|].
    apply IH; assumption.
Qed.

(** The retrieval loop keeps the array length, and on success every slot is
    still well formed. *)
Lemma retrieve_loop_post tokens : forall i slots w ok slots' w',
  retrieve_loop tokens i slots w = Some ((ok, slots'), w') ->
  g_esCertSaveCtx w' = g_esCertSaveCtx w
  /\ List.length slots' = List.length slots
  /\ (ok = true -> Forall slot_wf slots -> Forall slot_wf slots').
Proof.
  induction tokens as [|pch rest IH]; intros i slots w ok slots' w'.
  - cbn. run. intros [= <- <- <-]. auto.
  - cbn [retrieve_loop]. unfold C.bind at 1.
    destruct (_certRetrieveCertificateByName _ pch w) as [[[ok1 slot] w1]|] eqn:E1;
      [|discriminate].
    apply _certRetrieveCertificateByName_post in E1 as (Hg1 & Hkeep & Hok).
    destruct ok1; cbn [negb].
    + intros H. apply IH in H as (Hg & Hlen & Hwf).
      destruct (Hok eq_refl) as (Hdst & d' & -> & Hsz & Hpos & _).
      rewrite set_nth_length in Hlen.
      split; [congruence|]. split; [assumption|].
      intros Hok' Hslots. apply Hwf; [assumption|].
      apply set_nth_Forall; [|assumption].
      destruct (nth_error slots (Z.to_nat i)) as [d|] eqn:En.
      * destruct (Hkeep d eq_refl) as (d'' & [= <-] & Hd).
        apply nth_error_In in En.
        rewrite Forall_forall in Hslots. destruct (Hslots d En) as [Hdata _].
        split; [congruence | lia].
      * (* no store is made through a pointer outside the array *)
        exfalso. apply Hdst. reflexivity.
    + run. intros [= <- <- <-]. cbn.
      split; [assumption|]. split; [|discriminate].
      destruct slot; [apply set_nth_length | reflexivity].
Qed.

Lemma count_loop_range tokens : forall c,
  0 <= c < 2 ^ 32 -> 0 <= count_loop tokens c < 2 ^ 32.
Proof.
  induction tokens as [|t r IH]; intros c Hc; simpl; [assumption|].
  apply IH. unfold U.add32, U.wrap, U.modulus. apply Z.mod_pos_bound. lia.
Qed.

Lemma certGetCertificateCountInSignatureIssuer_range issuer n :
  certGetCertificateCountInSignatureIssuer issuer = Some n -> 0 <= n < 2 ^ 32.
Proof.
  unfold certGetCertificateCountInSignatureIssuer.
  destruct issuer as [iss|]; [|intros [= <-]; lia].
  destruct (strlen iss =? 0); [intros [= <-]; lia|].
  destruct (ptr_add iss 5); [|discriminate].
  destruct (snprintf_fmt 64 _); [|discriminate].
  intros [= <-]. apply count_loop_range. lia.
Qed.

Lemma zeroed_Certificate_wf : slot_wf zeroed_Certificate.
Proof.
  pose proof SIGNED_CERT_MAX_SIZE_range.
  split; cbn; [apply repeat_length | lia].
Qed.

(** A chain that [_certRetrieveCertificateChainBySignatureIssuer] returns
    with success has a non-zero [count], an array of [count] slots, and in
    every slot a size that fits the slot. *)
Lemma _certRetrieveCertificateChainBySignatureIssuer_success dst issuer w chain w' :
  _certRetrieveCertificateChainBySignatureIssuer dst issuer w = Some ((true, chain), w') ->
  exists n slots,
    chain = {| count := n; certs := Some slots |}
    /\ 0 < n < 2 ^ 32
    /\ List.length slots = Z.to_nat n
    /\ Forall slot_wf slots.
Proof.
  destruct w as [g t].
  unfold _certRetrieveCertificateChainBySignatureIssuer. run.
  destruct g as [ctx|]; [|discriminate].
  destruct (certGetCertificateCountInSignatureIssuer (Some issuer)) as [n|] eqn:En;
    [|discriminate].
  apply certGetCertificateCountInSignatureIssuer_range in En.
  destruct (n =? 0) eqn:Ez; [discriminate|]. apply Z.eqb_neq in Ez.
  destruct (alloc_ok _); cbn [negb]; [|discriminate].
  destruct (ptr_add issuer 5) as [rest|]; [|discriminate].
  match goal with
  | |- context [retrieve_loop ?a ?b ?c ?d] =>
      destruct (retrieve_loop a b c d) as [[[ok slots'] w1]|] eqn:El; [|discriminate]
  end.
  apply retrieve_loop_post in El as (_ & Hlen & Hwf).
  destruct ok; cbn [negb]; [|discriminate].
  intros [= <- <-]. exists n, slots'.
  rewrite repeat_length in Hlen.
  repeat split; try lia.
  apply Hwf; [reflexivity|].
  apply Forall_forall. intros c Hc. apply repeat_spec in Hc. subst c.
  apply zeroed_Certificate_wf.
Qed.

(** When a certificate cannot be retrieved, the loop stops, the chain is
    released and the call fails: the chain that comes back has no array and
    a count of zero. *)
Lemma _certRetrieveCertificateChainBySignatureIssuer_releases dst issuer w rest n slots' w1 :
  g_esCertSaveCtx w <> None ->
  certGetCertificateCountInSignatureIssuer (Some issuer) = Some n ->
  n <> 0 ->
  alloc_ok (AllocCertificates n) = true ->
  ptr_add issuer 5 = Some rest ->
  retrieve_loop (strtok_loop "-"%char (snprintf_s 64 rest)) 0
    (repeat zeroed_Certificate (Z.to_nat n)) w = Some ((false, slots'), w1) ->
  _certRetrieveCertificateChainBySignatureIssuer dst issuer w =
  Some ((false, {| count := 0; certs := None |}), w1).
Proof.
  intros Hg Hn Hnz Halloc Hrest Hloop.
  unfold _certRetrieveCertificateChainBySignatureIssuer. run.
  destruct (g_esCertSaveCtx w) as [ctx|]; [|contradiction].
  rewrite Hn. apply Z.eqb_neq in Hnz. rewrite Hnz, Halloc, Hrest. cbn [negb].
  rewrite Hloop. reflexivity.
Qed.

(** Without [%] the format is written out as it is. *)
Lemma format_noargs_percent_free s :
  percent_free s = true -> format_noargs s = Some s.
Proof.
  induction s as [|c r IH]; simpl; [reflexivity|].
  intros H. apply andb_prop in H as [Hc Hr]. apply negb_true_iff in Hc.
  rewrite Hc, (IH Hr). reflexivity.
Qed.

Lemma strtok_loop_length d s :
  (List.length (strtok_loop d s) <= String.length s)%nat.
Proof.
  funelim (strtok_loop d s).
  - pose proof (CStrFacts.strtok_shrinks _ _ _ _ e). simpl. lia.
  - simpl. lia.
Qed.

Lemma take_length n s : (String.length (take n s) <= n)%nat.
Proof.
  revert s. induction n as [|n IH]; intros [|c r]; simpl; try lia.
  specialize (IH r). lia.
Qed.

Lemma count_loop_length tokens : forall c,
  0 <= c -> c + Z.of_nat (List.length tokens) < 2 ^ 32 ->
  count_loop tokens c = c + Z.of_nat (List.length tokens).
Proof.
  induction tokens as [|t r IH]; intros c Hc Hb; simpl count_loop; simpl List.length in *.
  - lia.
  - assert (Hadd : U.add32 c 1 = c + 1).
    { unfold U.add32, U.wrap, U.modulus. apply Z.mod_small. lia. }
    rewrite Hadd, IH; lia.
Qed.

(** For an issuer without [%] the counting pass counts the tokens of the
    retrieval pass. *)
Lemma count_matches_retrieval_tokens issuer :
  percent_free (c_str issuer) = true ->
  strlen issuer <> 0 ->
  certGetCertificateCountInSignatureIssuer (Some issuer)
  = option_map (fun ts => Z.of_nat (List.length ts)) (retrieval_tokens issuer).
Proof.
  intros Hp Hlen.
  unfold certGetCertificateCountInSignatureIssuer, retrieval_tokens.
  apply Z.eqb_neq in Hlen. rewrite Hlen.
  unfold ptr_add. destruct (_ <=? _); [|reflexivity]. cbn [option_map].
  assert (Hdrop : forall n s, percent_free s = true -> percent_free (drop n s) = true).
  { induction n as [|n IH]; intros [|c r] H; simpl; try assumption; try reflexivity.
    apply IH. simpl in H. apply andb_prop in H as [_ H]. exact H. }
  set (rest := drop 5 (c_str issuer)).
  assert (Hc : c_str rest = rest)
    by (apply CStrFacts.c_str_id, CStrFacts.nul_free_drop, CStrFacts.c_str_nul_free).
  unfold snprintf_fmt, snprintf_s. rewrite Hc.
  rewrite format_noargs_percent_free by (apply Hdrop, Hp). cbn [option_map].
  f_equal. rewrite count_loop_length; [lia | lia |].
  pose proof (strtok_loop_length "-"%char (snprintf_store 64 rest)) as H1.
  pose proof (take_length (Z.to_nat (64 - 1)) rest) as H2.
  unfold snprintf_store in *. lia.
Qed.

(** The retrieval pass works on the first 0x3F characters of the remainder,
    whatever the issuer. *)
Lemma retrieval_tokens_of_truncated_remainder issuer :
  5 <= strlen issuer ->
  retrieval_tokens issuer = Some (strtok_loop "-"%char (truncated_remainder issuer)).
Proof.
  intros Hlen. unfold retrieval_tokens, ptr_add, truncated_remainder.
  replace (Z.of_nat 5 <=? strlen issuer) with true by (symmetry; apply Z.leb_le; lia).
  cbn [option_map]. unfold snprintf_s, snprintf_store.
  rewrite CStrFacts.c_str_id
    by (apply CStrFacts.nul_free_drop, CStrFacts.c_str_nul_free).
  reflexivity.
Qed.

(** So does the counting pass when the issuer has no [%]: tokens beyond the
    first 0x3F characters are not counted. *)
Lemma count_of_truncated_remainder issuer :
  percent_free (c_str issuer) = true ->
  5 <= strlen issuer ->
  certGetCertificateCountInSignatureIssuer (Some issuer)
  = Some (Z.of_nat (List.length (strtok_loop "-"%char (truncated_remainder issuer)))).
Proof.
  intros Hp Hlen.
  rewrite count_matches_retrieval_tokens by (assumption || lia).
  rewrite retrieval_tokens_of_truncated_remainder by assumption.
  reflexivity.
Qed.

(** The serializer behind the retrieval. For every chain that the static
    retrieval returns with success, the serializer computes the sum of the
    member sizes, and the buffer it fills has that length and splits, by the
    sizes of the members in chain order, into the bytes of each member. *)
Theorem raw_chain_round_trip dst issuer w chain w' out_size w2 :
  _certRetrieveCertificateChainBySignatureIssuer dst issuer w = Some ((true, chain), w') ->
  exists slots raw,
    certs chain = Some slots
    /\ certCalculateRawCertificateChainSize (Some chain) = Some (total_size slots)
    /\ certCopyCertificateChainDataToMemoryBuffer (malloc (total_size slots)) (Some chain)
       = Some raw
    /\ Z.of_nat (List.length raw) = total_size slots
    /\ split_sizes (map size slots) raw = map cert_bytes slots
    /\ (alloc_ok (AllocRawChain (total_size slots)) = true ->
        serialize_retrieved_chain (Some chain) out_size w2
        = Some ((Some raw, Some (total_size slots)), w2)).
Proof.
  intros H.
  apply _certRetrieveCertificateChainBySignatureIssuer_success in H
    as (n & slots & -> & Hn & Hlen & Hwf).
  destruct (RawChainFacts.serialize_wf_chain n slots Hn Hlen Hwf) as [Hsize Hcopy].
  exists slots, (List.concat (map cert_bytes slots)).
  split; [reflexivity|]. split; [exact Hsize|]. split; [exact Hcopy|].
  split; [apply RawChainFacts.concat_cert_bytes_length, Hwf|].
  split; [apply RawChainFacts.split_sizes_concat, Hwf|].
  intros Halloc. unfold serialize_retrieved_chain. run.
  rewrite Hsize, Halloc. cbn [negb]. rewrite Hcopy. reflexivity.
Qed.

End Chain.

End ChainFacts.

(** ** Classification on concrete certificates *)

Module CertTypeExamples.

Import Cert Fixture.

#[local] Existing Instance console_decls.

(** C7 at a buffer of 0x13F bytes, one less than the smallest signed
    certificate. *)
Lemma certGetCertificateType_none_witness :
  exists site,
    certGetCertificateType (store := store_of []) (Some (zeros 0x13F)) 0x13F (closed_world [])
    = Some (CertType_None, logged (closed_world []) site).
Proof.
  apply (CertTypeFacts.certGetCertificateType_none (store := store_of [])
           (zeros 0x13F) 0x13F (closed_world [])).
  left. simpl. lia.
Defined.

(** C2 fails as stated: two buffers of 0x300 bytes that pass every check,
    carry an HMAC-160 signature and differ in the [pub_key_type] field only
    get different tags. *)
Lemma certGetCertificateType_hmac160_depends_on_pub_key_type :
  let b0 := cert_hmac160 in
  let b1 := with_pub_key_type cert_hmac160 1 in
  let classify b :=
    option_map fst (certGetCertificateType (store := store_of []) (Some b) 0x300
                      (closed_world [])) in
  (size_in_range 0x300
   /\ certGetCommonBlock b0 <> None /\ certGetCommonBlock b1 <> None
   /\ sig_case (signatureGetSigType b0 true) = Some Hmac160
   /\ sig_case (signatureGetSigType b1 true) = Some Hmac160
   /\ firstn 0x80 b0 = firstn 0x80 b1 /\ skipn 0x84 b0 = skipn 0x84 b1)
  /\ classify b0 = Some CertType_SigHmac160_PubKeyRsa4096
  /\ classify b1 = Some CertType_SigHmac160_PubKeyRsa2048
  /\ classify b0 <> classify b1.
Proof.
  vm_compute.
  repeat split; try discriminate; try reflexivity.
Qed.

(** C2 as amended, at the HMAC-160 certificate with an RSA-2048 key type. *)
Lemma certGetCertificateType_hmac160_witness :
  certGetCertificateType (store := store_of [])
    (Some (with_pub_key_type cert_hmac160 1)) 0x300 (closed_world [])
  = Some (CertType_SigHmac160_PubKeyRsa2048, closed_world []).
Proof.
  assert (Hcb : certGetCommonBlock (with_pub_key_type cert_hmac160 1)
                = Some {| pub_key_type := 0x01000000 |}) by (vm_compute; reflexivity).
  apply (CertTypeFacts.certGetCertificateType_hmac160 (store := store_of [])
           (with_pub_key_type cert_hmac160 1) 0x300 _ (closed_world [])
           ltac:(vm_compute; split; discriminate) Hcb
           ltac:(vm_compute; discriminate) ltac:(vm_compute; discriminate)
           ltac:(vm_compute; reflexivity)).
Defined.

End CertTypeExamples.

(** ** Chains on concrete stores *)

Module ChainExamples.

Import CStr Cert Fixture.

#[local] Existing Instance console_decls.
#[local] Existing Instance generous.

(** C1 on the code. With a store that resolves both names, the issuer
    [Root-CA00000003-XS00000020] is turned away by the parameter check: the
    call returns false after the log line of that check and never opens the
    savefile. The function behind the check does retrieve the two
    certificates, in the order CA00000003, XS00000020. *)
Theorem root_issuer_is_rejected :
  certRetrieveCertificateChainBySignatureIssuer (store := store_of es_files)
    (Some zeroed_CertificateChain) (Some "Root-CA00000003-XS00000020")
    (closed_world es_files)
  = Some ((false, Some zeroed_CertificateChain),
          {| g_esCertSaveCtx := None;
             trace := [EvMutexLock; EvLog Log_InvalidParameters; EvMutexUnlock] |})
  /\ exists c1 c2 w',
       _certRetrieveCertificateChainBySignatureIssuer (store := store_of es_files)
         zeroed_CertificateChain "Root-CA00000003-XS00000020" (open_world es_files)
       = Some ((true, {| count := 2; certs := Some [c1; c2] |}), w')
       /\ cert_bytes c1 = cert_CA00000003
       /\ cert_bytes c2 = cert_XS00000020.
Proof.
  split.
  - rewrite CertEntryFacts.certRetrieveCertificateChainBySignatureIssuer_always_fails.
    reflexivity.
  - do 3 eexists. split; [vm_compute; reflexivity|].
    split; vm_compute; reflexivity.
Qed.

(** The round trip of the serializer at the chain of
    [Root-CA00000003-XS00000020]. *)
Lemma raw_chain_round_trip_witness :
  exists slots raw,
    map size slots = [0x400; 0x300]
    /\ Z.of_nat (List.length raw) = total_size slots
    /\ split_sizes (map size slots) raw = map cert_bytes slots.
Proof.
  destruct (_certRetrieveCertificateChainBySignatureIssuer (store := store_of es_files)
              zeroed_CertificateChain "Root-CA00000003-XS00000020" (open_world es_files))
    as [[[ok chain] w']|] eqn:E; [|vm_compute in E; discriminate].
  assert (Hok : ok = true) by (vm_compute in E; congruence). subst ok.
  destruct (ChainFacts.raw_chain_round_trip (store := store_of es_files)
              zeroed_CertificateChain "Root-CA00000003-XS00000020"
              (open_world es_files) chain w' None (open_world es_files) E)
    as (slots & raw & Hslots & _ & _ & Hlen & Hsplit & _).
  exists slots, raw. split; [|split; assumption].
  vm_compute in E. injection E as <- _. injection Hslots as <-. reflexivity.
Defined.

(** C8 on the code. [certGenerateRawCertificateChainBySignatureIssuer]
    returns a buffer for no issuer: on every store, for every issuer and
    every [out_size] it returns NULL and leaves [*out_size] as it was. For
    [Root-CA00000003-XS00000020] on a store that holds both certificates it
    fails after the parameter check of the chain retrieval has rejected the
    issuer. Behind that check the round trip is there: the static retrieval
    returns the chain of the two certificates, and the serializer turns it
    into the 0x700 bytes of CA00000003 followed by XS00000020, which split
    by the sizes 0x400 and 0x300 into the two certificates. *)
Theorem raw_chain_is_never_generated :
  (forall (store : SaveStore) issuer out_size w,
     exists w',
       certGenerateRawCertificateChainBySignatureIssuer (store := store) issuer out_size w
       = Some ((None, out_size), w'))
  /\ certGenerateRawCertificateChainBySignatureIssuer (store := store_of es_files)
       (Some "Root-CA00000003-XS00000020") (Some 0) (closed_world es_files)
     = Some ((None, Some 0),
             {| g_esCertSaveCtx := None;
                trace := [EvMutexLock; EvLog Log_InvalidParameters; EvMutexUnlock;
                          EvLog Log_RetrieveChainFailed] |})
  /\ exists chain w',
       _certRetrieveCertificateChainBySignatureIssuer (store := store_of es_files)
         zeroed_CertificateChain "Root-CA00000003-XS00000020" (open_world es_files)
       = Some ((true, chain), w')
       /\ option_map (map size) (certs chain) = Some [0x400; 0x300]
       /\ option_map (map cert_bytes) (certs chain)
          = Some [cert_CA00000003; cert_XS00000020]
       /\ serialize_retrieved_chain (store := store_of es_files) (Some chain) (Some 0) w'
          = Some ((Some (cert_CA00000003 ++ cert_XS00000020), Some 0x700), w')
       /\ split_sizes [0x400; 0x300] (cert_CA00000003 ++ cert_XS00000020)
          = [cert_CA00000003; cert_XS00000020].
Proof.
  split.
  { intros store issuer out_size w.
    unfold certGenerateRawCertificateChainBySignatureIssuer.
    destruct issuer as [iss|]; [|eexists; reflexivity].
    destruct out_size as [n|]; [|eexists; reflexivity].
    destruct (strlen iss =? 0); [eexists; reflexivity|].
    unfold C.bind at 1.
    rewrite CertEntryFacts.certRetrieveCertificateChainBySignatureIssuer_always_fails.
    cbn [negb]. eexists. reflexivity. }
  split; [vm_compute; reflexivity|].
  do 2 eexists. split; [vm_compute; reflexivity|].
  repeat split; vm_compute; reflexivity.
Qed.

(** C9 on the code. For [percent_issuer] the counting pass, which hands the
    remainder to [snprintf] as the format, counts two tokens, the retrieval
    pass visits one, and the chain that is returned with success has a count
    of two. *)
Theorem count_differs_from_tokens_visited :
  certGetCertificateCountInSignatureIssuer (Some percent_issuer) = Some 2
  /\ option_map (@List.length string) (retrieval_tokens percent_issuer) = Some 1%nat
  /\ exists chain w',
       _certRetrieveCertificateChainBySignatureIssuer (store := store_of percent_files)
         zeroed_CertificateChain percent_issuer (open_world percent_files)
       = Some ((true, chain), w')
       /\ count chain = 2.
Proof.
  split; [vm_compute; reflexivity|]. split; [vm_compute; reflexivity|].
  do 2 eexists. split; [vm_compute; reflexivity|]. reflexivity.
Qed.

(** The issuer [Root-A-B-C] has three tokens in both passes and yields a
    chain of three certificates. *)
Lemma root_A_B_C :
  certGetCertificateCountInSignatureIssuer (Some "Root-A-B-C") = Some 3
  /\ retrieval_tokens "Root-A-B-C" = Some ["A"; "B"; "C"]
  /\ exists c1 c2 c3 w',
       _certRetrieveCertificateChainBySignatureIssuer (store := store_of abc_files)
         zeroed_CertificateChain "Root-A-B-C" (open_world abc_files)
       = Some ((true, {| count := 3; certs := Some [c1; c2; c3] |}), w')
       /\ map cert_bytes [c1; c2; c3] = [cert_CA00000003; cert_XS00000020; cert_hmac160].
Proof.
  split; [vm_compute; reflexivity|]. split; [vm_compute; reflexivity|].
  do 4 eexists. split; vm_compute; reflexivity.
Qed.

(** C5 on the code. For [percent_issuer] and a store that holds the one
    certificate the loop asks for, the call succeeds and returns a chain of
    two slots of which the second is as [calloc] left it. *)
Theorem chain_with_an_unfilled_slot :
  exists c w',
    _certRetrieveCertificateChainBySignatureIssuer (store := store_of percent_files)
      zeroed_CertificateChain percent_issuer (open_world percent_files)
    = Some ((true, {| count := 2; certs := Some [c; zeroed_Certificate] |}), w')
    /\ cert_bytes c = cert_XS00000020
    /\ type zeroed_Certificate = CertType_None
    /\ size zeroed_Certificate = 0.
Proof.
  do 2 eexists. split; [vm_compute; reflexivity|].
  split; [vm_compute; reflexivity|]. split; reflexivity.
Qed.

(** C10 on the code. The remainder of [percent_issuer] has 65 characters.
    Its first 0x3F characters hold one token, and that is what the retrieval
    pass works on; the counting pass counts two, the second of them being
    the [B] that lies behind the first 0x3F characters. *)
Theorem counting_pass_looks_past_the_truncation :
  strlen (drop 5 percent_issuer) = 65
  /\ List.length (strtok_loop "-"%char (truncated_remainder percent_issuer)) = 1%nat
  /\ retrieval_tokens percent_issuer
     = Some (strtok_loop "-"%char (truncated_remainder percent_issuer))
  /\ drop 64 (drop 5 percent_issuer) = "B"
  /\ certGetCertificateCountInSignatureIssuer (Some percent_issuer) = Some 2.
Proof.
  repeat split; vm_compute; reflexivity.
Qed.

End ChainExamples.

(** ** Reads on a concrete section *)

Module PfsReadExamples.

Import Pfs Fixture.

#[local] Existing Instance image_section.
#[local] Existing Instance image_decls.

(** C3 fails as stated. Region of 64 bytes, header size 2^64 - 10, entry at
    10 of size 20, window of 5 bytes at 0: the two documented conditions
    hold and the plain sum of header size, entry offset, offset and read
    size is far above the region size, yet the shifted offset wraps to 0 and
    the call reads five bytes and returns true. *)
Lemma pfsReadEntryData_shift_wraps :
  let c := region_context 64 (2 ^ 64 - 10) in
  let e := {| entry_offset := 10; entry_size := 20; name_offset := 0 |} in
  (entry_offset e + entry_size e <= size c /\ 0 + 5 <= entry_size e)
  /\ ~ (header_size c + entry_offset e + 0 + 5 <= size c)
  /\ pfsReadEntryData (Some c) (Some e) (Some (zeros 5)) 5 0 []
     = Some ((true, Some (list_byte_of_string "PFS0" ++ [x01])), [EvNcaRead 5 0]).
Proof.
  split; [vm_compute; split; discriminate|].
  split; [vm_compute; intros H; apply H; reflexivity|].
  vm_compute. reflexivity.
Qed.

(** C3 as amended, at a window for which the two documented conditions hold:
    region of 64 bytes, header size 0x38, entry at 40 of size 20, four bytes
    at 0. The shifted offset is 96. *)
Lemma pfsReadEntryData_checks_shifted_window_witness :
  let c := region_context 64 0x38 in
  let e := {| entry_offset := 40; entry_size := 20; name_offset := 0 |} in
  (entry_offset e + entry_size e <= size c /\ 0 + 4 <= entry_size e)
  /\ invalid_argument [] (Some (zeros 4))
       (pfsReadEntryData (Some c) (Some e) (Some (zeros 4)) 4 0 []).
Proof.
  intros c e. split; [vm_compute; split; discriminate|].
  apply (proj2 (PfsReadFacts.pfsReadEntryData_checks_shifted_window
                  c e (Some (zeros 4)) 4 0 [])).
  vm_compute. intros [H _]. discriminate.
Defined.

(** C4 fails as stated. In a region of 64 bytes a window at 1 of 2^64 - 1
    bytes ends beyond the region, and an entry at 4 of 2^64 - 2 bytes does
    not fit it; the sums wrap to 0 and to 2, the checks pass, and a
    collaborator read is made in both calls. The second returns true. *)
Lemma reads_accept_windows_that_wrap :
  let c := region_context 64 0x38 in
  let e := {| entry_offset := 4; entry_size := 2 ^ 64 - 2; name_offset := 0 |} in
  (1 + (2 ^ 64 - 1) > size c
   /\ pfsReadPartitionData (Some c) (Some (zeros 4)) (2 ^ 64 - 1) 1 []
      = Some ((false, Some (zeros 4)),
              [EvNcaRead (2 ^ 64 - 1) 1; EvLog Log_ReadPartitionDataFailed]))
  /\ (~ (entry_offset e + entry_size e <= size c)
      /\ pfsReadEntryData (Some c) (Some e) (Some (zeros 4)) 4 0 []
         = Some ((true, Some (list_byte_of_string "1234")), [EvNcaRead 4 60])).
Proof.
  split; split.
  - vm_compute. reflexivity.
  - vm_compute. reflexivity.
  - vm_compute. intros H. apply H. reflexivity.
  - vm_compute. reflexivity.
Qed.

(** C4 as amended, at the two boundary cases in a region of 64 bytes: one
    byte at offset 64, and two bytes at offset 63. *)
Lemma reads_reject_windows_out_of_bounds_witness :
  let c := region_context 64 0x38 in
  pfsReadPartitionData (Some c) (Some (zeros 2)) 1 64 []
  = Some ((false, Some (zeros 2)), [EvLog Log_InvalidParameters])
  /\ pfsReadPartitionData (Some c) (Some (zeros 2)) 2 63 []
     = Some ((false, Some (zeros 2)), [EvLog Log_InvalidParameters]).
Proof.
  intros c.
  pose (e := {| entry_offset := 0; entry_size := 8; name_offset := 0 |}).
  split.
  - apply (proj1 (PfsReadFacts.reads_reject_windows_out_of_bounds
                    c e (Some (zeros 2)) 1 64 [])).
    left. vm_compute. discriminate.
  - apply (proj1 (proj2 (proj2 (PfsReadFacts.reads_reject_windows_out_of_bounds
                                  c e (Some (zeros 2)) 2 63 [])))).
    + vm_compute. split; [discriminate | reflexivity].
    + vm_compute. reflexivity.
Defined.

End PfsReadExamples.

(** ** Initialization on concrete sections *)

Module PfsInitExamples.

Import Pfs Fixture.

#[local] Existing Instance image_section.
#[local] Existing Instance image_decls.


(** A main.npdm that does not start with the magic, a partition without
    main.npdm and an empty main.npdm: the call succeeds and [is_exefs] stays
    false. *)
Lemma pfsInitializeContext_not_exefs :
  let flag image :=
    match pfsInitializeContext (Some blank_context) (Some (mk_section image)) [] with
    | Some ((ok, Some c), _) => Some (ok, is_exefs c)
    | _ => None
    end in
  flag (mk_pfs "main.npdm" (list_byte_of_string "ATEM1234")) = Some (true, false)
  /\ flag (mk_pfs "main" (list_byte_of_string "META1234")) = Some (true, false)
  /\ flag (mk_pfs "main.npdm" []) = Some (true, false).
Proof.
  repeat split; vm_compute; reflexivity.
Qed.

End PfsInitExamples.

(** * Further properties of cert.c *)

Module CertMoreFacts.

Import CStr Cert CertWords.

Ltac run :=
  unfold LOGFILE, emit, get_ctx, set_ctx in *;
  unfold C.bind, C.ret, C.lift, C.modify, C.get in *;
  cbn [g_esCertSaveCtx trace fst snd] in *.

Section More.

Context {decls : CertDecls} {store : SaveStore} {allocator : Allocator}.

Lemma CERT_TYPE_not_none s pk : CERT_TYPE s pk <> CertType_None.
Proof.
  unfold CERT_TYPE.
  destruct (pk =? CertPubKeyType_Rsa4096); [destruct s; discriminate|].
  destruct (pk =? CertPubKeyType_Rsa2048); destruct s; discriminate.
Qed.

(** X5. [certGetCertificateType] on a buffer always returns and changes
    nothing but the log: the savefile handle is as it was, and the trace
    grows by the one log line of the check that rejected (the parameter
    check for a size out of bounds; the certificate check for a common block
    that cannot be located and for a signed certificate size that is zero or
    exceeds the buffer), or by nothing. It returns the sentinel exactly when
    one of these checks rejects or the signature type is none of the seven
    of the [switch]. *)
Theorem certGetCertificateType_none_iff buf data_size w :
  exists t evs,
    certGetCertificateType (Some buf) data_size w
    = Some (t, {| g_esCertSaveCtx := g_esCertSaveCtx w; trace := trace w ++ evs |})
    /\ (t = CertType_None <->
        data_size < SIGNED_CERT_MIN_SIZE
        \/ data_size > SIGNED_CERT_MAX_SIZE
        \/ certGetCommonBlock buf = None
        \/ certGetSignedCertificateSize buf = 0
        \/ certGetSignedCertificateSize buf > data_size
        \/ sig_case (signatureGetSigType buf true) = None)
    /\ (data_size < SIGNED_CERT_MIN_SIZE \/ data_size > SIGNED_CERT_MAX_SIZE ->
        evs = [EvLog Log_InvalidParameters])
    /\ (SIGNED_CERT_MIN_SIZE <= data_size <= SIGNED_CERT_MAX_SIZE ->
        certGetCommonBlock buf = None
        \/ certGetSignedCertificateSize buf = 0
        \/ certGetSignedCertificateSize buf > data_size ->
        evs = [EvLog Log_NotASignedCertificate])
    /\ (SIGNED_CERT_MIN_SIZE <= data_size <= SIGNED_CERT_MAX_SIZE ->
        certGetCommonBlock buf <> None ->
        certGetSignedCertificateSize buf <> 0 ->
        certGetSignedCertificateSize buf <= data_size ->
        evs = []).
Proof.
  unfold certGetCertificateType. run.
  destruct (data_size <? SIGNED_CERT_MIN_SIZE) eqn:Elo; cbn [orb].
  { apply Z.ltb_lt in Elo. eexists _, [_]. split; [reflexivity|].
    split; [tauto|]. split; [reflexivity|]. split; intros; lia. }
  destruct (data_size >? SIGNED_CERT_MAX_SIZE) eqn:Ehi.
  { rewrite Z.gtb_ltb in Ehi. apply Z.ltb_lt in Ehi.
    eexists _, [_]. split; [reflexivity|].
    split; [split; [intros _; right; left; lia | reflexivity]|].
    split; [reflexivity|]. split; intros; lia. }
  apply Z.ltb_ge in Elo. rewrite Z.gtb_ltb in Ehi. apply Z.ltb_ge in Ehi.
  destruct (certGetCommonBlock buf) as [cb|] eqn:Ecb.
  2:{ eexists _, [_]. split; [reflexivity|]. split; [tauto|].
      split; [intros; lia|]. split; [reflexivity|]. intros _ H. contradiction. }
  destruct (certGetSignedCertificateSize buf =? 0) eqn:Ez; cbn [orb].
  { apply Z.eqb_eq in Ez. eexists _, [_]. split; [reflexivity|]. split; [tauto|].
    split; [intros; lia|]. split; [reflexivity|]. intros _ _ H. contradiction. }
  apply Z.eqb_neq in Ez.
  destruct (certGetSignedCertificateSize buf >? data_size) eqn:Egt.
  { rewrite Z.gtb_ltb in Egt. apply Z.ltb_lt in Egt.
    eexists _, [_]. split; [reflexivity|].
    split; [split; [intros _; do 4 right; left; lia | reflexivity]|].
    split; [intros; lia|]. split; [reflexivity|]. intros; lia. }
  rewrite Z.gtb_ltb in Egt. apply Z.ltb_ge in Egt.
  eexists _, []. rewrite app_nil_r. split; [destruct w; reflexivity|].
  split.
  { destruct (sig_case (signatureGetSigType buf true)) as [s|].
    - split.
      + intros H. exfalso. exact (CERT_TYPE_not_none _ _ H).
      + intros [H|[H|[H|[H|[H|H]]]]]; try lia; discriminate.
    - split; [|reflexivity]. intros _. do 5 right. reflexivity. }
  split; [intros; lia|]. split; [|reflexivity].
  intros _ [H|[H|H]]; [discriminate | contradiction | lia].
Qed.

(** A type other than the sentinel is returned without a log line. *)
Lemma certGetCertificateType_quiet data data_size w t w' :
  certGetCertificateType data data_size w = Some (t, w') ->
  t <> CertType_None -> w' = w.
Proof.
  unfold certGetCertificateType. run.
  destruct data as [buf|]; [|intros [= <- _] H; contradiction].
  destruct (_ || _); [intros [= <- _] H; contradiction|].
  destruct (certGetCommonBlock buf); [|intros [= <- _] H; contradiction].
  destruct (_ || _); [intros [= <- _] H; contradiction|].
  intros [= _ <-] _. reflexivity.
Qed.

Lemma CertType_eqb_none t : CertType_eqb t CertType_None = false -> t <> CertType_None.
Proof. intros H ->. discriminate. Qed.

Lemma store_prefix_fits (bytes arr : list byte) :
  (List.length bytes <= List.length arr)%nat ->
  firstn (List.length bytes) (store_prefix bytes arr) = bytes.
Proof.
  intros H. unfold store_prefix.
  rewrite (firstn_all2 (n := List.length arr))
    by (rewrite length_app, length_skipn; lia).
  rewrite firstn_app, firstn_all, Nat.sub_diag, firstn_O, app_nil_r. reflexivity.
Qed.

(** A successful retrieval into a slot: one lookup, one read, and in the
    slot the bytes that were read. *)
Lemma retrieval_into_slot d name w slot w' :
  List.length (data d) = Z.to_nat SIGNED_CERT_MAX_SIZE ->
  _certRetrieveCertificateByName (Some d) name w = Some ((true, slot), w') ->
  exists ctx d',
    g_esCertSaveCtx w = Some ctx
    /\ slot = Some d'
    /\ SIGNED_CERT_MIN_SIZE <= size d' <= SIGNED_CERT_MAX_SIZE
    /\ type d' <> CertType_None
    /\ stored_certificate ctx name = Some (cert_bytes d')
    /\ Z.of_nat (List.length (cert_bytes d')) = size d'
    /\ g_esCertSaveCtx w' = g_esCertSaveCtx w
    /\ after w [EvLookup (lookup_path name); EvRead (size d')] w'.
Proof.
  destruct w as [g t]. intros Hlen.
  unfold _certRetrieveCertificateByName, stored_certificate, after, lookup_path. run.
  destruct g as [ctx|]; [|discriminate].
  destruct (save_get_fat_storage_from_file_entry_by_path ctx _)
    as [[fat cert_size]|] eqn:Elook; [|discriminate].
  destruct ((cert_size <? SIGNED_CERT_MIN_SIZE) || (cert_size >? SIGNED_CERT_MAX_SIZE))
    eqn:Erange; [discriminate|].
  apply orb_false_iff in Erange as [Hlo Hhi].
  apply Z.ltb_ge in Hlo. rewrite Z.gtb_ltb in Hhi. apply Z.ltb_ge in Hhi.
  cbn [size data type].
  set (bytes := save_allocation_table_storage_read fat 0 cert_size) in *.
  destruct (Z.of_nat (List.length bytes) =? cert_size) eqn:Ebr; cbn [negb];
    [|discriminate].
  apply Z.eqb_eq in Ebr.
  match goal with
  | |- context [certGetCertificateType ?a ?b ?c] =>
      destruct (certGetCertificateType a b c) as [[ty w1]|] eqn:Et; [|discriminate]
  end.
  destruct (CertType_eqb ty CertType_None) eqn:Enone; [discriminate|].
  apply CertType_eqb_none in Enone.
  apply certGetCertificateType_quiet in Et; [|exact Enone]. subst w1.
  intros [= <- <-]. eexists ctx, _. cbn [size data type g_esCertSaveCtx trace].
  assert (Hbytes : cert_bytes {| type := ty; size := cert_size;
                                 data := store_prefix bytes (data d) |} = bytes).
  { unfold cert_bytes. cbn [size data].
    replace (Z.to_nat cert_size) with (List.length bytes) by lia.
    apply store_prefix_fits. lia. }
  repeat split; try reflexivity; try assumption.
  - rewrite Hbytes, Elook. reflexivity.
  - rewrite Hbytes. exact Ebr.
  - rewrite <- !app_assoc. reflexivity.
Qed.

(** X3. A successful [_certRetrieveCertificateByName] into a slot has made
    one lookup, under the base path followed by the name, and one read of
    the declared size; the declared size is within the two bounds, and the
    slot holds that size, a type other than the sentinel and, as its first
    [size] bytes, exactly the bytes the store delivered. When the store has
    no file under that path, or declares a size outside the bounds, the call
    fails after the lookup with one log line and the slot untouched: no
    read is made. *)
Theorem _certRetrieveCertificateByName_stores_what_was_read d name w ctx :
  List.length (data d) = Z.to_nat SIGNED_CERT_MAX_SIZE ->
  g_esCertSaveCtx w = Some ctx ->
  (forall slot w',
     _certRetrieveCertificateByName (Some d) name w = Some ((true, slot), w') ->
     exists d',
       slot = Some d'
       /\ SIGNED_CERT_MIN_SIZE <= size d' <= SIGNED_CERT_MAX_SIZE
       /\ type d' <> CertType_None
       /\ stored_certificate ctx name = Some (cert_bytes d')
       /\ Z.of_nat (List.length (cert_bytes d')) = size d'
       /\ after w [EvLookup (lookup_path name); EvRead (size d')] w')
  /\ (match save_get_fat_storage_from_file_entry_by_path ctx (lookup_path name) with
      | None => True
      | Some (_, cert_size) =>
          cert_size < SIGNED_CERT_MIN_SIZE \/ cert_size > SIGNED_CERT_MAX_SIZE
      end ->
      exists site,
        _certRetrieveCertificateByName (Some d) name w
        = Some ((false, Some d),
                {| g_esCertSaveCtx := Some ctx;
                   trace := trace w ++ [EvLookup (lookup_path name); EvLog site] |})).
Proof.
  intros Hlen Hg. split.
  - intros slot w' H.
    destruct (retrieval_into_slot d name w slot w' Hlen H)
      as (ctx' & d' & Hg' & Hslot & Hsz & Hty & Hstored & Hbytes & _ & Hafter).
    assert (ctx' = ctx) by congruence. subst ctx'.
    exists d'. repeat split; try assumption; apply Hsz.
  - destruct w as [g tr]. cbn in Hg. subst g.
    unfold _certRetrieveCertificateByName, lookup_path. run.
    destruct (save_get_fat_storage_from_file_entry_by_path ctx _)
      as [[fat cert_size]|].
    + intros Hout.
      replace ((cert_size <? SIGNED_CERT_MIN_SIZE) || (cert_size >? SIGNED_CERT_MAX_SIZE))
        with true.
      * cbv beta iota. cbn [g_esCertSaveCtx trace].
        eexists. rewrite <- app_assoc. reflexivity.
      * symmetry. apply orb_true_iff. destruct Hout as [Hlo|Hhi].
        -- left. apply Z.ltb_lt. exact Hlo.
        -- right. rewrite Z.gtb_ltb. apply Z.ltb_lt. lia.
    + intros _. cbv beta iota. cbn [g_esCertSaveCtx trace].
      eexists. rewrite <- app_assoc. reflexivity.
Qed.

(** What a call adds to the world: the handle it leaves and the events. *)
Lemma certGetCertificateType_effects data data_size w :
  exists t evs,
    certGetCertificateType data data_size w
    = Some (t, {| g_esCertSaveCtx := g_esCertSaveCtx w; trace := trace w ++ evs |})
    /\ existsb is_mutex_event evs = false.
Proof.
  destruct w as [g tr]. unfold certGetCertificateType. run.
  destruct data as [buf|]; [|eexists _, [_]; split; reflexivity].
  destruct (_ || _); [eexists _, [_]; split; reflexivity|].
  destruct (certGetCommonBlock buf); [|eexists _, [_]; split; reflexivity].
  destruct (_ || _); [eexists _, [_]; split; reflexivity|].
  eexists _, []. rewrite app_nil_r. split; reflexivity.
Qed.

Lemma _certRetrieveCertificateByName_effects d name w :
  exists ok slot evs,
    _certRetrieveCertificateByName (Some d) name w
    = Some ((ok, slot), {| g_esCertSaveCtx := g_esCertSaveCtx w; trace := trace w ++ evs |})
    /\ existsb is_mutex_event evs = false.
Proof.
  destruct w as [g tr]. unfold _certRetrieveCertificateByName. run.
  destruct g as [ctx|]; cbn [g_esCertSaveCtx trace];
    [|eexists _, _, [_]; split; reflexivity].
  destruct (save_get_fat_storage_from_file_entry_by_path ctx _) as [[fat cert_size]|];
    cbn [g_esCertSaveCtx trace].
  2:{ eexists _, _, [_; _]. rewrite <- app_assoc. split; reflexivity. }
  destruct (_ || _); cbn [g_esCertSaveCtx trace].
  { eexists _, _, [_; _]. rewrite <- app_assoc. split; reflexivity. }
  cbn [size data type].
  destruct (Z.of_nat _ =? cert_size); cbn [negb g_esCertSaveCtx trace].
  2:{ eexists _, _, [_; _; _]. rewrite <- !app_assoc. split; reflexivity. }
  match goal with
  | |- context [certGetCertificateType ?a ?b ?c] =>
      destruct (certGetCertificateType_effects a b c) as (ty & evs & -> & Hevs)
  end.
  cbn [g_esCertSaveCtx trace].
  destruct (CertType_eqb ty CertType_None); cbn [g_esCertSaveCtx trace].
  - eexists _, _, ([_; _] ++ evs ++ [_]). rewrite <- !app_assoc. split; [reflexivity|].
    cbn. rewrite existsb_app, Hevs. reflexivity.
  - eexists _, _, ([_; _] ++ evs). rewrite <- !app_assoc. split; [reflexivity|].
    cbn. exact Hevs.
Qed.

(** X1. Every call of [certRetrieveCertificateByName] returns; the mutex
    is taken first and released last, once each; a NULL [dst], a NULL name
    and an empty name are rejected with one log line, [dst] and the savefile
    handle untouched; every other call leaves the savefile closed, and so
    does every call that found it closed. *)
Theorem certRetrieveCertificateByName_brackets dst name w :
  exists ok dst' w' mid,
    certRetrieveCertificateByName dst name w = Some ((ok, dst'), w')
    /\ after w (EvMutexLock :: mid ++ [EvMutexUnlock]) w'
    /\ existsb is_mutex_event mid = false
    /\ (g_esCertSaveCtx w = None -> g_esCertSaveCtx w' = None)
    /\ (dst = None \/ name = None \/ (exists nm, name = Some nm /\ strlen nm = 0) ->
        ok = false /\ dst' = dst /\ mid = [EvLog Log_InvalidParameters]
        /\ g_esCertSaveCtx w' = g_esCertSaveCtx w)
    /\ (dst <> None -> (exists nm, name = Some nm /\ strlen nm <> 0) ->
        g_esCertSaveCtx w' = None).
Proof.
  destruct w as [g tr].
  assert (Hrej : exists ok dst' w' mid,
             Some ((false, dst),
                   {| g_esCertSaveCtx := g;
                      trace := ((tr ++ [EvMutexLock]) ++ [EvLog Log_InvalidParameters])
                               ++ [EvMutexUnlock] |})
             = Some ((ok, dst'), w')
             /\ after {| g_esCertSaveCtx := g; trace := tr |}
                  (EvMutexLock :: mid ++ [EvMutexUnlock]) w'
             /\ existsb is_mutex_event mid = false
             /\ (g = None -> g_esCertSaveCtx w' = None)
             /\ ok = false /\ dst' = dst /\ mid = [EvLog Log_InvalidParameters]
             /\ g_esCertSaveCtx w' = g).
  { eexists _, _, _, [_]. split; [reflexivity|]. unfold after. cbn.
    rewrite <- !app_assoc. repeat split; auto. }
  unfold certRetrieveCertificateByName. run.
  destruct dst as [d|].
  2:{ destruct Hrej as (ok & dst' & w' & mid & E & H1 & H2 & H3 & H4).
      exists ok, dst', w', mid. destruct name; (split; [exact E|]);
      (repeat split; try tauto); intros Hd; contradiction. }
  destruct name as [nm|].
  2:{ destruct Hrej as (ok & dst' & w' & mid & E & H1 & H2 & H3 & H4).
      exists ok, dst', w', mid. split; [exact E|].
      repeat split; try tauto. intros _ (nm & [=] & _). }
  destruct (strlen nm =? 0) eqn:Elen.
  { apply Z.eqb_eq in Elen.
    destruct Hrej as (ok & dst' & w' & mid & E & H1 & H2 & H3 & H4).
    exists ok, dst', w', mid. split; [exact E|].
    repeat split; try tauto. intros _ (nm' & [= <-] & Hn). contradiction. }
  apply Z.eqb_neq in Elen. clear Hrej.
  assert (Hvalid : ~ (Some d = None \/ Some nm = None
                      \/ exists nm', Some nm = Some nm' /\ strlen nm' = 0)).
  { intros [H|[H|(nm' & [= <-] & H)]]; try discriminate. contradiction. }
  unfold certOpenEsCertSaveFile, certCloseEsCertSaveFile. run.
  destruct g as [ctx|]; cbv beta iota; cbn [g_esCertSaveCtx trace negb].
  - (* already open *)
    destruct (_certRetrieveCertificateByName_effects d nm
                {| g_esCertSaveCtx := Some ctx; trace := tr ++ [EvMutexLock] |})
      as (ok & slot & evs & -> & Hevs).
    cbv beta iota; cbn [g_esCertSaveCtx trace].
    eexists _, _, _, (evs ++ [EvSaveClose]). split; [reflexivity|].
    unfold after. cbn [g_esCertSaveCtx trace].
    split; [cbn [app]; rewrite <- !app_assoc; cbn [app]; reflexivity|].
    split; [rewrite existsb_app, Hevs; reflexivity|].
    split; [discriminate|]. split; [intros H; contradiction|]. reflexivity.
  - destruct (save_open_savefile CERT_SAVEFILE_PATH 0) as [ctx|];
      cbv beta iota; cbn [g_esCertSaveCtx trace negb].
    + destruct (_certRetrieveCertificateByName_effects d nm
                  {| g_esCertSaveCtx := Some ctx;
                     trace := (tr ++ [EvMutexLock]) ++ [EvSaveOpen] |})
        as (ok & slot & evs & -> & Hevs).
      cbv beta iota; cbn [g_esCertSaveCtx trace].
      eexists _, _, _, (EvSaveOpen :: evs ++ [EvSaveClose]). split; [reflexivity|].
      unfold after. cbn [g_esCertSaveCtx trace].
      split; [cbn [app]; rewrite <- !app_assoc; cbn [app]; reflexivity|].
      split; [cbn; rewrite existsb_app, Hevs; reflexivity|].
      split; [reflexivity|]. split; [intros H; contradiction|]. reflexivity.
    + eexists _, _, _, [EvSaveOpen; EvLog Log_OpenSavefileFailed].
      split; [reflexivity|].
      unfold after. cbn [g_esCertSaveCtx trace].
      split; [cbn [app]; rewrite <- !app_assoc; cbn [app]; reflexivity|].
      split; [reflexivity|].
      split; [reflexivity|]. split; [intros H; contradiction|]. reflexivity.
Qed.

(** X4. [certGenerateRawCertificateChainBySignatureIssuer] returns NULL for
    every issuer and every store: it never writes [*out_size], never opens
    the savefile and never looks a certificate up. Either its own check
    rejects the call, or the chain retrieval it calls does. *)
Theorem certGenerateRawCertificateChainBySignatureIssuer_returns_NULL issuer out_size w :
  exists evs,
    certGenerateRawCertificateChainBySignatureIssuer issuer out_size w
    = Some ((None, out_size),
            {| g_esCertSaveCtx := g_esCertSaveCtx w; trace := trace w ++ evs |})
    /\ (evs = [EvLog Log_InvalidParameters]
        \/ evs = [EvMutexLock; EvLog Log_InvalidParameters; EvMutexUnlock;
                  EvLog Log_RetrieveChainFailed]).
Proof.
  unfold certGenerateRawCertificateChainBySignatureIssuer.
  destruct issuer as [iss|]; [|eexists; split; [reflexivity | left; reflexivity]].
  destruct out_size as [n|]; [|eexists; split; [reflexivity | left; reflexivity]].
  destruct (strlen iss =? 0); [eexists; split; [reflexivity | left; reflexivity]|].
  unfold C.bind at 1.
  rewrite CertEntryFacts.certRetrieveCertificateChainBySignatureIssuer_always_fails.
  cbn [negb]. run.
  eexists. split; [|right; reflexivity].
  rewrite <- app_assoc. reflexivity.
Qed.

End More.

End CertMoreFacts.

(** * Further properties of chain assembly *)

Module ChainMoreFacts.

Import CStr Cert CertWords.

Ltac run :=
  unfold LOGFILE, emit, get_ctx, set_ctx in *;
  unfold C.bind, C.ret, C.lift, C.modify, C.get in *;
  cbn [g_esCertSaveCtx trace fst snd] in *.

Section More.

Context {decls : CertDecls} {store : SaveStore} {allocator : Allocator}.

(** *** How many tokens there can be *)

Lemma scan_token_rest d s :
  snd (scan_token d s) = EmptyString
  \/ (String.length (snd (scan_token d s)) + 1 <= String.length s)%nat.
Proof.
  induction s as [|c r IH]; simpl; [left; reflexivity|].
  destruct (Ascii.eqb c d); simpl; [right; lia|].
  destruct (scan_token d r) as [t k]; simpl in *.
  destruct IH as [IH|IH]; [left; assumption | right; lia].
Qed.

Lemma skip_delims_head d s c r :
  skip_delims d s = String c r -> Ascii.eqb c d = false.
Proof.
  induction s as [|c0 r0 IH]; simpl; [discriminate|].
  destruct (Ascii.eqb c0 d) eqn:E; [exact IH|].
  intros [= <- <-]. exact E.
Qed.

(** A call of [strtok] that returns a token uses up at least two characters,
    unless it reaches the end of the text. *)
Lemma strtok_consumes d s t k :
  strtok d s = Some (t, k) ->
  k = EmptyString \/ (String.length k + 2 <= String.length s)%nat.
Proof.
  unfold strtok. intros H.
  pose proof (CStrFacts.skip_delims_length d s) as Hs.
  destruct (skip_delims d s) as [|c r] eqn:E; [discriminate|].
  apply skip_delims_head in E. injection H as H.
  simpl in H. rewrite E in H.
  pose proof (scan_token_rest d r) as Hr.
  destruct (scan_token d r) as [t' k']. injection H as _ <-.
  simpl in Hr, Hs. destruct Hr as [Hr|Hr]; [left; assumption | right; lia].
Qed.

Lemma strtok_loop_nil d : strtok_loop d EmptyString = [].
Proof. reflexivity. Qed.

Lemma strtok_loop_half d s :
  (2 * List.length (strtok_loop d s) <= String.length s + 1)%nat.
Proof.
  funelim (strtok_loop d s).
  - pose proof (strtok_consumes _ _ _ _ e) as [Hk|Hk].
    + subst k. pose proof (CStrFacts.strtok_shrinks _ _ _ _ e) as Hs.
      rewrite strtok_loop_nil. simpl in *. lia.
    + simpl. lia.
  - simpl. lia.
Qed.

Lemma snprintf_store_length size s :
  0 < size -> Z.of_nat (String.length (snprintf_store size s)) <= size - 1.
Proof.
  intros Hs. unfold snprintf_store.
  pose proof (ChainFacts.take_length (Z.to_nat (size - 1)) s). lia.
Qed.

Lemma tokens_of_issuer_copy s :
  (List.length (strtok_loop "-"%char (snprintf_store 64 s)) <= 32)%nat.
Proof.
  pose proof (strtok_loop_half "-"%char (snprintf_store 64 s)) as H.
  pose proof (snprintf_store_length 64 s ltac:(lia)). lia.
Qed.

(** X6. The 0x40 bytes of [issuer_copy] bound the chain: the counting pass
    never returns more than 32, the retrieval loop never visits more than 32
    tokens, and a chain returned with success has between 1 and 32 slots. *)
Theorem chain_has_at_most_32_certificates issuer :
  (forall n, certGetCertificateCountInSignatureIssuer issuer = Some n -> 0 <= n <= 32)
  /\ (forall iss tokens,
        issuer = Some iss -> retrieval_tokens iss = Some tokens ->
        (List.length tokens <= 32)%nat)
  /\ (forall iss dst w chain w',
        issuer = Some iss ->
        _certRetrieveCertificateChainBySignatureIssuer dst iss w = Some ((true, chain), w') ->
        1 <= count chain <= 32
        /\ exists slots, certs chain = Some slots
                         /\ Z.of_nat (List.length slots) = count chain).
Proof.
  assert (Hcount : forall iss n,
             certGetCertificateCountInSignatureIssuer iss = Some n -> 0 <= n <= 32).
  { intros iss n. unfold certGetCertificateCountInSignatureIssuer.
    destruct iss as [iss|]; [|intros [= <-]; lia].
    destruct (strlen iss =? 0); [intros [= <-]; lia|].
    destruct (ptr_add iss 5) as [rest|]; [|discriminate].
    unfold snprintf_fmt. destruct (format_noargs (c_str rest)) as [full|]; [|discriminate].
    cbn [option_map]. intros [= <-].
    pose proof (tokens_of_issuer_copy full) as H.
    rewrite ChainFacts.count_loop_length; lia. }
  split; [apply Hcount|]. split.
  - intros iss tokens _. unfold retrieval_tokens.
    destruct (ptr_add iss 5) as [rest|]; [|discriminate].
    cbn [option_map]. intros [= <-]. apply tokens_of_issuer_copy.
  - intros iss dst w chain w' _ H.
    assert (Hn : exists n, certGetCertificateCountInSignatureIssuer (Some iss) = Some n
                           /\ count chain = n).
    { revert H. destruct w as [g t].
      unfold _certRetrieveCertificateChainBySignatureIssuer. run.
      destruct g; [|discriminate].
      destruct (certGetCertificateCountInSignatureIssuer (Some iss)) as [n|];
        [|discriminate].
      destruct (n =? 0); [discriminate|].
      destruct (alloc_ok _); cbn [negb]; [|discriminate].
      destruct (ptr_add iss 5); [|discriminate].
      destruct (retrieve_loop _ _ _ _) as [[[ok slots'] w1]|]; [|discriminate].
      destruct ok; cbn [negb]; [|discriminate].
      intros [= <- _]. exists n. split; reflexivity. }
    destruct Hn as (n & Hn & Hc). apply Hcount in Hn.
    apply ChainFacts._certRetrieveCertificateChainBySignatureIssuer_success in H
      as (n' & slots & -> & Hpos & Hlen & _).
    cbn [count certs] in *. subst n'.
    split; [lia|]. exists slots. split; [reflexivity | lia].
Qed.

(** *** Which slot holds which certificate *)

Lemma nth_error_set_nth_other {A} (x : A) l : forall n m,
  n <> m -> nth_error (set_nth n x l) m = nth_error l m.
Proof.
  induction l as [|h t IH]; intros [|n] [|m] H; simpl; try reflexivity.
  - contradiction.
  - apply IH. congruence.
Qed.

Lemma nth_error_set_nth_same {A} (x : A) l : forall n y,
  nth_error l n = Some y -> nth_error (set_nth n x l) n = Some x.
Proof.
  induction l as [|h t IH]; intros [|n] y H; simpl in *; try discriminate.
  - reflexivity.
  - eapply IH. exact H.
Qed.

Lemma add32_succ i : 0 <= i -> i + 1 < 2 ^ 32 -> U.add32 i 1 = i + 1.
Proof.
  intros. unfold U.add32, U.wrap, U.modulus. apply Z.mod_small. lia.
Qed.

(** The loop does not touch the slots below its index. *)
Lemma retrieve_loop_below tokens : forall i slots w ok slots' w',
  0 <= i -> i + Z.of_nat (List.length tokens) < 2 ^ 32 ->
  retrieve_loop tokens i slots w = Some ((ok, slots'), w') ->
  forall m, (m < Z.to_nat i)%nat -> nth_error slots' m = nth_error slots m.
Proof.
  induction tokens as [|pch rest IH]; intros i slots w ok slots' w' Hi Hb.
  - cbn. unfold C.ret. intros [= _ <- _] m _. reflexivity.
  - cbn [retrieve_loop]. cbn [List.length] in Hb. unfold C.bind at 1.
    destruct (_certRetrieveCertificateByName _ pch w) as [[[ok1 slot] w1]|];
      [|discriminate].
    assert (Hset : forall m, (m < Z.to_nat i)%nat ->
                     nth_error (match slot with
                                | Some c => set_nth (Z.to_nat i) c slots
                                | None => slots
                                end) m = nth_error slots m).
    { intros m Hm. destruct slot; [|reflexivity].
      apply nth_error_set_nth_other. lia. }
    destruct ok1; cbn [negb].
    + intros H m Hm. rewrite add32_succ in H by lia.
      rewrite (IH (i + 1) _ w1 ok slots' w' ltac:(lia) ltac:(lia) H m ltac:(lia)).
      apply Hset. exact Hm.
    + unfold LOGFILE, emit, C.bind, C.ret, C.modify.
      intros [= _ <- _] m Hm. apply Hset. exact Hm.
Qed.

(** After a successful loop the slot of each token holds what the store
    delivers for that token. *)
Lemma retrieve_loop_order tokens : forall i slots w slots' w' ctx,
  0 <= i -> i + Z.of_nat (List.length tokens) < 2 ^ 32 ->
  g_esCertSaveCtx w = Some ctx ->
  Forall slot_wf slots ->
  retrieve_loop tokens i slots w = Some ((true, slots'), w') ->
  forall k tk,
    nth_error tokens k = Some tk ->
    exists c,
      nth_error slots' (Z.to_nat i + k) = Some c
      /\ stored_certificate ctx tk = Some (cert_bytes c)
      /\ type c <> CertType_None.
Proof.
  induction tokens as [|pch rest IH]; intros i slots w slots' w' ctx Hi Hb Hg Hwf.
  - intros _ [|k] tk H; discriminate.
  - cbn [retrieve_loop]. cbn [List.length] in Hb. unfold C.bind at 1.
    destruct (_certRetrieveCertificateByName _ pch w) as [[[ok1 slot] w1]|] eqn:E1;
      [|discriminate].
    destruct ok1; cbn [negb].
    2:{ unfold LOGFILE, emit, C.bind, C.ret, C.modify. discriminate. }
    pose proof (ChainFacts._certRetrieveCertificateByName_post _ _ _ _ _ _ E1)
      as (Hg1 & Hkeep & Hok).
    destruct (Hok eq_refl) as (Hdst & _).
    destruct (nth_error slots (Z.to_nat i)) as [d|] eqn:En; [|contradiction].
    assert (Hd : slot_wf d).
    { apply nth_error_In in En. rewrite Forall_forall in Hwf. apply Hwf, En. }
    destruct (CertMoreFacts.retrieval_into_slot d pch w slot w1 (proj1 Hd) E1)
      as (ctx' & d' & Hg' & -> & Hsz & Hty & Hstored & Hlen & _ & _).
    assert (ctx' = ctx) by congruence. subst ctx'.
    destruct (Hkeep d eq_refl) as (d'' & [= <-] & Hdata).
    assert (Hd' : slot_wf d').
    { destruct Hd as [Hd _]. split; [congruence | lia]. }
    rewrite add32_succ by lia. intros Hloop k tk Hk.
    assert (Hwf1 : Forall slot_wf (set_nth (Z.to_nat i) d' slots))
      by (apply ChainFacts.set_nth_Forall; assumption).
    destruct k as [|k].
    + injection Hk as <-. exists d'.
      rewrite Nat.add_0_r.
      rewrite (retrieve_loop_below rest (i + 1) _ _ _ _ _ ltac:(lia) ltac:(lia) Hloop
                 (Z.to_nat i) ltac:(lia)).
      rewrite (nth_error_set_nth_same d' slots _ d En). auto.
    + cbn [nth_error] in Hk.
      destruct (IH (i + 1) _ w1 slots' w' ctx ltac:(lia) ltac:(lia)
                  ltac:(congruence) Hwf1 Hloop k tk Hk) as (c & Hc & Hrest).
      exists c. split; [|exact Hrest].
      replace (Z.to_nat i + S k)%nat with (Z.to_nat (i + 1) + k)%nat by lia.
      exact Hc.
Qed.

Lemma zeroed_slots_wf n : Forall slot_wf (repeat zeroed_Certificate n).
Proof.
  apply Forall_forall. intros c Hc. apply repeat_spec in Hc. subst c.
  apply ChainFacts.zeroed_Certificate_wf.
Qed.

(** What a successful call has gone through. *)
Lemma successful_call dst issuer w chain w' :
  _certRetrieveCertificateChainBySignatureIssuer dst issuer w = Some ((true, chain), w') ->
  exists ctx n rest slots,
    g_esCertSaveCtx w = Some ctx
    /\ certGetCertificateCountInSignatureIssuer (Some issuer) = Some n
    /\ ptr_add issuer 5 = Some rest
    /\ chain = {| count := n; certs := Some slots |}
    /\ retrieve_loop (strtok_loop "-"%char (snprintf_s 64 rest)) 0
         (repeat zeroed_Certificate (Z.to_nat n)) w = Some ((true, slots), w').
Proof.
  destruct w as [g t].
  unfold _certRetrieveCertificateChainBySignatureIssuer. run.
  destruct g as [ctx|]; [|discriminate].
  destruct (certGetCertificateCountInSignatureIssuer (Some issuer)) as [n|];
    [|discriminate].
  destruct (n =? 0); [discriminate|].
  destruct (alloc_ok _); cbn [negb]; [|discriminate].
  destruct (ptr_add issuer 5) as [rest|]; [|discriminate].
  destruct (retrieve_loop _ _ _ _) as [[[ok slots'] w1]|] eqn:El; [|discriminate].
  destruct ok; cbn [negb]; [|discriminate].
  intros [= <- <-]. exists ctx, n, rest, slots'. auto.
Qed.

(** X7. In a chain returned with success the slots are in the order of the
    tokens: for every token the retrieval pass visits, the slot of the same
    index holds a certificate of a type other than the sentinel whose bytes
    are what the store delivers under that token's name. *)
Theorem chain_is_in_token_order dst issuer w chain w' :
  _certRetrieveCertificateChainBySignatureIssuer dst issuer w = Some ((true, chain), w') ->
  exists ctx tokens slots,
    g_esCertSaveCtx w = Some ctx
    /\ retrieval_tokens issuer = Some tokens
    /\ certs chain = Some slots
    /\ forall k tk,
         nth_error tokens k = Some tk ->
         exists c,
           nth_error slots k = Some c
           /\ stored_certificate ctx tk = Some (cert_bytes c)
           /\ type c <> CertType_None.
Proof.
  intros H.
  destruct (successful_call _ _ _ _ _ H) as (ctx & n & rest & slots & Hg & _ & Hrest & -> & Hloop).
  exists ctx, (strtok_loop "-"%char (snprintf_s 64 rest)), slots.
  split; [exact Hg|]. split; [unfold retrieval_tokens; rewrite Hrest; reflexivity|].
  split; [reflexivity|].
  intros k tk Hk.
  pose proof (tokens_of_issuer_copy (c_str rest)) as Hb.
  assert (Hfit : 0 + Z.of_nat (List.length (strtok_loop "-"%char (snprintf_s 64 rest)))
                 < 2 ^ 32) by (unfold snprintf_s; lia).
  exact (retrieve_loop_order _ 0 _ w slots w' ctx (Z.le_refl 0) Hfit Hg
           (zeroed_slots_wf _) Hloop k tk Hk).
Qed.



(** *** Issuers without a token *)

Lemma skip_delims_only_char d s :
  only_char d s = true -> skip_delims d s = EmptyString.
Proof.
  induction s as [|c r IH]; simpl; [reflexivity|].
  intros H. apply andb_prop in H as [Hc Hr]. rewrite Hc. apply IH, Hr.
Qed.

Lemma strtok_loop_only_char d s :
  only_char d s = true -> strtok_loop d s = [].
Proof.
  funelim (strtok_loop d s); intros Honly; [|reflexivity].
  exfalso. pose proof e as e'. unfold strtok in e'.
  rewrite (skip_delims_only_char _ _ Honly) in e'. discriminate.
Qed.

Lemma only_char_take d n : forall s, only_char d s = true -> only_char d (take n s) = true.
Proof.
  induction n as [|n IH]; intros [|c r] H; simpl; try reflexivity.
  simpl in H. apply andb_prop in H as [Hc Hr]. rewrite Hc. apply IH, Hr.
Qed.

Lemma only_dash_percent_free s :
  only_char "-"%char s = true -> percent_free s = true.
Proof.
  induction s as [|c r IH]; simpl; [reflexivity|].
  intros H. apply andb_prop in H as [Hc Hr]. apply Ascii.eqb_eq in Hc. subst c.
  rewrite (IH Hr). reflexivity.
Qed.

(** X9. An issuer that is empty, or whose remainder after the five
    characters of the prefix consists of delimiters only (as for [Root-]
    itself), has no token: with the savefile open the call fails with the
    log line of the issuer check, sets [count] to zero, leaves [certs] as it
    was, allocates nothing and looks nothing up. *)
Theorem issuer_without_tokens_is_rejected dst issuer w :
  g_esCertSaveCtx w <> None ->
  strlen issuer = 0
  \/ (5 <= strlen issuer /\ only_char "-"%char (drop 5 (c_str issuer)) = true) ->
  certGetCertificateCountInSignatureIssuer (Some issuer) = Some 0
  /\ _certRetrieveCertificateChainBySignatureIssuer dst issuer w
     = Some ((false, {| count := 0; certs := certs dst |}),
             logged w Log_InvalidIssuerString).
Proof.
  intros Hg Hiss.
  assert (Hcount : certGetCertificateCountInSignatureIssuer (Some issuer) = Some 0).
  { destruct Hiss as [H0|[H5 Honly]].
    - unfold certGetCertificateCountInSignatureIssuer. rewrite H0. reflexivity.
    - unfold certGetCertificateCountInSignatureIssuer, ptr_add.
      replace (strlen issuer =? 0) with false by (symmetry; apply Z.eqb_neq; lia).
      replace (Z.of_nat 5 <=? strlen issuer) with true by (symmetry; apply Z.leb_le; lia).
      set (rest := drop 5 (c_str issuer)) in *.
      unfold snprintf_fmt.
      rewrite CStrFacts.c_str_id
        by (apply CStrFacts.nul_free_drop, CStrFacts.c_str_nul_free).
      rewrite ChainFacts.format_noargs_percent_free
        by (apply only_dash_percent_free, Honly).
      cbn [option_map]. unfold snprintf_store.
      rewrite strtok_loop_only_char by (apply only_char_take, Honly). reflexivity. }
  split; [exact Hcount|].
  destruct w as [g t]. unfold _certRetrieveCertificateChainBySignatureIssuer, logged. run.
  destruct g as [ctx|]; [|contradiction].
  rewrite Hcount. reflexivity.
Qed.

End More.

End ChainMoreFacts.

(** * Further properties of pfs.c *)

Module PfsMoreFacts.

Import Pfs.

Section More.

Context {nca : NcaSection} {decls : PfsDecls}.

(** X12. A [pfsReadEntryData] that returns true has made exactly one
    collaborator read, of [read_size] bytes at the 64-bit sum of the region
    offset, the header size, the entry offset and the offset asked for, and
    [out] holds what that read delivered. The window asked for lies inside
    the entry and the shifted window inside the region (sums as the code
    computes them); when the plain sum of header size, entry offset, offset
    and read size is below 2^64, the shifted window ends within the region
    as plain numbers. *)
Theorem pfsReadEntryData_success c e o read_size offs t out' t' :
  pfsReadEntryData (Some c) (Some e) (Some o) read_size offs t = Some ((true, out'), t') ->
  let s := shifted_offset c e offs in
  exists n bytes,
    nca_fs_ctx c = Some n
    /\ ncaReadFsSection n read_size (U.add64 (offset c) s) = (true, bytes)
    /\ out' = Some (store_prefix bytes o)
    /\ t' = t ++ [EvNcaRead read_size (U.add64 (offset c) s)]
    /\ (read_size <> 0 /\ offs < entry_size e /\ U.add64 offs read_size <= entry_size e)
    /\ (entry_offset e < size c /\ U.add64 (entry_offset e) (entry_size e) <= size c)
    /\ (s < size c /\ U.add64 s read_size <= size c)
    /\ (0 <= header_size c -> 0 <= entry_offset e -> 0 <= offs -> 0 <= read_size ->
        header_size c + entry_offset e + offs + read_size < 2 ^ 64 ->
        header_size c + entry_offset e + offs + read_size <= size c).
Proof.
  intros H s.
  destruct ((entry_offset e >=? size c) || (entry_size e =? 0)
            || (U.add64 (entry_offset e) (entry_size e) >? size c)
            || (read_size =? 0) || (offs >=? entry_size e)
            || (U.add64 offs read_size >? entry_size e)) eqn:Hchecks.
  { rewrite (PfsReadFacts.pfsReadEntryData_rejects c e _ _ _ _ Hchecks) in H.
    discriminate. }
  rewrite (PfsReadFacts.pfsReadEntryData_delegates c e o _ _ _ Hchecks) in H.
  rewrite PfsReadFacts.pfsReadPartitionData_cases in H. fold s in H.
  destruct (nca_fs_ctx c) as [n|]; [|discriminate].
  destruct ((size c =? 0) || (read_size =? 0) || (s >=? size c)
            || (U.add64 s read_size >? size c)) eqn:Hwin; [discriminate|].
  cbv zeta in H.
  destruct (ncaReadFsSection n read_size (U.add64 (offset c) s)) as [[|] bytes] eqn:Er;
    [|discriminate].
  injection H as <- <-.
  rewrite !orb_false_iff in Hchecks. rewrite !orb_false_iff in Hwin.
  destruct Hchecks as [[[[[H1 H2] H3] H4] H5] H6].
  destruct Hwin as [[[W1 W2] W3] W4].
  rewrite Z.geb_leb in H1, H5, W3. rewrite Z.gtb_ltb in H3, H6, W4.
  apply Z.leb_gt in H1, H5, W3. apply Z.ltb_ge in H3, H6, W4.
  apply Z.eqb_neq in H4.
  exists n, bytes. repeat split; try reflexivity; try assumption.
  intros Hh He Ho Hr Hsum. unfold s, shifted_offset in W4.
  rewrite (PfsReadFacts.add64_exact (header_size c) (entry_offset e)) in W4 by lia.
  rewrite (PfsReadFacts.add64_exact (header_size c + entry_offset e) offs) in W4 by lia.
  rewrite PfsReadFacts.add64_exact in W4 by lia. lia.
Qed.

(** The 32-bit words of the header are below 2^32. *)
Lemma load_le32_range bs : 0 <= U.load_le32 bs < 2 ^ 32.
Proof.
  unfold U.load_le32.
  destruct bs as [|b0 [|b1 [|b2 [|b3 rest]]]]; try lia.
  pose proof (UFacts.byte_val_range b0). pose proof (UFacts.byte_val_range b1).
  pose proof (UFacts.byte_val_range b2). pose proof (UFacts.byte_val_range b3).
  rewrite !Z.shiftl_mul_pow2 by lia. lia.
Qed.

Lemma read_section_length n buf read_size offs t ok out' t' :
  read_section n buf read_size offs t = Some ((ok, out'), t') ->
  List.length out' = List.length buf.
Proof.
  unfold read_section, emit, C.bind, C.ret, C.modify.
  destruct (ncaReadFsSection n read_size offs) as [ok0 bytes].
  intros [= _ <- _]. apply PfsInitFacts.pfs_store_prefix_length.
Qed.

(** What a call of the collaborator's read leaves behind. *)
Lemma read_section_spec n buf read_size offs t ok out' t' :
  read_section n buf read_size offs t = Some ((ok, out'), t') ->
  exists bytes,
    ncaReadFsSection n read_size offs = (ok, bytes)
    /\ out' = store_prefix bytes buf.
Proof.
  unfold read_section, emit, C.bind, C.ret, C.modify.
  destruct (ncaReadFsSection n read_size offs) as [ok0 bytes].
  intros [= <- <- _]. exists bytes. auto.
Qed.

(** The steps of a successful initialization up to the ExeFS check. *)
Lemma successful_init out n t c t' :
  pfsInitializeContext out (Some n) t = Some ((true, Some c), t') ->
  exists h partial full t3,
    section_header n = Some h
    /\ ncaValidateHierarchicalSha256Offsets (hierarchical_sha256 h) (section_size n) = true
    /\ let region := hash_target_layer_info (hierarchical_sha256 h) in
       let raw := store_prefix partial
                    (repeat x00 (Z.to_nat sizeof_PartitionFileSystemHeader)) in
       let hs := U.add64
                   (U.add64 sizeof_PartitionFileSystemHeader
                      (U.mul64 (entry_count (decode_PartitionFileSystemHeader raw))
                         sizeof_PartitionFileSystemEntry))
                   (name_table_size (decode_PartitionFileSystemHeader raw)) in
       ncaReadFsSection n sizeof_PartitionFileSystemHeader (layer_offset region)
       = (true, partial)
       /\ U.bswap32 (magic (decode_PartitionFileSystemHeader raw)) = PFS0_MAGIC
       /\ entry_count (decode_PartitionFileSystemHeader raw) <> 0
       /\ name_table_size (decode_PartitionFileSystemHeader raw) <> 0
       /\ ncaReadFsSection n hs (layer_offset region) = (true, full)
       /\ pfs_exefs_check
            {| nca_fs_ctx := Some n;
               offset := layer_offset region;
               size := layer_size region;
               is_exefs := false; header_size := hs;
               header := Some (store_prefix full (repeat x00 (Z.to_nat hs))) |}
            PFS0_MAGIC t3 = Some (c, t').
Proof.
  intros H. unfold pfsInitializeContext in H.
  unfold LOGFILE, emit in H. unfold C.bind, C.ret, C.modify in H.
  destruct out as [o|]; [|discriminate].
  destruct (section_header n) as [h|]; [|discriminate].
  destruct (_ || _); [discriminate|].
  destruct (negb (ncaValidateHierarchicalSha256Offsets _ _)) eqn:E4; [discriminate|].
  cbn [offset size] in H.
  destruct (read_section n _ _ _ t) as [[[ok raw] t1]|] eqn:Er1; [|discriminate].
  destruct ok; cbn [negb] in H; [|discriminate].
  apply read_section_spec in Er1 as (partial & Hpartial & ->).
  destruct (negb (_ =? PFS0_MAGIC)) eqn:Emagic; [discriminate|].
  apply negb_false_iff, Z.eqb_eq in Emagic. rewrite Emagic in H.
  destruct ((entry_count _ =? 0) || (name_table_size _ =? 0)) eqn:Ecounts;
    [discriminate|].
  apply orb_false_iff in Ecounts as [Ec En].
  apply Z.eqb_neq in Ec. apply Z.eqb_neq in En.
  destruct (negb (calloc_ok _)); [discriminate|].
  destruct (read_section n _ _ _ t1) as [[[ok2 hbuf] t2]|] eqn:Er2; [|discriminate].
  destruct ok2; cbn [negb] in H; [|discriminate].
  apply read_section_spec in Er2 as (full & Hfull & ->).
  apply negb_false_iff in E4.
  match type of H with
  | context [pfs_exefs_check ?c3 ?m ?t3] =>
      destruct (pfs_exefs_check c3 m t3) as [[c4 t4]|] eqn:Echeck; [|discriminate];
      injection H as <- <-; exists h, partial, full, t3
  end.
  cbv zeta. repeat split; assumption.
Qed.

(** X11. After a successful [pfsInitializeContext] the context refers to
    the section it was given and its region is the hash target layer of the
    section header, which the collaborator has validated against the section
    size. The collaborator's read of the header structure at the region
    offset has succeeded; the header it delivered has the PFS0 magic, and
    its [entry_count] and [name_table_size] are not zero. With structure
    sizes below 2^16, [header_size] is the plain sum of the header
    structure, [entry_count] entries and the name table of that header. The
    header buffer holds what the collaborator's read of [header_size] bytes
    at the region offset delivered, and has exactly [header_size] bytes. *)
Theorem pfsInitializeContext_success out n t c t' :
  0 <= sizeof_PartitionFileSystemHeader < 2 ^ 16 ->
  0 <= sizeof_PartitionFileSystemEntry < 2 ^ 16 ->
  pfsInitializeContext out (Some n) t = Some ((true, Some c), t') ->
  exists h partial full,
    section_header n = Some h
    /\ ncaValidateHierarchicalSha256Offsets (hierarchical_sha256 h) (section_size n) = true
    /\ nca_fs_ctx c = Some n
    /\ offset c = layer_offset (hash_target_layer_info (hierarchical_sha256 h))
    /\ size c = layer_size (hash_target_layer_info (hierarchical_sha256 h))
    /\ ncaReadFsSection n sizeof_PartitionFileSystemHeader (offset c) = (true, partial)
    /\ (let pfs_header :=
          decode_PartitionFileSystemHeader
            (store_prefix partial
               (repeat x00 (Z.to_nat sizeof_PartitionFileSystemHeader))) in
        U.bswap32 (magic pfs_header) = PFS0_MAGIC
        /\ 0 < entry_count pfs_header < 2 ^ 32
        /\ 0 < name_table_size pfs_header < 2 ^ 32
        /\ header_size c
           = sizeof_PartitionFileSystemHeader
             + entry_count pfs_header * sizeof_PartitionFileSystemEntry
             + name_table_size pfs_header)
    /\ ncaReadFsSection n (header_size c) (offset c) = (true, full)
    /\ header c = Some (store_prefix full (repeat x00 (Z.to_nat (header_size c))))
    /\ Z.of_nat (List.length
                   (store_prefix full (repeat x00 (Z.to_nat (header_size c)))))
       = header_size c.
Proof.
  intros HH HE H.
  destruct (successful_init out n t c t' H)
    as (h & partial & full & t3 & Hh & Hval & Hsteps).
  cbv zeta in Hsteps.
  set (raw := store_prefix partial
                (repeat x00 (Z.to_nat sizeof_PartitionFileSystemHeader))) in *.
  set (hdr := decode_PartitionFileSystemHeader raw) in *.
  destruct Hsteps as (Hpartial & Hmagic & Hec & Hnts & Hfull & Hcheck).
  pose proof (load_le32_range (skipn 4 raw)) as Rec.
  pose proof (load_le32_range (skipn 8 raw)) as Rnts.
  change (U.load_le32 (skipn 4 raw)) with (entry_count hdr) in Rec.
  change (U.load_le32 (skipn 8 raw)) with (name_table_size hdr) in Rnts.
  assert (Hprod : 0 <= entry_count hdr * sizeof_PartitionFileSystemEntry
                  <= (2 ^ 32 - 1) * (2 ^ 16 - 1)).
  { split; [apply Z.mul_nonneg_nonneg; lia | apply Z.mul_le_mono_nonneg; lia]. }
  assert (Hhs : U.add64
                  (U.add64 sizeof_PartitionFileSystemHeader
                     (U.mul64 (entry_count hdr) sizeof_PartitionFileSystemEntry))
                  (name_table_size hdr)
                = sizeof_PartitionFileSystemHeader
                  + entry_count hdr * sizeof_PartitionFileSystemEntry
                  + name_table_size hdr).
  { assert (Hm : U.mul64 (entry_count hdr) sizeof_PartitionFileSystemEntry
                 = entry_count hdr * sizeof_PartitionFileSystemEntry).
    { unfold U.mul64, U.wrap, U.modulus. apply Z.mod_small. lia. }
    rewrite Hm.
    rewrite (PfsReadFacts.add64_exact sizeof_PartitionFileSystemHeader) by lia.
    rewrite PfsReadFacts.add64_exact by lia. reflexivity. }
  rewrite Hhs in Hfull, Hcheck.
  match type of Hcheck with
  | pfs_exefs_check ?c3 _ _ = _ =>
      destruct (PfsInitFacts.pfs_exefs_check_spec c3 PFS0_MAGIC t3 eq_refl)
        as (c' & t1 & Hc & Hsame & _)
  end.
  rewrite Hcheck in Hc. injection Hc as <- <-.
  unfold before_exefs_check in Hsame.
  cbn [nca_fs_ctx offset size header_size header is_exefs] in Hsame.
  injection Hsame as Hn Ho Hs Hhsz Hhd.
  exists h, partial, full.
  rewrite Hn, Ho, Hs, Hhsz, Hhd.
  split; [exact Hh|]. split; [exact Hval|].
  split; [reflexivity|]. split; [reflexivity|]. split; [reflexivity|].
  split; [exact Hpartial|].
  split; [cbv zeta; fold raw; fold hdr; repeat split; try assumption; lia|].
  split; [exact Hfull|]. split; [reflexivity|].
  rewrite PfsInitFacts.pfs_store_prefix_length, repeat_length. apply Z2Nat.id.
  change (0 <= sizeof_PartitionFileSystemHeader
               + entry_count hdr * sizeof_PartitionFileSystemEntry
               + name_table_size hdr).
  lia.
Qed.

(** X10. [pfsInitializeContext] always returns. When it fails, either the
    parameter check rejected the call and [out] is as it was, or the context
    is left without a header buffer and with [is_exefs] clear; a NULL [out]
    or section is rejected with one log line and no read. When it succeeds
    the context has a header buffer. *)
Theorem pfsInitializeContext_failure out nca_ctx t :
  exists ok c t',
    pfsInitializeContext out nca_ctx t = Some ((ok, c), t')
    /\ (ok = false ->
        c = out \/ exists c', c = Some c' /\ header c' = None /\ is_exefs c' = false)
    /\ (ok = true -> exists c', c = Some c' /\ header c' <> None)
    /\ (out = None \/ nca_ctx = None ->
        ok = false /\ c = out /\ t' = t ++ [EvLog Log_InvalidParameters]).
Proof.
  unfold pfsInitializeContext.
  unfold LOGFILE, emit. unfold C.bind, C.ret, C.modify.
  assert (Hrej : exists ok c t',
             Some ((false, out), t ++ [EvLog Log_InvalidParameters]) = Some ((ok, c), t')
             /\ (ok = false ->
                 c = out \/ exists c', c = Some c' /\ header c' = None /\ is_exefs c' = false)
             /\ (ok = true -> exists c', c = Some c' /\ header c' <> None)
             /\ (ok = false /\ c = out /\ t' = t ++ [EvLog Log_InvalidParameters])).
  { eexists _, _, _. split; [reflexivity|]. repeat split; auto. discriminate. }
  destruct out as [o|].
  2:{ destruct Hrej as (ok & c & t' & E & H1 & H2 & H3).
      exists ok, c, t'. destruct nca_ctx; (split; [exact E|]); auto. }
  destruct nca_ctx as [n|].
  2:{ destruct Hrej as (ok & c & t' & E & H1 & H2 & H3).
      exists ok, c, t'. split; [exact E|]. auto. }
  assert (Hno : ~ (Some o = None \/ Some n = None)) by (intros [H|H]; discriminate).
  destruct (section_header n) as [h|].
  2:{ destruct Hrej as (ok & c & t' & E & H1 & H2 & H3).
      exists ok, c, t'. split; [exact E|]. auto. }
  destruct (_ || _).
  { destruct Hrej as (ok & c & t' & E & H1 & H2 & H3).
    exists ok, c, t'. split; [exact E|]. auto. }
  clear Hrej.
  assert (Hfail : forall c' t',
             header c' = None -> is_exefs c' = false ->
             exists ok c t'0,
               Some ((false, Some c'), t') = Some ((ok, c), t'0)
               /\ (ok = false ->
                   c = Some o \/ exists c'0, c = Some c'0 /\ header c'0 = None
                                             /\ is_exefs c'0 = false)
               /\ (ok = true -> exists c'0, c = Some c'0 /\ header c'0 <> None)
               /\ (Some o = None \/ Some n = None ->
                   ok = false /\ c = Some o /\ t'0 = t ++ [EvLog Log_InvalidParameters])).
  { intros c' t' Hh Hf. eexists _, _, _. split; [reflexivity|].
    split; [intros _; right; eauto|]. split; [discriminate|]. intros H; contradiction. }
  destruct (negb (ncaValidateHierarchicalSha256Offsets _ _)); [apply Hfail; reflexivity|].
  destruct (read_section n _ _ _ t) as [[[ok raw] t1]|] eqn:Er1.
  2:{ exfalso. revert Er1. unfold read_section, emit, C.bind, C.ret, C.modify.
      destruct (ncaReadFsSection _ _ _); discriminate. }
  destruct (negb ok); [apply Hfail; reflexivity|].
  destruct (negb (_ =? PFS0_MAGIC)); [apply Hfail; reflexivity|].
  destruct (_ || _); [apply Hfail; reflexivity|].
  destruct (negb (calloc_ok _)); [apply Hfail; reflexivity|].
  destruct (read_section n _ _ _ t1) as [[[ok2 full] t2]|] eqn:Er2.
  2:{ exfalso. revert Er2. unfold read_section, emit, C.bind, C.ret, C.modify.
      destruct (ncaReadFsSection _ _ _); discriminate. }
  destruct (negb ok2); [apply Hfail; reflexivity|].
  match goal with
  | |- context [pfs_exefs_check ?c3 ?m ?t3] =>
      destruct (PfsInitFacts.pfs_exefs_check_spec c3 m t3 eq_refl)
        as (c' & t4 & -> & Hsame & _)
  end.
  eexists _, _, _. split; [reflexivity|].
  split; [discriminate|]. split; [|intros H; contradiction].
  intros _. exists c'. split; [reflexivity|].
  unfold before_exefs_check in Hsame.
  cbn [nca_fs_ctx offset size header_size header is_exefs] in Hsame.
  injection Hsame as _ _ _ _ Hhd. rewrite Hhd. discriminate.
Qed.

End More.

End PfsMoreFacts.

(** * Properties of the patch request *)

Module PfsPatchFacts.

Import Pfs PfsPatch.

Section Patch.

Context {nca : NcaSection} {decls : PfsDecls} {patcher : NcaPatcher}.

(** [pfsGenerateEntryPatch] with all pointers given, case by case. *)
Lemma pfsGenerateEntryPatch_cases c e d data_size data_offset o t :
  pfsGenerateEntryPatch (Some c) (Some e) (Some d) data_size data_offset (Some o) t =
  match nca_fs_ctx c, header c with
  | Some n, Some _ =>
      if (header_size c =? 0) || (entry_offset e >=? size c) || (entry_size e =? 0)
         || (U.add64 (entry_offset e) (entry_size e) >? size c)
         || (data_size =? 0) || (data_offset >=? entry_size e)
         || (U.add64 data_offset data_size >? entry_size e)
      then Some ((false, Some o), t ++ [PfsPatch.EvLog PfsPatch.Log_InvalidParameters])
      else
        let p := shifted_offset c e data_offset in
        let '(ok, o') := ncaGenerateHierarchicalSha256Patch n d data_size p o in
        if ok then Some ((true, Some o'), t ++ [EvNcaPatch data_size p])
        else Some ((false, Some o'),
                   (t ++ [EvNcaPatch data_size p])
                   ++ [PfsPatch.EvLog Log_GeneratePatchFailed])
  | _, _ => Some ((false, Some o), t ++ [PfsPatch.EvLog PfsPatch.Log_InvalidParameters])
  end.
Proof.
  unfold pfsGenerateEntryPatch, PfsPatch.LOGFILE, PfsPatch.emit, shifted_offset.
  unfold C.bind, C.ret, C.modify.
  destruct (nca_fs_ctx c) as [n|]; [|reflexivity].
  destruct (header c); [|reflexivity].
  destruct (_ || _); [reflexivity|].
  cbv zeta. destruct (ncaGenerateHierarchicalSha256Patch _ _ _ _ _) as [[|] o'];
    reflexivity.
Qed.

(** X13. [pfsGenerateEntryPatch] asks the collaborator for nothing and
    leaves [*out] as it was, failing with the log line of its parameter
    check, whenever the context has no section, no header buffer or a header
    size of zero, the entry is empty, starts at or beyond the region size or
    ends (64-bit sum) beyond it, the data is empty, or the data window
    starts at or beyond the entry size or ends (64-bit sum) beyond it; in
    particular whenever the plain end of the data window is below 2^64 and
    beyond the entry size. *)
Theorem pfsGenerateEntryPatch_rejects c e d data_size data_offset o t :
  let rejected :=
    pfsGenerateEntryPatch (Some c) (Some e) (Some d) data_size data_offset (Some o) t
    = Some ((false, Some o), t ++ [PfsPatch.EvLog PfsPatch.Log_InvalidParameters]) in
  (nca_fs_ctx c = None \/ header c = None \/ header_size c = 0
   \/ entry_size e = 0 \/ entry_offset e >= size c
   \/ U.add64 (entry_offset e) (entry_size e) > size c
   \/ data_size = 0 \/ data_offset >= entry_size e
   \/ U.add64 data_offset data_size > entry_size e -> rejected)
  /\ (0 <= data_offset + data_size < 2 ^ 64 ->
      data_offset + data_size > entry_size e -> rejected).
Proof.
  intros rejected.
  assert (Hrej : nca_fs_ctx c = None \/ header c = None \/ header_size c = 0
                 \/ entry_size e = 0 \/ entry_offset e >= size c
                 \/ U.add64 (entry_offset e) (entry_size e) > size c
                 \/ data_size = 0 \/ data_offset >= entry_size e
                 \/ U.add64 data_offset data_size > entry_size e -> rejected).
  { intros H. unfold rejected. rewrite pfsGenerateEntryPatch_cases.
    destruct (nca_fs_ctx c) as [n|]; [|reflexivity].
    destruct (header c) as [hd|]; [|reflexivity].
    replace ((header_size c =? 0) || (entry_offset e >=? size c) || (entry_size e =? 0)
             || (U.add64 (entry_offset e) (entry_size e) >? size c)
             || (data_size =? 0) || (data_offset >=? entry_size e)
             || (U.add64 data_offset data_size >? entry_size e)) with true;
      [reflexivity|].
    symmetry. rewrite !orb_true_iff.
    rewrite !Z.geb_leb, !Z.gtb_ltb, !Z.eqb_eq, !Z.leb_le, !Z.ltb_lt.
    destruct H as [H|[H|[H|[H|[H|[H|[H|[H|H]]]]]]]]; try discriminate; lia. }
  split; [exact Hrej|].
  intros Hr Hgt. apply Hrej. do 8 right.
  rewrite PfsReadFacts.add64_exact; assumption.
Qed.

(** X14. A window of an entry that [pfsReadEntryData] has read is one
    [pfsGenerateEntryPatch] accepts for data of the same size, provided the
    context has its header buffer and a header size other than zero: the
    patch is asked for, once, at the partition offset at which the read took
    place relative to the region offset, and the call returns what the
    collaborator returns. *)
Theorem patch_is_requested_where_the_read_took_place
  c e buf d read_size offs o t out' t' tp :
  header c <> None -> header_size c <> 0 ->
  pfsReadEntryData (Some c) (Some e) (Some buf) read_size offs t = Some ((true, out'), t') ->
  exists n p,
    nca_fs_ctx c = Some n
    /\ p = shifted_offset c e offs
    /\ t' = t ++ [EvNcaRead read_size (U.add64 (offset c) p)]
    /\ pfsGenerateEntryPatch (Some c) (Some e) (Some d) read_size offs (Some o) tp
       = let '(ok, o') := ncaGenerateHierarchicalSha256Patch n d read_size p o in
         Some ((ok, Some o'),
               (tp ++ [EvNcaPatch read_size p])
               ++ (if ok then [] else [PfsPatch.EvLog Log_GeneratePatchFailed])).
Proof.
  intros Hhd Hhs Hread.
  destruct ((entry_offset e >=? size c) || (entry_size e =? 0)
            || (U.add64 (entry_offset e) (entry_size e) >? size c)
            || (read_size =? 0) || (offs >=? entry_size e)
            || (U.add64 offs read_size >? entry_size e)) eqn:Hchecks.
  { rewrite (PfsReadFacts.pfsReadEntryData_rejects c e _ _ _ _ Hchecks) in Hread.
    discriminate. }
  rewrite (PfsReadFacts.pfsReadEntryData_delegates c e buf _ _ _ Hchecks) in Hread.
  rewrite PfsReadFacts.pfsReadPartitionData_cases in Hread.
  destruct (nca_fs_ctx c) as [n|] eqn:En; [|discriminate].
  destruct (_ || _) in Hread; [discriminate|].
  cbv zeta in Hread.
  destruct (ncaReadFsSection n read_size _) as [[|] bytes]; [|discriminate].
  injection Hread as _ <-.
  exists n, (shifted_offset c e offs).
  split; [reflexivity|]. split; [reflexivity|]. split; [reflexivity|].
  rewrite pfsGenerateEntryPatch_cases, En.
  destruct (header c) as [hd|]; [|contradiction].
  apply Z.eqb_neq in Hhs.
  rewrite !orb_false_iff in Hchecks.
  destruct Hchecks as [[[[[H1 H2] H3] H4] H5] H6].
  rewrite Hhs, H1, H2, H3, H4, H5, H6. cbn [orb]. cbv zeta.
  destruct (ncaGenerateHierarchicalSha256Patch n d read_size _ o) as [[|] o'].
  - rewrite app_nil_r. reflexivity.
  - reflexivity.
Qed.

End Patch.

End PfsPatchFacts.

(** * Properties of the gamecard chain lookup *)

Module GameCardFacts.

Import CStr GameCardCert.

Section Lookup.

Context {decls : Cert.CertDecls} {gamecard : GameCard}.

Lemma gamecard_malloc_length n : List.length (malloc n) = Z.to_nat n.
Proof.
  unfold malloc. rewrite firstn_length_le; [reflexivity|].
  rewrite length_app, repeat_length. lia.
Qed.

Lemma gamecard_store_prefix_length src dst :
  List.length (store_prefix src dst) = List.length dst.
Proof.
  unfold store_prefix. rewrite length_firstn, length_app, length_skipn. lia.
Qed.

(** X15. Whenever [certRetrieveRawCertificateChainFromGameCardByRightsId]
    returns a buffer, the secure partition has an entry named by the hex
    string of the rights id followed by [.cert], the size of that entry is
    at least [SIGNED_CERT_MIN_SIZE], the buffer has that size, [*out_size]
    holds it, and one read of that size at the entry's offset was made and
    succeeded. Whenever it returns NULL, [*out_size] is not written, and a
    buffer that was allocated has been freed. *)
Theorem gamecard_chain_lookup id out_size t raw out_size' t' :
  certRetrieveRawCertificateChainFromGameCardByRightsId id out_size t
  = Some ((raw, out_size'), t') ->
  match raw with
  | Some bytes =>
      exists i name offs sz,
        id = Some i
        /\ name = (c_str (utilsGenerateHexStringFromData 0x30 (c i) 0x10) ++ ".cert")%string
        /\ gamecardGetEntryInfoFromHashFileSystemPartitionByName name = Some (offs, sz)
        /\ Cert.SIGNED_CERT_MIN_SIZE <= sz
        /\ fst (gamecardReadStorage sz offs) = true
        /\ List.length bytes = Z.to_nat sz
        /\ out_size' = Some sz
        /\ t' = t ++ [EvEntryInfo name; EvMalloc sz; EvGameCardRead sz offs]
  | None =>
      out_size' = out_size
      /\ forall evs, t' = t ++ evs ->
           (exists n, In (EvMalloc n) evs) -> In EvFree evs
  end.
Proof.
  unfold certRetrieveRawCertificateChainFromGameCardByRightsId, LOGFILE, emit.
  unfold C.bind, C.ret, C.modify, C.lift.
  assert (Hnomalloc : forall (l : list event),
             (forall n, ~ In (EvMalloc n) l) ->
             forall evs, t ++ l = t ++ evs ->
               (exists n, In (EvMalloc n) evs) -> In EvFree evs).
  { intros l Hl evs E (n & Hn). apply app_inv_head in E. subst evs.
    exfalso. exact (Hl n Hn). }
  destruct id as [i|].
  2:{ intros [= <- <- <-]. split; [reflexivity|].
      apply Hnomalloc. intros n [H|[]]. discriminate. }
  destruct out_size as [sz0|].
  2:{ intros [= <- <- <-]. split; [reflexivity|].
      apply Hnomalloc. intros n [H|[]]. discriminate. }
  unfold strcat. change (c_str ".cert") with ".cert".
  set (name := (c_str (utilsGenerateHexStringFromData 48 (c i) 16) ++ ".cert")%string).
  destruct (Z.of_nat (String.length name) + 1 <=? 48); [|discriminate].
  destruct (gamecardGetEntryInfoFromHashFileSystemPartitionByName name)
    as [[offs sz]|] eqn:Einfo.
  2:{ intros [= <- <- <-]. split; [reflexivity|].
      intros evs E. rewrite <- app_assoc in E. revert evs E.
      apply Hnomalloc. intros n [H|[H|[]]]; discriminate. }
  destruct (sz <? Cert.SIGNED_CERT_MIN_SIZE) eqn:Emin.
  { intros [= <- <- <-]. split; [reflexivity|].
    intros evs E. rewrite <- app_assoc in E. revert evs E.
    apply Hnomalloc. intros n [H|[H|[]]]; discriminate. }
  apply Z.ltb_ge in Emin.
  destruct (malloc_ok sz); cbn [negb]; [|discriminate].
  destruct (gamecardReadStorage sz offs) as [[|] bytes] eqn:Eread; cbn [negb].
  - intros [= <- <- <-].
    exists i, name, offs, sz. rewrite Eread.
    repeat split; try assumption; try reflexivity.
    + rewrite gamecard_store_prefix_length. apply gamecard_malloc_length.
    + rewrite <- !app_assoc. reflexivity.
  - intros [= <- <- <-]. split; [reflexivity|].
    intros evs E _. rewrite <- !app_assoc in E. apply app_inv_head in E. subst evs.
    cbn. auto 10.
Qed.

End Lookup.

End GameCardFacts.

(** * The savefile handle and the serializer at their edges *)

Module SaveFileFacts.

Import CStr Cert.

Section Handle.

Context {decls : CertDecls} {store : SaveStore}.

(** X2. [certOpenEsCertSaveFile] followed by [certCloseEsCertSaveFile]
    always returns and leaves the handle NULL. An open handle is kept as it
    is, without a call to the store; the open fails exactly when the handle
    was NULL and the store refuses, and then the handle stays NULL. The
    savefile is closed exactly when a handle is there, so closing twice is
    closing once, and opening twice is opening once. *)
Theorem savefile_open_then_close w :
  exists ok w1 w2,
    certOpenEsCertSaveFile w = Some (ok, w1)
    /\ certCloseEsCertSaveFile w1 = Some (tt, w2)
    /\ (ok = true <-> g_esCertSaveCtx w1 <> None)
    /\ (g_esCertSaveCtx w <> None -> ok = true /\ w1 = w)
    /\ (ok = false <->
        g_esCertSaveCtx w = None /\ save_open_savefile CERT_SAVEFILE_PATH 0 = None)
    /\ (ok = true -> certOpenEsCertSaveFile w1 = Some (true, w1))
    /\ g_esCertSaveCtx w2 = None
    /\ certCloseEsCertSaveFile w2 = Some (tt, w2)
    /\ (trace w2 = trace w1 ++ [EvSaveClose] <-> ok = true)
    /\ (trace w2 = trace w1 <-> ok = false).
Proof.
  destruct w as [g tr].
  unfold certOpenEsCertSaveFile, certCloseEsCertSaveFile.
  unfold LOGFILE, emit, get_ctx, set_ctx.
  unfold C.bind, C.ret, C.modify, C.get. cbn [g_esCertSaveCtx trace].
  assert (Hne : forall (l : list event) e, l <> l ++ [e]).
  { intros l e H. apply (f_equal (@List.length event)) in H.
    rewrite length_app in H. simpl in H. lia. }
  destruct g as [ctx|].
  - eexists _, _, _. split; [reflexivity|]. cbn [g_esCertSaveCtx trace].
    split; [reflexivity|]. cbn [g_esCertSaveCtx trace].
    repeat split; try reflexivity; try discriminate; try tauto.
    + intros [H _]. discriminate.
    + intros H. symmetry in H. exfalso. exact (Hne _ _ H).
  - destruct (save_open_savefile CERT_SAVEFILE_PATH 0) as [ctx|] eqn:Eopen.
    + eexists _, _, _. split; [reflexivity|]. cbn [g_esCertSaveCtx trace].
      split; [reflexivity|]. cbn [g_esCertSaveCtx trace].
      repeat split; try reflexivity; try discriminate; try tauto.
      * intros [_ H]. discriminate.
      * intros H. symmetry in H. exfalso. exact (Hne _ _ H).
    + eexists _, _, _. split; [reflexivity|]. cbn [g_esCertSaveCtx trace].
      split; [reflexivity|]. cbn [g_esCertSaveCtx trace].
      repeat split; try reflexivity; try discriminate; try tauto.
      intros H. exfalso. exact (Hne _ _ H).
Qed.

End Handle.

End SaveFileFacts.

Module SerializerFacts.

Import CStr Cert.

Section Edges.

Context {decls : CertDecls} {store : SaveStore}.

(** The copy loop fails once the bytes left to copy no longer fit the
    destination. *)
Lemma copy_loop_overrun slots : forall n i pos dst rest,
  skipn i slots = rest ->
  List.length rest = n ->
  Forall slot_wf rest ->
  (pos <= List.length dst)%nat ->
  Z.of_nat pos + total_size rest > Z.of_nat (List.length dst) ->
  copy_loop slots i n pos dst = None.
Proof.
  induction n as [|n IH]; intros i pos dst rest Hskip Hlen Hwf Hpos Hover.
  - destruct rest; [|discriminate]. simpl in Hover. lia.
  - destruct rest as [|c rest]; [discriminate|].
    destruct (RawChainFacts.skipn_nth_error slots i c rest Hskip) as [Hnth Hskip'].
    apply Forall_cons_iff in Hwf as [Hc Hrest].
    pose proof Hc as [Hdata Hsz].
    simpl in Hover. simpl copy_loop. rewrite Hnth.
    destruct (memcpy_at dst pos (data c) (size c)) as [dst'|] eqn:Ecpy; [|reflexivity].
    unfold memcpy_at in Ecpy.
    destruct ((size c <? 0) || (Z.of_nat (List.length (data c)) <? size c)
              || (Z.of_nat (List.length dst) <? Z.of_nat pos + size c)) eqn:Echk;
      [discriminate|].
    rewrite !orb_false_iff, !Z.ltb_ge in Echk. destruct Echk as [[_ _] Hfit].
    injection Ecpy as <-.
    apply (IH (S i) _ _ rest Hskip').
    + simpl in Hlen. lia.
    + assumption.
    + rewrite !length_app, length_firstn, length_firstn, length_skipn. lia.
    + rewrite !length_app, length_firstn, length_firstn, length_skipn. lia.
Qed.

(** X16. The two serializer functions at their edges. For a NULL chain, a
    count of zero or a NULL array the size is 0 and the copy leaves the
    destination as it is. For a chain of [count] well-formed slots the copy
    writes the certificates back to back over the first bytes of a
    destination that has room for them and leaves every byte behind them as
    it was; into a destination shorter than the sum of the sizes the copy
    has no defined behaviour. *)
Theorem serializer_edges dst :
  (forall chain,
     chain = None
     \/ (exists ch, chain = Some ch /\ (count ch = 0 \/ certs ch = None)) ->
     certCalculateRawCertificateChainSize chain = Some 0
     /\ certCopyCertificateChainDataToMemoryBuffer dst chain = Some dst)
  /\ (forall n slots,
        0 < n < 2 ^ 32 ->
        List.length slots = Z.to_nat n ->
        Forall slot_wf slots ->
        let chain := Some {| count := n; certs := Some slots |} in
        (total_size slots <= Z.of_nat (List.length dst) ->
         certCopyCertificateChainDataToMemoryBuffer dst chain
         = Some (List.concat (map cert_bytes slots)
                 ++ skipn (Z.to_nat (total_size slots)) dst))
        /\ (total_size slots > Z.of_nat (List.length dst) ->
            certCopyCertificateChainDataToMemoryBuffer dst chain = None)).
Proof.
  split.
  - intros chain [->|(ch & -> & H)]; [split; reflexivity|].
    unfold certCalculateRawCertificateChainSize,
      certCopyCertificateChainDataToMemoryBuffer.
    destruct (count ch =? 0) eqn:E; [split; reflexivity|].
    destruct H as [H|H]; [apply Z.eqb_neq in E; contradiction|].
    rewrite H. split; reflexivity.
  - intros n slots Hn Hlen Hwf chain.
    unfold chain, certCopyCertificateChainDataToMemoryBuffer. cbn [count certs].
    replace (n =? 0) with false by (symmetry; apply Z.eqb_neq; lia).
    split; intros Hsz.
    + rewrite (RawChainFacts.copy_loop_concat slots (Z.to_nat n) 0%nat 0%nat dst slots);
        try easy.
    + apply (copy_loop_overrun slots (Z.to_nat n) 0%nat 0%nat dst slots); try easy.
      lia.
Qed.

End Edges.

End SerializerFacts.

(** * The further properties on concrete stores and sections *)

Module CertMoreExamples.

Import CStr Cert Fixture CertWords.

#[local] Existing Instance console_decls.
#[local] Existing Instance generous.

(** X3 at the store [es_files]: the retrieval of CA00000003 into a zeroed
    slot succeeds, and the slot holds the stored bytes. *)
Lemma stores_what_was_read_witness :
  exists d',
    SIGNED_CERT_MIN_SIZE <= size d' <= SIGNED_CERT_MAX_SIZE
    /\ type d' <> CertType_None
    /\ stored_certificate (store := store_of es_files) es_files "CA00000003"
       = Some (cert_bytes d').
Proof.
  destruct (_certRetrieveCertificateByName (store := store_of es_files)
              (Some zeroed_Certificate) "CA00000003" (open_world es_files))
    as [[[ok slot] w']|] eqn:E; [|vm_compute in E; discriminate].
  assert (Hok : ok = true) by (vm_compute in E; congruence). subst ok.
  assert (Hlen : List.length (data zeroed_Certificate) = Z.to_nat SIGNED_CERT_MAX_SIZE)
    by (vm_compute; reflexivity).
  destruct (proj1 (CertMoreFacts._certRetrieveCertificateByName_stores_what_was_read
                     (store := store_of es_files)
                     zeroed_Certificate "CA00000003" (open_world es_files) es_files
                     Hlen eq_refl) slot w' E)
    as (d' & _ & Hr & Hty & Hst & _).
  exists d'. split; [exact Hr|]. split; [exact Hty | exact Hst].
Defined.

(** X6 at the chain of [Root-CA00000003-XS00000020]. *)
Lemma chain_has_at_most_32_certificates_witness :
  exists chain slots,
    1 <= count chain <= 32
    /\ certs chain = Some slots
    /\ Z.of_nat (List.length slots) = count chain.
Proof.
  destruct (_certRetrieveCertificateChainBySignatureIssuer (store := store_of es_files)
              zeroed_CertificateChain "Root-CA00000003-XS00000020" (open_world es_files))
    as [[[ok chain] w']|] eqn:E; [|vm_compute in E; discriminate].
  assert (Hok : ok = true) by (vm_compute in E; congruence). subst ok.
  destruct (proj2 (proj2 (ChainMoreFacts.chain_has_at_most_32_certificates
                            (store := store_of es_files)
                            (Some "Root-CA00000003-XS00000020")))
              "Root-CA00000003-XS00000020" zeroed_CertificateChain
              (open_world es_files) chain w' eq_refl E)
    as (Hr & slots & Hs & Hl).
  exists chain, slots. split; [exact Hr|]. split; [exact Hs | exact Hl].
Defined.

(** X7 at the chain of [Root-CA00000003-XS00000020]: the first slot holds
    what the store has under CA00000003, the second what it has under
    XS00000020. *)
Lemma chain_is_in_token_order_witness :
  exists c1 c2 rest,
    stored_certificate (store := store_of es_files) es_files "CA00000003"
    = Some (cert_bytes c1)
    /\ stored_certificate (store := store_of es_files) es_files "XS00000020"
       = Some (cert_bytes c2)
    /\ exists chain w',
         _certRetrieveCertificateChainBySignatureIssuer (store := store_of es_files)
           zeroed_CertificateChain "Root-CA00000003-XS00000020" (open_world es_files)
         = Some ((true, chain), w')
         /\ certs chain = Some (c1 :: c2 :: rest).
Proof.
  destruct (_certRetrieveCertificateChainBySignatureIssuer (store := store_of es_files)
              zeroed_CertificateChain "Root-CA00000003-XS00000020" (open_world es_files))
    as [[[ok chain] w']|] eqn:E; [|vm_compute in E; discriminate].
  assert (Hok : ok = true) by (vm_compute in E; congruence). subst ok.
  destruct (ChainMoreFacts.chain_is_in_token_order (store := store_of es_files)
              zeroed_CertificateChain "Root-CA00000003-XS00000020"
              (open_world es_files) chain w' E)
    as (ctx & tokens & slots & Hg & Htok & Hslots & Hall).
  injection Hg as <-.
  assert (Ht : tokens = ["CA00000003"; "XS00000020"]%string)
    by (vm_compute in Htok; congruence).
  subst tokens.
  destruct (Hall 0%nat _ eq_refl) as (c1 & H1 & S1 & _).
  destruct (Hall 1%nat _ eq_refl) as (c2 & H2 & S2 & _).
  destruct slots as [|a [|b rest]]; try discriminate.
  injection H1 as ->. injection H2 as ->.
  exists c1, c2, rest. split; [exact S1|]. split; [exact S2|].
  exists chain, w'. split; [reflexivity | exact Hslots].
Defined.


(** X9 at the issuer [Root---], with the savefile of [es_files] open. *)
Lemma issuer_without_tokens_is_rejected_witness :
  certGetCertificateCountInSignatureIssuer (Some "Root---") = Some 0
  /\ _certRetrieveCertificateChainBySignatureIssuer (store := store_of es_files)
       zeroed_CertificateChain "Root---" (open_world es_files)
     = Some ((false, {| count := 0; certs := certs zeroed_CertificateChain |}),
             logged (open_world es_files) Log_InvalidIssuerString).
Proof.
  apply (ChainMoreFacts.issuer_without_tokens_is_rejected (store := store_of es_files)
           zeroed_CertificateChain "Root---" (open_world es_files)).
  - discriminate.
  - right. split; [vm_compute; discriminate | reflexivity].
Defined.

End CertMoreExamples.

Module PfsMoreExamples.

Import Pfs Fixture MoreFixture.

#[local] Existing Instance image_section.
#[local] Existing Instance image_decls.
#[local] Existing Instance recording_patcher.

(** X12 at [npdm_section]: four bytes at 0 of the entry of main.npdm are
    read at 0x38 of the region and are META. *)
Lemma pfsReadEntryData_success_witness :
  exists out' t',
    pfsReadEntryData (Some npdm_context) (Some npdm_entry) (Some (zeros 4)) 4 0 []
    = Some ((true, out'), t')
    /\ t' = [EvNcaRead 4 0x38]
    /\ out' = Some (list_byte_of_string "META").
Proof.
  destruct (pfsReadEntryData (Some npdm_context) (Some npdm_entry) (Some (zeros 4)) 4 0 [])
    as [[[ok out'] t']|] eqn:E; [|vm_compute in E; discriminate].
  assert (Hok : ok = true) by (vm_compute in E; congruence). subst ok.
  destruct (PfsMoreFacts.pfsReadEntryData_success
              npdm_context npdm_entry (zeros 4) 4 0 [] out' t' E)
    as (n & bytes & Hn & Hread & Hout & Ht & _).
  exists out', t'. split; [reflexivity|]. split; [exact Ht|].
  injection Hn as <-. vm_compute in Hread. injection Hread as <-.
  exact Hout.
Defined.

(** X11 at [npdm_section]: the header read has one entry and a name table
    of 16 bytes, and the header size is 0x38. *)
Lemma pfsInitializeContext_success_witness :
  exists c partial full,
    ncaReadFsSection npdm_section sizeof_PartitionFileSystemHeader (offset c)
    = (true, partial)
    /\ (let pfs_header :=
          decode_PartitionFileSystemHeader
            (store_prefix partial
               (repeat x00 (Z.to_nat sizeof_PartitionFileSystemHeader))) in
        entry_count pfs_header = 1
        /\ name_table_size pfs_header = 16
        /\ header_size c
           = sizeof_PartitionFileSystemHeader
             + entry_count pfs_header * sizeof_PartitionFileSystemEntry
             + name_table_size pfs_header)
    /\ header_size c = 0x38
    /\ header c = Some (store_prefix full (repeat x00 (Z.to_nat (header_size c)))).
Proof.
  destruct (pfsInitializeContext (Some blank_context) (Some npdm_section) [])
    as [[[ok oc] t']|] eqn:E; [|vm_compute in E; discriminate].
  assert (H : ok = true /\ exists c, oc = Some c /\ offset c = 0 /\ header_size c = 0x38).
  { vm_compute in E. injection E as <- <- _.
    split; [reflexivity|]. eexists. repeat split; reflexivity. }
  destruct H as [-> (c & -> & Ho & Hhs)].
  assert (HH : 0 <= sizeof_PartitionFileSystemHeader < 2 ^ 16)
    by (vm_compute; split; [discriminate | reflexivity]).
  assert (HE : 0 <= sizeof_PartitionFileSystemEntry < 2 ^ 16)
    by (vm_compute; split; [discriminate | reflexivity]).
  destruct (PfsMoreFacts.pfsInitializeContext_success
              (Some blank_context) npdm_section [] c t' HH HE E)
    as (h & partial & full & _ & _ & _ & _ & _ & Hpartial & Hdr & _ & Hfull & _).
  exists c, partial, full.
  split; [exact Hpartial|].
  split; [|split; [exact Hhs | exact Hfull]].
  cbv zeta in Hdr. destruct Hdr as (_ & _ & _ & Hsize).
  rewrite Ho in Hpartial. vm_compute in Hpartial. injection Hpartial as <-.
  cbv zeta. split; [vm_compute; reflexivity|]. split; [vm_compute; reflexivity|].
  exact Hsize.
Defined.

(** X13 at the entry of main.npdm: five bytes at 4 cross the end of the
    entry; no patch is asked for. *)
Lemma pfsGenerateEntryPatch_rejects_witness :
  PfsPatch.pfsGenerateEntryPatch (Some npdm_context) (Some npdm_entry)
    (Some (list_byte_of_string "12345")) 5 4 (Some no_patch) []
  = Some ((false, Some no_patch), [PfsPatch.EvLog PfsPatch.Log_InvalidParameters]).
Proof.
  apply (proj2 (PfsPatchFacts.pfsGenerateEntryPatch_rejects
                  npdm_context npdm_entry (list_byte_of_string "12345") 5 4 no_patch [])).
  - vm_compute. split; [discriminate | reflexivity].
  - vm_compute. reflexivity.
Defined.

(** X14 at the entry of main.npdm: the four bytes read at 0 of the entry
    are read at 0x38, and a patch of four bytes at 0 is asked for at 0x38. *)
Lemma patch_is_requested_where_the_read_took_place_witness :
  exists p,
    p = 0x38
    /\ PfsPatch.pfsGenerateEntryPatch (Some npdm_context) (Some npdm_entry)
         (Some (list_byte_of_string "ATEM")) 4 0 (Some no_patch) []
       = Some ((true, Some (recorded p (list_byte_of_string "ATEM"))),
               [PfsPatch.EvNcaPatch 4 p]).
Proof.
  destruct (pfsReadEntryData (Some npdm_context) (Some npdm_entry) (Some (zeros 4)) 4 0 [])
    as [[[ok out'] t']|] eqn:E; [|vm_compute in E; discriminate].
  assert (Hok : ok = true) by (vm_compute in E; congruence). subst ok.
  assert (Hhd : header npdm_context <> None) by discriminate.
  assert (Hhs : header_size npdm_context <> 0) by discriminate.
  destruct (PfsPatchFacts.patch_is_requested_where_the_read_took_place
              npdm_context npdm_entry (zeros 4) (list_byte_of_string "ATEM") 4 0
              no_patch [] out' t' [] Hhd Hhs E)
    as (n & p & Hn & Hp & _ & Hpatch).
  exists p. split; [rewrite Hp; vm_compute; reflexivity|].
  rewrite Hpatch. injection Hn as <-. rewrite Hp. vm_compute. reflexivity.
Defined.

End PfsMoreExamples.

Module GameCardExamples.

Import CStr GameCardCert Fixture MoreFixture.

#[local] Existing Instance console_decls.
#[local] Existing Instance card.

(** X15 at [card]: the chain of [card_rights_id] is found under
    [010000000000abcd0000000000000002.cert], has 0x700 bytes and is read at
    offset 16. *)
Lemma gamecard_chain_lookup_witness :
  exists bytes t',
    certRetrieveRawCertificateChainFromGameCardByRightsId (Some card_rights_id) (Some 0) []
    = Some ((Some bytes, Some 0x700), t')
    /\ List.length bytes = Z.to_nat 0x700
    /\ t' = [EvEntryInfo "010000000000abcd0000000000000002.cert";
             EvMalloc 0x700; EvGameCardRead 0x700 16].
Proof.
  destruct (certRetrieveRawCertificateChainFromGameCardByRightsId
              (Some card_rights_id) (Some 0) [])
    as [[[raw sz] t']|] eqn:E; [|vm_compute in E; discriminate].
  assert (H : exists bytes, raw = Some bytes).
  { vm_compute in E. injection E as <- _ _. eexists. reflexivity. }
  destruct H as [bytes ->].
  destruct (GameCardFacts.gamecard_chain_lookup
              (Some card_rights_id) (Some 0) [] (Some bytes) sz t' E)
    as (i & name & offs & n & Hi & Hname & Hinfo & _ & _ & Hlen & Hsz & Ht).
  injection Hi as <-. subst name.
  vm_compute in Hinfo. injection Hinfo as <- <-.
  exists bytes, t'. subst sz. split; [reflexivity|]. split; [exact Hlen|].
  rewrite Ht. vm_compute. reflexivity.
Defined.

End GameCardExamples.

Module SerializerExamples.

Import CStr Cert Fixture.

#[local] Existing Instance console_decls.

(** X16 at a chain of the one certificate XS00000020: the copy into a
    destination of 0x302 bytes leaves the last two as they were. *)
Lemma serializer_edges_witness :
  let c := {| type := CertType_SigRsa2048_PubKeyRsa2048; size := 0x300;
              data := cert_XS00000020 ++ zeros 0x200 |} in
  certCopyCertificateChainDataToMemoryBuffer (zeros 0x300 ++ [x01; x02])
    (Some {| count := 1; certs := Some [c] |})
  = Some (cert_XS00000020 ++ [x01; x02]).
Proof.
  intros c.
  assert (Hn : 0 < 1 < 2 ^ 32) by (split; reflexivity).
  assert (Hwf : Forall slot_wf [c]).
  { constructor; [|constructor]. split; [vm_compute; reflexivity|].
    vm_compute. split; discriminate. }
  assert (Hfit : total_size [c] <= Z.of_nat (List.length (zeros 0x300 ++ [x01; x02])))
    by (vm_compute; discriminate).
  rewrite (proj1 (proj2 (SerializerFacts.serializer_edges
                           (zeros 0x300 ++ [x01; x02]))
                    1 [c] Hn eq_refl Hwf) Hfit).
  vm_compute. reflexivity.
Defined.

End SerializerExamples.
